(** * Rosebud news pipeline: ingestion (scripts/fetch-news.mjs) and
      analysis (scripts/analyse-news.mjs)

    A shallow embedding of the two batch scripts and the properties their
    specification states about them.

    Strings.  A JavaScript string is a sequence of UTF-16 code units.  The
    embedding uses [string], whose characters are the code units 0..255
    (Latin-1); the character classes ([\b], [\s], [\d]), the case mappings
    and the [i] flag are the ECMAScript ones restricted to that range. *)

From Stdlib Require Import Bool List ZArith NArith Lia Ascii String.
From Stdlib Require Import Permutation Sorted SpecFloat.
Import ListNotations.
Open Scope string_scope.

(* ================================================================== *)
(** * Part I: definitions *)
(* ================================================================== *)

(** ** JavaScript values and strings *)

Module Js.

(** The values a field of a feed entry or of a persisted item can hold:
    absent, [null], or a string. *)
Inductive jsval : Type :=
| undefined
| null
| str (s : string).

Definition jsval_eqb (a b : jsval) : bool :=
  match a, b with
  | undefined, undefined => true
  | null, null => true
  | str x, str y => String.eqb x y
  | _, _ => false
  end.

(** [v || ""] used as a string: every falsy value (absent, null, empty
    string) gives the empty string. *)
Definition orEmpty (v : jsval) : string :=
  match v with
  | str s => s
  | _ => ""
  end.

Definition truthy (v : jsval) : bool :=
  match v with
  | str s => negb (String.eqb s "")
  | _ => false
  end.

(** [a || b] on values. *)
Definition jsor (a b : jsval) : jsval := if truthy a then a else b.

(** Conversion inside a template literal. *)
Definition toTemplate (v : jsval) : string :=
  match v with
  | undefined => "undefined"
  | null => "null"
  | str s => s
  end.

Definition code (c : ascii) : N := N_of_ascii c.

Definition between (lo hi : N) (c : ascii) : bool :=
  ((lo <=? code c) && (code c <=? hi))%N.

Definition isAsciiUpper (c : ascii) : bool := between 65 90 c.
Definition isAsciiLower (c : ascii) : bool := between 97 122 c.
Definition isDigit (c : ascii) : bool := between 48 57 c.

(** [\w]: letters, digits and the underscore. *)
Definition isWordChar (c : ascii) : bool :=
  isAsciiUpper c || isAsciiLower c || isDigit c || (code c =? 95)%N.

(** [\s]: TAB, LF, VT, FF, CR, space and the no-break space. *)
Definition isWhiteSpace (c : ascii) : bool :=
  between 9 13 c || (code c =? 32)%N || (code c =? 160)%N.

(** One character of [String.prototype.toLowerCase]: A-Z and the Latin-1
    capitals (all of U+00C0..U+00DE but the multiplication sign). *)
Definition lowerChar (c : ascii) : ascii :=
  if isAsciiUpper c || (between 192 222 c && negb (code c =? 215)%N)
  then ascii_of_N (code c + 32)
  else c.

(** [Canonicalize] of a case-insensitive regular expression without the
    [u] flag: the upper-case mapping when it is a single code unit and
    does not send a non-ASCII character into ASCII.  The micro sign and
    the y with diaeresis have their capitals outside Latin-1, where no
    other character of the range is sent; they stand for them here. *)
Definition Canonicalize (c : ascii) : ascii :=
  if isAsciiLower c || (between 224 254 c && negb (code c =? 247)%N)
  then ascii_of_N (code c - 32)
  else c.

Fixpoint smap (f : ascii -> ascii) (s : string) : string :=
  match s with
  | EmptyString => EmptyString
  | String c r => String (f c) (smap f r)
  end.

Definition toLowerCase (s : string) : string := smap lowerChar s.

Fixpoint sforall (f : ascii -> bool) (s : string) : bool :=
  match s with
  | EmptyString => true
  | String c r => f c && sforall f r
  end.

Definition hd_char (s : string) : option ascii :=
  match s with
  | EmptyString => None
  | String c _ => Some c
  end.

(** [prefix p s]: [Some rest] when [s = p ++ rest]. *)
Fixpoint stripPrefix (p s : string) : option string :=
  match p with
  | EmptyString => Some s
  | String a p' =>
      match s with
      | EmptyString => None
      | String b s' => if Ascii.eqb a b then stripPrefix p' s' else None
      end
  end.

(** [s.includes(w)]: [w] occurs in [s] as a contiguous substring. *)
Fixpoint includes (s w : string) : bool :=
  match stripPrefix w s with
  | Some _ => true
  | None =>
      match s with
      | EmptyString => false
      | String _ s' => includes s' w
      end
  end.

(** [.replace(/\s+/g, " ")]; [inRun] tells that the previous character
    was white space already replaced. *)
Fixpoint collapseFrom (inRun : bool) (s : string) : string :=
  match s with
  | EmptyString => EmptyString
  | String c r =>
      if isWhiteSpace c
      then (if inRun then collapseFrom true r else String " " (collapseFrom true r))
      else String c (collapseFrom false r)
  end.

Definition collapseWhiteSpace (s : string) : string := collapseFrom false s.

Fixpoint trimStart (s : string) : string :=
  match s with
  | EmptyString => EmptyString
  | String c r => if isWhiteSpace c then trimStart r else s
  end.

Fixpoint trimEnd (s : string) : string :=
  match s with
  | EmptyString => EmptyString
  | String c r =>
      match trimEnd r with
      | EmptyString => if isWhiteSpace c then EmptyString else String c EmptyString
      | r' => String c r'
      end
  end.

Definition trim (s : string) : string := trimEnd (trimStart s).

(** A text is tidy when its only white space is single spaces between
    other characters: none at either end, no two in a row, no other
    white-space character.  [singleSpaced prevSpace s] checks the inside,
    [prevSpace] telling that a space may not come next. *)
Fixpoint singleSpaced (prevSpace : bool) (s : string) : bool :=
  match s with
  | EmptyString => true
  | String c r =>
      if isWhiteSpace c
      then Ascii.eqb c " " && negb prevSpace && singleSpaced true r
      else singleSpaced false r
  end.

Fixpoint endsWithSpace (s : string) : bool :=
  match s with
  | EmptyString => false
  | String c EmptyString => isWhiteSpace c
  | String _ r => endsWithSpace r
  end.

Definition tidy (s : string) : bool :=
  singleSpaced true s && negb (endsWithSpace s).

(** An [Error] object. *)
Record JsError : Type := mkError {
  err_name : string;
  err_message : string
}.

(** [Error.prototype.toString] *)
Definition errToString (e : JsError) : string :=
  if String.eqb (err_message e) "" then err_name e
  else if String.eqb (err_name e) "" then err_message e
  else err_name e ++ ": " ++ err_message e.

(** [e?.message || e] inside a template literal *)
Definition errText (e : JsError) : string :=
  if String.eqb (err_message e) "" then errToString e else err_message e.

End Js.

(** ** The fragment of [RegExp] the scripts use *)

Module RegExp.
Import Js.

(** Every pattern of the two scripts is built from a plain phrase, with
    or without a [\b] on each side; none of the phrases has a regular
    expression metacharacter, so a pattern is a sequence of literal
    characters and word-boundary assertions. *)
Inductive atom : Type :=
| Chr (c : ascii)
| WordBoundary.

Record regex : Type := mkRegex {
  atoms : list atom;
  ignoreCase : bool
}.

Definition isMeta (c : ascii) : bool :=
  existsb (Ascii.eqb c)
    (list_ascii_of_string "\^$.|?*+()[]{}").

Definition literal (s : string) : list atom :=
  map Chr (list_ascii_of_string s).

(** [new RegExp(`\\b${s}\\b`, "i")] *)
Definition wholeWord (s : string) : regex :=
  mkRegex (WordBoundary :: (literal s ++ [WordBoundary])%list) true.

(** [new RegExp(s, "i")] *)
Definition anywhere (s : string) : regex :=
  mkRegex (literal s) true.

Definition chrMatches (ic : bool) (p c : ascii) : bool :=
  if ic then Ascii.eqb (Canonicalize p) (Canonicalize c) else Ascii.eqb p c.

Definition isWordOpt (o : option ascii) : bool :=
  match o with
  | Some c => isWordChar c
  | None => false
  end.

(** Match the atoms at one position; [prev] is the character before it. *)
Fixpoint matchHere (ic : bool) (p : list atom) (prev : option ascii)
  (s : string) : bool :=
  match p with
  | [] => true
  | WordBoundary :: p' =>
      xorb (isWordOpt prev) (isWordOpt (hd_char s)) && matchHere ic p' prev s
  | Chr c :: p' =>
      match s with
      | EmptyString => false
      | String d s' => chrMatches ic c d && matchHere ic p' (Some d) s'
      end
  end.

Fixpoint searchFrom (ic : bool) (p : list atom) (prev : option ascii)
  (s : string) : bool :=
  matchHere ic p prev s
  || match s with
     | EmptyString => false
     | String d s' => searchFrom ic p (Some d) s'
     end.

(** [rx.test(s)] for a pattern without the [g] or [y] flag. *)
Definition test (rx : regex) (s : string) : bool :=
  searchFrom (ignoreCase rx) (atoms rx) None s.

(** What the two kinds of pattern mean.  [lastOr d s] is the last
    character of [s], or [d] when [s] is empty. *)
Fixpoint lastOr (d : option ascii) (s : string) : option ascii :=
  match s with
  | EmptyString => d
  | String c r => lastOr (Some c) r
  end.

Definition lastChar (s : string) : option ascii := lastOr None s.

Definition sameIgnoringCase (p m : string) : Prop :=
  smap Canonicalize p = smap Canonicalize m.

(** A word boundary between [before] and [after]: exactly one of the two
    characters next to it is a word character. *)
Definition wordEdge (before after : string) : Prop :=
  xorb (isWordOpt (lastChar before)) (isWordOpt (hd_char after)) = true.

(** The phrase stands somewhere in the text, in any case. *)
Definition Occurs (p s : string) : Prop :=
  exists pre mid post,
    s = pre ++ mid ++ post /\ sameIgnoringCase p mid.

(** The phrase stands in the text, in any case, between two word
    boundaries. *)
Definition OccursAsWord (p s : string) : Prop :=
  exists pre mid post,
    s = pre ++ mid ++ post /\ sameIgnoringCase p mid
    /\ wordEdge pre (mid ++ post) /\ wordEdge (pre ++ mid) post.

End RegExp.

(** ** scripts/fetch-news.mjs: the political-relevance filter *)

Module Classifier.
Import Js RegExp.

Definition INCLUDE_phrases : list string :=
  [ "election"; "by-election"; "by election";
    "council"; "councillor"; "council tax"; "local plan"; "mayor"; "combined authority";
    "parliament"; "mp "; "mps "; "msps"; "ms "; "senedd"; "stormont"; "westminster"; "whitehall";
    "manifesto"; "policy"; "pledge"; "bill"; "act"; "legislation"; "committee"; "select committee";
    "poll"; "polling"; "mrp"; "seat projection"; "swing"; "constituency";
    "budget"; "spending"; "tax"; "nhs"; "schools"; "housing"; "planning"; "immigration"; "benefits";
    "devolution"; "transport"; "rail"; "buses"; "clean air"; "ulez"; "levelling up";
    "police commissioner"; "pcc"; "crime"; "justice" ].

Definition INCLUDE : list regex := map wholeWord INCLUDE_phrases.

Definition EXCLUDE_phrases : list string :=
  [ "strictly come dancing"; "strictly"; "love island"; "big brother"; "x factor"; "britain's got talent";
    "premier league"; "champions league"; "transfer"; "fixture"; "line-up"; "lineup"; "goal"; "match report";
    "celebrity"; "gossip"; "royal family"; "soap"; "coronation street"; "eastenders"; "emmerdale";
    "lotto"; "lottery"; "horoscope"; "weather warning" ].

Definition EXCLUDE : list regex := map anywhere EXCLUDE_phrases.

(** A parameter left out ([undefined]) takes its default [""]. *)
Definition defaultEmpty (v : jsval) : jsval :=
  match v with
  | undefined => str ""
  | _ => v
  end.

(** The text the patterns are tested on: title, one space, summary. *)
Definition haystack (title summary : jsval) : string :=
  orEmpty (defaultEmpty title) ++ " " ++ orEmpty (defaultEmpty summary).

Definition isPolitical (title summary : jsval) : bool :=
  let t := haystack title summary in
  if existsb (fun rx => test rx t) EXCLUDE then false
  else existsb (fun rx => test rx t) INCLUDE.

End Classifier.

(** ** Insertion-ordered maps and sets, stable sorting *)

Module JsMap.
Section Map.
Context {K V : Type}.
Variable eqb : K -> K -> bool.

(** A [Map]: its entries in insertion order, one per key. *)
Definition t : Type := list (K * V).

Definition empty : t := [].

Fixpoint get (k : K) (m : t) : option V :=
  match m with
  | [] => None
  | (k', v) :: r => if eqb k' k then Some v else get k r
  end.

Definition has (k : K) (m : t) : bool :=
  match get k m with
  | Some _ => true
  | None => false
  end.

(** [m.set(k, v)]: an existing key keeps its place, a new one goes last. *)
Fixpoint set (k : K) (v : V) (m : t) : t :=
  match m with
  | [] => [(k, v)]
  | (k', v') :: r => if eqb k' k then (k, v) :: r else (k', v') :: set k v r
  end.

Definition keys (m : t) : list K := map fst m.
Definition values (m : t) : list V := map snd m.
Definition size (m : t) : nat := List.length m.

End Map.
End JsMap.

Module JsArray.
Section Sort.
Context {A : Type}.
Variable cmp : A -> A -> Z.

Fixpoint insert (x : A) (l : list A) : list A :=
  match l with
  | [] => [x]
  | y :: r => if (cmp x y <=? 0)%Z then x :: y :: r else y :: insert x r
  end.

(** [Array.prototype.sort(cmp)].  The sort is stable, and for a
    consistent comparator the stable sorted order is unique; this is the
    insertion sort that computes it. *)
Fixpoint sort (l : list A) : list A :=
  match l with
  | [] => []
  | x :: r => insert x (sort r)
  end.

End Sort.

(** Descending by [key], ties allowed. *)
Definition descBy {A : Type} (key : A -> Z) (a b : A) : Prop :=
  (key b <= key a)%Z.

(** [a.slice(0, n)] *)
Definition slice0 {A : Type} (n : nat) (l : list A) : list A := firstn n l.

End JsArray.

(** ** The item record shared by both scripts *)

Module Data.
Import Js.

(** A normalized news item, as the ingestion stage writes it and the
    analysis stage reads it back. *)
Record NewsItem : Type := mkItem {
  title : jsval;
  link : jsval;
  pubDate : jsval;
  source : jsval;
  summary : jsval
}.

End Data.

(** ** scripts/fetch-news.mjs: fetching, normalizing, de-duplicating, ranking *)

Module FetchNews.
Import Js RegExp Classifier Data.

Record Source : Type := mkSource {
  name : string;
  candidates : list string
}.

Definition SOURCES : list Source :=
  [
    mkSource "BBC Politics"
      ["https://feeds.bbci.co.uk/news/politics/rss.xml"];
    mkSource "Guardian Politics"
      ["https://www.theguardian.com/politics/rss"];
    mkSource "Sky Politics"
      ["http://feeds.skynews.com/feeds/rss/politics.xml";
       "https://news.sky.com/feeds/rss/politics.xml"];
    mkSource "Independent UK Politics"
      ["https://www.independent.co.uk/news/uk/politics/rss"];
    mkSource "Financial Times UK/Politics"
      ["https://www.ft.com/world/uk?format=rss";
       "https://www.ft.com/uk-politics?format=rss"];
    mkSource "The Bolton News"
      ["https://www.theboltonnews.co.uk/news/rss"];
    mkSource "Wigan Today"
      ["https://www.wigantoday.net/rss";
       "https://www.wigantoday.net/news/rss";
       "https://www.wigantoday.net/politics/rss"];
    mkSource "Manchester Evening News"
      ["https://www.manchestereveningnews.co.uk/?service=rss"];
    mkSource "Liverpool Echo"
      ["https://www.liverpoolecho.co.uk/?service=rss"];
    mkSource "Lancashire Evening Post"
      ["https://www.lep.co.uk/rss";
       "https://www.lep.co.uk/news/rss"];
    mkSource "Blackpool Gazette"
      ["https://www.blackpoolgazette.co.uk/rss";
       "https://www.blackpoolgazette.co.uk/news/rss"];
    mkSource "York Press"
      ["https://www.yorkpress.co.uk/news/rss"];
    mkSource "Northern Echo"
      ["https://www.thenorthernecho.co.uk/news/rss"];
    mkSource "The Scarborough News"
      ["https://www.thescarboroughnews.co.uk/rss"];
    mkSource "Leeds Live"
      ["https://www.leeds-live.co.uk/?service=rss"];
    mkSource "Yorkshire Post"
      ["https://www.yorkshirepost.co.uk/rss"];
    mkSource "Hull Daily Mail"
      ["https://www.hulldailymail.co.uk/?service=rss"];
    mkSource "Sheffield Star"
      ["https://www.thestar.co.uk/rss";
       "https://www.thestar.co.uk/news/rss"];
    mkSource "Bradford Telegraph & Argus"
      ["https://www.thetelegraphandargus.co.uk/news/rss"];
    mkSource "Birmingham Mail"
      ["https://www.birminghammail.co.uk/?service=rss"];
    mkSource "Nottingham Post"
      ["https://www.nottinghampost.com/?service=rss"];
    mkSource "Derby Telegraph"
      ["https://www.derbytelegraph.co.uk/?service=rss"];
    mkSource "Leicester Mercury"
      ["https://www.leicestermercury.co.uk/?service=rss"];
    mkSource "Coventry Telegraph"
      ["https://www.coventrytelegraph.net/?service=rss"];
    mkSource "Stoke Sentinel"
      ["https://www.stokesentinel.co.uk/?service=rss"];
    mkSource "KentOnline (index)"
      ["https://www.kentonline.co.uk/rss-feeds/"];
    mkSource "Oxford Mail"
      ["https://www.oxfordmail.co.uk/news/rss/"];
    mkSource "Cambridgeshire Live"
      ["https://www.cambridge-news.co.uk/?service=rss"];
    mkSource "Essex Live"
      ["https://www.essexlive.news/?service=rss"];
    mkSource "HertsLive"
      ["https://www.hertfordshiremercury.co.uk/?service=rss"];
    mkSource "Suffolk News (East Anglian Daily Times)"
      ["https://www.eadt.co.uk/news/rss"];
    mkSource "Portsmouth News"
      ["https://www.portsmouth.co.uk/rss";
       "https://www.portsmouth.co.uk/news/rss"];
    mkSource "Bristol Post"
      ["https://www.bristolpost.co.uk/?service=rss"];
    mkSource "Somerset Live"
      ["https://www.somersetlive.co.uk/?service=rss"];
    mkSource "Gloucestershire Live"
      ["https://www.gloucestershirelive.co.uk/?service=rss"];
    mkSource "Plymouth Herald"
      ["https://www.plymouthherald.co.uk/?service=rss"];
    mkSource "Cornwall Live"
      ["https://www.cornwalllive.com/?service=rss"];
    mkSource "Evening Standard"
      ["https://www.standard.co.uk/rss"];
    mkSource "MyLondon"
      ["https://www.mylondon.news/?service=rss"];
    mkSource "Herald Scotland / Glasgow Times"
      ["https://www.heraldscotland.com/news/rss";
       "https://www.glasgowtimes.co.uk/news/rss"];
    mkSource "The Scotsman"
      ["https://www.scotsman.com/rss";
       "https://www.scotsman.com/news/rss"];
    mkSource "WalesOnline"
      ["https://www.walesonline.co.uk/?service=rss"];
    mkSource "Belfast Live"
      ["https://www.belfastlive.co.uk/?service=rss"];
    mkSource "Belfast Telegraph"
      ["https://www.belfasttelegraph.co.uk/rss/"]
  ].

(** An entry of a parsed feed, with the fields [normalize] reads. *)
Record RawEntry : Type := mkRaw {
  raw_title : jsval;
  raw_link : jsval;
  raw_isoDate : jsval;
  raw_pubDate : jsval;
  raw_contentSnippet : jsval;
  raw_content : jsval
}.

Record Feed : Type := mkFeed {
  feed_title : jsval;
  feed_items : list RawEntry
}.

Definition normalize (item : RawEntry) (sourceTitle : jsval) : NewsItem :=
  let summary :=
    trim (collapseWhiteSpace
            (orEmpty (jsor (raw_contentSnippet item) (raw_content item)))) in
  {| title := str (orEmpty (raw_title item));
     link := str (orEmpty (raw_link item));
     pubDate := jsor (jsor (raw_isoDate item) (raw_pubDate item)) null;
     source := sourceTitle;
     summary := str summary |}.

(** What the run does to the outside, in order. *)
Inductive Event : Type :=
| Warn (line : string)
| WriteFile (path : string) (items : list NewsItem)
| LogWrote (count : nat).

Definition isWarn (e : Event) : bool :=
  match e with
  | Warn _ => true
  | _ => false
  end.

Section Pipeline.

(** The time value of [new Date(s)] for a string, [None] for an invalid
    date.  Outside the ISO format it is the host's. *)
Variable Date_parse : string -> option Z.

(** The network and the clock. *)
Variable World : Type.
Variable delay : Z -> World -> World.
Variable parseURL : string -> World -> (JsError + Feed) * World.

(** [new Date(p || 0)] *)
Definition newDate (p : jsval) : option Z :=
  if truthy p then Date_parse (orEmpty p) else Some 0%Z.

(** [a > b] on two dates: false as soon as one is invalid. *)
Definition dateGt (a b : option Z) : bool :=
  match a, b with
  | Some x, Some y => (y <? x)%Z
  | _, _ => false
  end.

(** [a - b] on two dates, [None] for NaN. *)
Definition dateSub (a b : option Z) : option Z :=
  match a, b with
  | Some x, Some y => Some (x - y)%Z
  | _, _ => None
  end.

(** The loop of [parseWithFallback]; [lastErr] is the variable of that
    name. *)
Fixpoint tryCandidates (cands : list string) (lastErr : option JsError)
  (w : World) : (JsError + (Feed * string)) * World :=
  match cands with
  | [] =>
      (inl (match lastErr with
            | Some e => e
            | None => mkError "Error" "All candidates failed"
            end), w)
  | url :: rest =>
      match parseURL url (delay 100 w) with
      | (inr feed, w') =>
          match feed_items feed with
          | _ :: _ => (inr (feed, url), w')
          | [] => tryCandidates rest lastErr w'
          end
      | (inl e, w') => tryCandidates rest (Some e) w'
      end
  end.

Definition parseWithFallback (cands : list string) (w : World)
  : (JsError + (Feed * string)) * World :=
  tryCandidates cands None w.

(** [AllFail cands e w e' w']: tried in turn from the world [w] with
    [lastErr = e], every candidate of [cands] throws or answers with a
    feed without entries, leaving [lastErr = e'] and the world [w']. *)
Inductive AllFail :
  list string -> option JsError -> World -> option JsError -> World -> Prop :=
| AllFail_none (e : option JsError) (w : World) :
    AllFail [] e w e w
| AllFail_throws (url : string) (rest : list string) (e e' : option JsError)
    (err : JsError) (w w1 w' : World) :
    parseURL url (delay 100 w) = (inl err, w1) ->
    AllFail rest (Some err) w1 e' w' ->
    AllFail (url :: rest) e w e' w'
| AllFail_no_entries (url : string) (rest : list string) (e e' : option JsError)
    (feed : Feed) (w w1 w' : World) :
    parseURL url (delay 100 w) = (inr feed, w1) ->
    feed_items feed = [] ->
    AllFail rest e w1 e' w' ->
    AllFail (url :: rest) e w e' w'.

(** [AllEmpty cands w w']: tried in turn from the world [w], every
    candidate of [cands] answers, with a feed without entries. *)
Inductive AllEmpty : list string -> World -> World -> Prop :=
| AllEmpty_none (w : World) : AllEmpty [] w w
| AllEmpty_next (url : string) (rest : list string) (feed : Feed)
    (w w1 w' : World) :
    parseURL url (delay 100 w) = (inr feed, w1) ->
    feed_items feed = [] ->
    AllEmpty rest w1 w' ->
    AllEmpty (url :: rest) w w'.

(** What [parseWithFallback] throws when every candidate has failed. *)
Definition thrownAfter (lastErr : option JsError) : JsError :=
  match lastErr with
  | Some e => e
  | None => mkError "Error" "All candidates failed"
  end.

Definition feedFailed (src : Source) (e : JsError) : Event :=
  Warn ("Feed failed for " ++ name src ++ ": " ++ errText e).

(** The entries of one accepted feed that are kept. *)
Definition politicalItems (sourceTitle : jsval) (raws : list RawEntry)
  : list NewsItem :=
  filter (fun it => isPolitical (title it) (summary it))
         (map (fun raw => normalize raw sourceTitle) raws).

(** One turn of the loop over the sources, with its [try]/[catch]. *)
Definition fetchSource (src : Source) (w : World)
  : list NewsItem * list Event * World :=
  match parseWithFallback (candidates src) w with
  | (inr (feed, _), w') =>
      (politicalItems (jsor (feed_title feed) (str (name src))) (feed_items feed),
       [], w')
  | (inl e, w') =>
      ([], [Warn ("Feed failed for " ++ name src ++ ": " ++ errText e)], w')
  end.

Fixpoint collect (srcs : list Source) (w : World)
  : list NewsItem * list Event * World :=
  match srcs with
  | [] => ([], [], w)
  | s :: rest =>
      let '(got, warned, w1) := fetchSource s w in
      let '(got', warned', w2) := collect rest w1 in
      ((got ++ got')%list, (warned ++ warned')%list, w2)
  end.

Definition dedupKey (it : NewsItem) : string :=
  toLowerCase (toTemplate (source it) ++ "__" ++ toTemplate (title it)).

Definition isNewer (it prev : NewsItem) : bool :=
  dateGt (newDate (pubDate it)) (newDate (pubDate prev)).

Definition dedupStep (m : JsMap.t (K:=string) (V:=NewsItem)) (it : NewsItem)
  : JsMap.t :=
  let key := dedupKey it in
  match JsMap.get String.eqb key m with
  | None => JsMap.set String.eqb key it m
  | Some prev => if isNewer it prev then JsMap.set String.eqb key it m else m
  end.

Definition dedup (all : list NewsItem) : JsMap.t :=
  fold_left dedupStep all JsMap.empty.

(** What the map holds after the items [seen] have gone through the
    loop. *)
Definition Deduped (seen : list NewsItem) (m : list (string * NewsItem)) : Prop :=
  NoDup (JsMap.keys m)
  /\ (forall k v, In (k, v) m -> dedupKey v = k /\ In v seen)
  /\ (forall it, In it seen ->
        exists v, JsMap.get String.eqb (dedupKey it) m = Some v
                  /\ isNewer it v = false).

(** The comparator of the final sort; a NaN result counts as 0. *)
Definition byNewest (a b : NewsItem) : Z :=
  match dateSub (newDate (pubDate b)) (newDate (pubDate a)) with
  | Some d => d
  | None => 0%Z
  end.

Definition MAX_ITEMS : nat := 200.

Definition rank (m : JsMap.t (K:=string) (V:=NewsItem)) : list NewsItem :=
  JsArray.slice0 MAX_ITEMS (JsArray.sort byNewest (JsMap.values m)).

(** The survivors of de-duplication, in the order of the map. *)
Definition survivors (all : list NewsItem) : list NewsItem :=
  JsMap.values (dedup all).

(** The time an item is ranked by: that of [new Date(it.pubDate || 0)],
    and 0 where that date is invalid. *)
Definition timeOf (it : NewsItem) : Z :=
  match newDate (pubDate it) with
  | Some t => t
  | None => 0%Z
  end.

Definition validDate (it : NewsItem) : Prop :=
  newDate (pubDate it) <> None.

(** The order of the specification's wording: [y] has a later [pubDate]
    than [x], a missing [pubDate] being the earliest possible date. *)
Definition statedLater (x y : NewsItem) : Prop :=
  truthy (pubDate y) = true /\
  match Date_parse (orEmpty (pubDate y)) with
  | None => False
  | Some ty =>
      if truthy (pubDate x)
      then match Date_parse (orEmpty (pubDate x)) with
           | Some tx => (tx < ty)%Z
           | None => False
           end
      else True
  end.

(** The specification's wording on ranking: nothing with a [pubDate]
    comes after an item without one. *)
Definition missingSortLast (out : list NewsItem) : Prop :=
  forall pre x post y,
    out = (pre ++ x :: post)%list -> In y post ->
    truthy (pubDate x) = false -> truthy (pubDate y) = false.

(** The distinct keys of a list, each at the place where it is first
    seen. *)
Definition firstSeen (ks : list string) : list string :=
  fold_left (fun acc k => if existsb (String.eqb k) acc then acc
                          else (acc ++ [k])%list) ks [].

Definition newsPath : string := "public/data/news.json".

(** [main], over any list of sources; the [updatedAt] stamp of the
    artifact is left out. *)
Definition run (srcs : list Source) (w : World) : list Event * World :=
  let '(all, warned, w') := collect srcs w in
  let items := rank (dedup all) in
  ((warned ++ [WriteFile newsPath items; LogWrote (List.length items)])%list, w').

Definition main (w : World) : list Event * World := run SOURCES w.

End Pipeline.

End FetchNews.

(** ** scripts/analyse-news.mjs: place inference and issue extraction *)

Module AnalyseNews.
Import Js RegExp Data.

Definition DOMAIN_TO_PLACE : list (string * string) :=
  [
    ("theboltonnews.co.uk", "Bolton");
    ("wigantoday.net", "Wigan");
    ("manchestereveningnews.co.uk", "Manchester");
    ("liverpoolecho.co.uk", "Liverpool");
    ("yorkshirepost.co.uk", "Yorkshire");
    ("edinburghnews.scotsman.com", "Edinburgh");
    ("glasgowtimes.co.uk", "Glasgow");
    ("birminghammail.co.uk", "Birmingham");
    ("bristolpost.co.uk", "Bristol");
    ("leeds-live.co.uk", "Leeds");
    ("lancs.live", "Lancashire");
    ("nottinghampost.com", "Nottingham");
    ("leicestermercury.co.uk", "Leicester");
    ("cambridge-news.co.uk", "Cambridge");
    ("oxfordmail.co.uk", "Oxford");
    ("kentonline.co.uk", "Kent");
    ("somersetlive.co.uk", "Somerset");
    ("devonlive.com", "Devon");
    ("cornwalllive.com", "Cornwall");
    ("northamptonchron.co.uk", "Northampton");
    ("edinburghlive.co.uk", "Edinburgh");
    ("birminghammail.co.uk", "Birmingham");
    ("eveningnews24.co.uk", "Norwich");
    ("derbytelegraph.co.uk", "Derby");
    ("stokesentinel.co.uk", "Stoke-on-Trent");
    ("coventrytelegraph.net", "Coventry");
    ("belfasttelegraph.co.uk", "Belfast");
    ("walesonline.co.uk", "Wales");
    ("pressandjournal.co.uk", "Aberdeen")
  ].

Definition SOURCE_TO_PLACE : list (string * string) :=
  [
    ("The Bolton News", "Bolton");
    ("Wigan Today", "Wigan");
    ("Manchester Evening News", "Manchester");
    ("Liverpool Echo", "Liverpool");
    ("Yorkshire Post", "Yorkshire");
    ("Edinburgh Evening News", "Edinburgh");
    ("Glasgow Times", "Glasgow");
    ("Birmingham Mail", "Birmingham");
    ("Bristol Post", "Bristol");
    ("Leeds Live", "Leeds");
    ("Lancs Live", "Lancashire");
    ("Nottingham Post", "Nottingham");
    ("Leicester Mercury", "Leicester");
    ("Cambridge News", "Cambridge");
    ("Oxford Mail", "Oxford");
    ("Somerset Live", "Somerset");
    ("Devon Live", "Devon");
    ("Cornwall Live", "Cornwall");
    ("Northampton Chronicle", "Northampton");
    ("Edinburgh Live", "Edinburgh");
    ("Coventry Telegraph", "Coventry");
    ("WalesOnline", "Wales");
    ("Press and Journal", "Aberdeen")
  ].

Definition PLACES : list string :=
  [
    "Bolton"; "Wigan"; "Manchester"; "Salford"; "Bury"; "Rochdale"; "Oldham"; "Tameside";
    "Stockport"; "Trafford"; "Liverpool"; "Sefton"; "Wirral"; "Knowsley"; "St Helens"; "Halton";
    "Leeds"; "Bradford"; "Kirklees"; "Calderdale"; "Wakefield"; "Birmingham"; "Solihull"; "Sandwell";
    "Walsall"; "Dudley"; "Wolverhampton"; "Bristol"; "Bath"; "Somerset"; "Gloucestershire"; "Sheffield";
    "Rotherham"; "Barnsley"; "Doncaster"; "Nottingham"; "Leicester"; "Cambridge"; "Oxford"; "Coventry";
    "Derby"; "Stoke-on-Trent"; "Northampton"; "Newcastle"; "Gateshead"; "Sunderland"; "North Tyneside"; "South Tyneside";
    "Lancashire"; "Yorkshire"; "Norwich"; "London"; "Westminster"; "Camden"; "Islington"; "Hackney";
    "Tower Hamlets"; "Newham"; "Barking"; "Dagenham"; "Croydon"; "Lambeth"; "Southwark"; "Lewisham";
    "Greenwich"; "Haringey"; "Enfield"; "Ealing"; "Hounslow"; "Edinburgh"; "Glasgow"; "Aberdeen";
    "Dundee"; "Cardiff"; "Swansea"; "Newport"; "Wrexham"; "Flintshire"; "Wales"; "Belfast";
    "Derry"; "Lisburn"; "Newry"; "Northern Ireland"
  ].

Definition STOP : list string :=
  [
    "the"; "a"; "an"; "and"; "or"; "of"; "to"; "for"; "in"; "on";
    "at"; "by"; "from"; "with"; "about"; "after"; "over"; "into"; "uk"; "britain";
    "british"; "england"; "scotland"; "wales"; "northern"; "ireland"; "today"; "new"; "plan"; "plans";
    "says"; "amid"; "as"; "vs"; "pm"; "mp"; "mps"; "council"; "councils"
  ].

(** What ends up in the set of places of an item: a place name, or, as
    the two tables are plain objects, a member of [Object.prototype] found
    under the looked-up key. *)
Inductive place : Type :=
| Named (s : string)
| Inherited (prop : string).

Definition place_eqb (a b : place) : bool :=
  match a, b with
  | Named x, Named y => String.eqb x y
  | Inherited x, Inherited y => String.eqb x y
  | _, _ => false
  end.

Definition objectPrototype : list string :=
  [ "constructor"; "__defineGetter__"; "__defineSetter__"; "hasOwnProperty";
    "__lookupGetter__"; "__lookupSetter__"; "isPrototypeOf";
    "propertyIsEnumerable"; "toString"; "valueOf"; "__proto__";
    "toLocaleString" ].

(** An own property of an object literal: the last entry written under
    the key. *)
Fixpoint ownProperty (tbl : list (string * string)) (key : string)
  : option string :=
  match tbl with
  | [] => None
  | (k, v) :: r =>
      match ownProperty r key with
      | Some v' => Some v'
      | None => if String.eqb k key then Some v else None
      end
  end.

(** [tbl[key]] *)
Definition objGet (tbl : list (string * string)) (key : string)
  : option place :=
  match ownProperty tbl key with
  | Some v => Some (Named v)
  | None =>
      if existsb (String.eqb key) objectPrototype
      then Some (Inherited key) else None
  end.

Definition placeTruthy (v : option place) : bool :=
  match v with
  | Some (Named s) => negb (String.eqb s "")
  | Some (Inherited _) => true
  | None => false
  end.

(** [a.add(x)] on a [Set] kept in insertion order. *)
Definition setAdd (a : list place) (x : place) : list place :=
  if existsb (place_eqb x) a then a else (a ++ [x])%list.

(** [.replace(/https?:\/\/\S+/g, " ")].  A match starts at [http://] or
    [https://] followed by a character that is not white space, and runs
    to the next white space; [inUrl] tells that we are inside one. *)
Definition startsUrl (s : string) : bool :=
  let nonSpaceNext (o : option string) :=
    match o with
    | Some (String c _) => negb (isWhiteSpace c)
    | _ => false
    end in
  nonSpaceNext (stripPrefix "https://" s) || nonSpaceNext (stripPrefix "http://" s).

Fixpoint stripUrlsFrom (inUrl : bool) (s : string) : string :=
  match s with
  | EmptyString => EmptyString
  | String c r =>
      if inUrl
      then (if isWhiteSpace c then String c (stripUrlsFrom false r)
            else stripUrlsFrom true r)
      else (if startsUrl s then String " " (stripUrlsFrom true r)
            else String c (stripUrlsFrom false r))
  end.

Definition stripUrls (s : string) : string := stripUrlsFrom false s.

(** [.replace(/[^a-z0-9\s\-]/g, " ")] *)
Definition keepPlain (s : string) : string :=
  smap (fun c =>
          if isAsciiLower c || isDigit c || isWhiteSpace c || Ascii.eqb c "-"
          then c else " "%char) s.

(** [.split(/\s+/)]: the pieces between the maximal runs of white space,
    empty pieces at both ends included. *)
Fixpoint splitWhiteSpace (s : string) : list string :=
  match s with
  | EmptyString => [EmptyString]
  | String c r =>
      if isWhiteSpace c
      then match hd_char r with
           | Some d => if isWhiteSpace d then splitWhiteSpace r
                       else EmptyString :: splitWhiteSpace r
           | None => EmptyString :: splitWhiteSpace r
           end
      else match splitWhiteSpace r with
           | [] => [String c EmptyString]
           | t :: ts => String c t :: ts
           end
  end.

Definition nonEmpty (s : string) : bool := negb (String.eqb s "").

Definition tokens (s : string) : list string :=
  filter nonEmpty (splitWhiteSpace (keepPlain (stripUrls (toLowerCase s)))).

(** The characters a token is made of: lower-case letters, digits and
    the hyphen. *)
Definition tokenChar (c : ascii) : bool :=
  isAsciiLower c || isDigit c || Ascii.eqb c "-".

(** [/^\d+$/.test(w)] *)
Definition allDigits (w : string) : bool := nonEmpty w && sforall isDigit w.

Definition isContent (w : string) : bool :=
  Nat.ltb 2 (String.length w) && negb (existsb (String.eqb w) STOP) && negb (allDigits w).

(** A frequency table: [m.set(k, (m.get(k) || 0) + v)]. *)
Definition Counts : Type := JsMap.t (K:=string) (V:=nat).

(** [m.get(k) || 0] *)
Definition countOf (m : Counts) (k : string) : nat :=
  match JsMap.get String.eqb k m with
  | Some n => n
  | None => 0
  end.

Definition bump (m : Counts) (kv : string * nat) : Counts :=
  let '(k, v) := kv in
  JsMap.set String.eqb k (countOf m k + v) m.

Definition tally (ws : list string) : Counts :=
  fold_left (fun m w => bump m (w, 1)) ws JsMap.empty.

(** The keys [`${t[i]} ${t[i+1]}`] for [i] from 0 to [t.length - 2]. *)
Fixpoint adjacentPairs (t : list string) : list string :=
  match t with
  | a :: (b :: _) as r => (a ++ " " ++ b) :: adjacentPairs r
  | _ => []
  end.

(** The filtered token sequence of an item. *)
Definition contentTokens (title summary : jsval) : list string :=
  filter isContent (tokens (toTemplate title ++ " " ++ toTemplate summary)).

Definition phrases (title summary : jsval) : Counts * Counts :=
  let t := contentTokens title summary in
  (tally t, tally (adjacentPairs t)).

Definition placeFromText (s : string) : list string :=
  filter (fun p => test (wholeWord p) s) PLACES.

Definition byCount (a b : string * nat) : Z :=
  (Z.of_nat (snd b) - Z.of_nat (snd a))%Z.

Definition topN (m : Counts) (n : nat) : list (string * nat) :=
  JsArray.slice0 n (JsArray.sort byCount m).

(** [.replace(/^www\./, "")] *)
Definition stripWww (h : string) : string :=
  match stripPrefix "www." h with
  | Some r => r
  | None => h
  end.

Record Example : Type := mkExample {
  ex_title : jsval;
  ex_link : jsval;
  ex_source : jsval;
  ex_pubDate : jsval
}.

Record Bucket : Type := mkBucket {
  b_items : JsMap.t (K:=jsval) (V:=Example);
  b_uni : Counts;
  b_bi : Counts
}.

Record Area : Type := mkArea {
  area_place : place;
  sampleCount : nat;
  issues : list string;
  keywords : list string;
  examples : list Example
}.

Definition Buckets : Type := JsMap.t (K:=place) (V:=Bucket).

Definition emptyBucket : Bucket := mkBucket JsMap.empty JsMap.empty JsMap.empty.

(** [it.link || it.title] *)
Definition itemKey (it : NewsItem) : jsval := jsor (link it) (title it).

Definition exampleOf (it : NewsItem) : Example :=
  mkExample (title it) (link it) (source it) (pubDate it).

(** The examples filed under a place, none when it has no bucket. *)
Definition itemsAt (p : place) (bs : Buckets) : list (jsval * Example) :=
  match JsMap.get place_eqb p bs with
  | Some b => b_items b
  | None => []
  end.

(** A table of the bucket of a place ([b_uni] or [b_bi]), empty when the
    place has no bucket. *)
Definition tableAt (proj : Bucket -> Counts) (p : place) (bs : Buckets)
  : Counts :=
  match JsMap.get place_eqb p bs with
  | Some b => proj b
  | None => []
  end.

(** The number of times a word stands in a list. *)
Definition occurrences (k : string) (ws : list string) : nat :=
  count_occ string_dec ws k.

(** Every table of every bucket has one entry per key. *)
Definition WellKeyed (bs : Buckets) : Prop :=
  forall p b, In (p, b) bs ->
    NoDup (JsMap.keys (b_uni b)) /\ NoDup (JsMap.keys (b_bi b)).

(** What merging the table [tbl] of an item adds to the count of [k]. *)
Definition gain (tbl : Counts) (k : string) : nat :=
  list_sum (map snd (filter (fun kv => String.eqb (fst kv) k) tbl)).

(** [sampleCount] as a number, for comparisons. *)
Definition volume (a : Area) : Z := Z.of_nat (sampleCount a).

(** The key an example is filed under. *)
Definition exampleKey (ex : Example) : jsval := jsor (ex_link ex) (ex_title ex).

(** [if (!b.items.has(key)) b.items.set(key, {...})] *)
Definition addExample (m : JsMap.t (K:=jsval) (V:=Example)) (it : NewsItem)
  : JsMap.t :=
  if JsMap.has jsval_eqb (itemKey it) m then m
  else JsMap.set jsval_eqb (itemKey it) (exampleOf it) m.

(** The items of a list filed by key, the first of each key kept. *)
Definition firstByKey (l : list NewsItem) : JsMap.t (K:=jsval) (V:=Example) :=
  fold_left addExample l JsMap.empty.

Section Analysis.

(** [new URL(url).hostname], or what the constructor throws. *)
Variable URL_hostname : string -> JsError + string.

(** The [try] body and its [catch]. *)
Definition hostnameOf (url : string) : string :=
  match URL_hostname url with
  | inr h => toLowerCase (stripWww h)
  | inl _ => ""
  end.

(** [if (key && tbl[key]) a.add(tbl[key])] *)
Definition addLookup (tbl : list (string * string)) (key : string)
  (a : list place) : list place :=
  if nonEmpty key && placeTruthy (objGet tbl key)
  then match objGet tbl key with
       | Some v => setAdd a v
       | None => a
       end
  else a.

(** [for (const p of placeFromText(s)) a.add(p)] *)
Definition addFromText (s : string) (a : list place) : list place :=
  fold_left setAdd (map Named (placeFromText s)) a.

Definition itemText (it : NewsItem) : string :=
  orEmpty (title it) ++ " " ++ orEmpty (summary it).

(** The four steps of [inferPlaces] after the host name is known. *)
Definition inferPlacesWith (host : string) (it : NewsItem) : list place :=
  let a := addFromText (itemText it) [] in
  let a := addLookup DOMAIN_TO_PLACE host a in
  let src := trim (orEmpty (source it)) in
  let a := addLookup SOURCE_TO_PLACE src a in
  if nonEmpty src then addFromText src a else a.

Definition inferPlaces (it : NewsItem) : list place :=
  inferPlacesWith (hostnameOf (orEmpty (link it))) it.

(** The body of the loop over the places of one item. *)
Definition addToBucket (it : NewsItem) (uni bi : Counts) (bs : Buckets)
  (p : place) : Buckets :=
  let b := match JsMap.get place_eqb p bs with
           | Some b => b
           | None => emptyBucket
           end in
  JsMap.set place_eqb p
    (mkBucket (addExample (b_items b) it)
              (fold_left bump uni (b_uni b)) (fold_left bump bi (b_bi b)))
    bs.

(** The body of the loop over the items. *)
Definition addItem (bs : Buckets) (it : NewsItem) : Buckets :=
  match inferPlaces it with
  | [] => bs
  | places =>
      let '(uni, bi) := phrases (title it) (summary it) in
      fold_left (addToBucket it uni bi) places bs
  end.

Definition buildBuckets (items : list NewsItem) : Buckets :=
  fold_left addItem items JsMap.empty.

Definition areaOf (pb : place * Bucket) : Area :=
  let '(p, b) := pb in
  let issues := map fst (topN (b_bi b) 10) in
  let singles :=
    filter (fun w => negb (existsb (fun i => includes i w) issues))
           (map fst (topN (b_uni b) 10)) in
  let examples := JsArray.slice0 8 (JsMap.values (b_items b)) in
  mkArea p (JsMap.size (b_items b)) issues singles examples.

Definition bySampleCount (a b : Area) : Z :=
  (Z.of_nat (sampleCount b) - Z.of_nat (sampleCount a))%Z.

(** The [areas] that [main] writes to [mood.json], from the [items] of
    [news.json]. *)
Definition areas (items : list NewsItem) : list Area :=
  JsArray.sort bySampleCount (map areaOf (buildBuckets items)).

(** The items of a list that are mapped to a place, in their order. *)
Definition itemsOfPlace (p : place) (items : list NewsItem) : list NewsItem :=
  filter (fun x => existsb (place_eqb p) (inferPlaces x)) items.

End Analysis.

End AnalyseNews.

(** ** The earlier analysis script (places from the text alone) *)

Module EarlierAnalysis.
Import Js RegExp Data AnalyseNews.

Definition PLACES : list string :=
  [
    "Bolton"; "Wigan"; "Manchester"; "Salford"; "Bury"; "Rochdale"; "Oldham"; "Tameside";
    "Stockport"; "Trafford"; "Liverpool"; "Sefton"; "Wirral"; "Knowsley"; "St Helens"; "Halton";
    "Leeds"; "Bradford"; "Kirklees"; "Calderdale"; "Wakefield"; "Birmingham"; "Solihull"; "Sandwell";
    "Walsall"; "Dudley"; "Wolverhampton"; "Bristol"; "Bath"; "Somerset"; "Gloucestershire"; "Sheffield";
    "Rotherham"; "Barnsley"; "Doncaster"; "Newcastle"; "Gateshead"; "Sunderland"; "North Tyneside"; "South Tyneside";
    "London"; "Westminster"; "Camden"; "Islington"; "Hackney"; "Tower Hamlets"; "Newham"; "Barking";
    "Dagenham"; "Croydon"; "Lambeth"; "Southwark"; "Lewisham"; "Greenwich"; "Haringey"; "Enfield";
    "Ealing"; "Hounslow"; "Edinburgh"; "Glasgow"; "Aberdeen"; "Dundee"; "Cardiff"; "Swansea";
    "Newport"; "Wrexham"; "Flintshire"; "Belfast"; "Derry"; "Lisburn"; "Newry"
  ].

Definition findPlaces (s : string) : list string :=
  filter (fun p => test (wholeWord p) s) PLACES.

(** [`${it.title} ${it.summary}`] *)
Definition textOf (it : NewsItem) : string :=
  toTemplate (title it) ++ " " ++ toTemplate (summary it).

Record Bucket : Type := mkBucket {
  b_items : list NewsItem;
  b_uni : Counts;
  b_bi : Counts
}.

Record Area : Type := mkArea {
  area_place : string;
  sampleCount : nat;
  issues : list string;
  keywords : list string;
  examples : list Example
}.

Definition Buckets : Type := JsMap.t (K:=string) (V:=Bucket).

Definition emptyBucket : Bucket := mkBucket [] JsMap.empty JsMap.empty.

(** The body of the loop over the places of one item; [b.items.push(it)]
    puts the item last. *)
Definition addToBucket (it : NewsItem) (uni bi : Counts) (bs : Buckets)
  (p : string) : Buckets :=
  let b := match JsMap.get String.eqb p bs with
           | Some b => b
           | None => emptyBucket
           end in
  JsMap.set String.eqb p
    (mkBucket (b_items b ++ [it])
              (fold_left bump uni (b_uni b)) (fold_left bump bi (b_bi b)))
    bs.

Definition addItem (bs : Buckets) (it : NewsItem) : Buckets :=
  match findPlaces (textOf it) with
  | [] => bs
  | places =>
      let '(uni, bi) := phrases (title it) (summary it) in
      fold_left (addToBucket it uni bi) places bs
  end.

Definition buildBuckets (items : list NewsItem) : Buckets :=
  fold_left addItem items JsMap.empty.

Definition areaOf (pb : string * Bucket) : Area :=
  let '(p, b) := pb in
  let issues := map fst (topN (b_bi b) 10) in
  let singles :=
    filter (fun w => negb (existsb (fun i => includes i w) issues))
           (map fst (topN (b_uni b) 10)) in
  let examples := map exampleOf (JsArray.slice0 8 (b_items b)) in
  mkArea p (List.length (b_items b)) issues singles examples.

Definition bySampleCount (a b : Area) : Z :=
  (Z.of_nat (sampleCount b) - Z.of_nat (sampleCount a))%Z.

Definition areas (items : list NewsItem) : list Area :=
  JsArray.sort bySampleCount (map areaOf (buildBuckets items)).


(** The items of the bucket of a place, none when it has no bucket. *)
Definition itemsAt (p : string) (bs : Buckets) : list NewsItem :=
  match JsMap.get String.eqb p bs with
  | Some b => b_items b
  | None => []
  end.

End EarlierAnalysis.

(** ** src/App.jsx: what the display layer computes *)

Module Display.
Import Js AnalyseNews.

Definition dquote : ascii := ascii_of_N 34.
Definition newline : ascii := ascii_of_N 10.

(** [String(v).replaceAll(q, q + q)] on a string, [q] being the double
    quote. *)
Fixpoint doubleQuotes (s : string) : string :=
  match s with
  | EmptyString => EmptyString
  | String c r =>
      if Ascii.eqb c dquote then String dquote (String dquote (doubleQuotes r))
      else String c (doubleQuotes r)
  end.

(** The characters of the class that is tested: double quote, comma and
    line feed. *)
Definition isCsvSpecial (c : ascii) : bool :=
  Ascii.eqb c dquote || Ascii.eqb c "," || Ascii.eqb c newline.

(** The test of that class on [s]. *)
Fixpoint hasCsvSpecial (s : string) : bool :=
  match s with
  | EmptyString => false
  | String c r => isCsvSpecial c || hasCsvSpecial r
  end.

(** The [escape] of [downloadCSV]. *)
Definition escape (v : jsval) : string :=
  match v with
  | str x =>
      let s := doubleQuotes x in
      if hasCsvSpecial s then String dquote (s ++ String dquote EmptyString) else s
  | _ => ""
  end.

(** The number of double quotes of a text. *)
Fixpoint countQuotes (s : string) : nat :=
  match s with
  | EmptyString => 0
  | String c r => (if Ascii.eqb c dquote then 1 else 0) + countQuotes r
  end.

(** An area as [InsightsPanel] reads it from [mood.json]. *)
Record MoodArea : Type := mkMoodArea {
  m_place : jsval;
  m_sampleCount : nat;
  m_issues : list string
}.

(** [new Set(a.issues || [])], in insertion order. *)
Definition setOf (l : list string) : list string :=
  fold_left (fun acc x => if existsb (String.eqb x) acc then acc
                          else (acc ++ [x])%list) l [].

(** The table [allIssues]: for each issue, in how many areas it appears. *)
Definition countIssues (areas : list MoodArea) : Counts :=
  fold_left (fun m a => fold_left (fun m i => bump m (i, 1)) (setOf (m_issues a)) m)
            areas JsMap.empty.

(** [topIssues], as pairs of an issue and its number of places. *)
Definition topIssues (areas : list MoodArea) : list (string * nat) :=
  JsArray.slice0 12 (JsArray.sort byCount (countIssues areas)).

(** The areas that list an issue. *)
Definition areasListing (i : string) (areas : list MoodArea) : list MoodArea :=
  filter (fun a => existsb (String.eqb i) (m_issues a)) areas.

End Display.

(** ** analyse-news: [inferPlaces] on any record read from JSON *)

Module AnyRecord.
Import Js RegExp AnalyseNews.

(** The values [JSON.parse] can put in a field, and [undefined] for a
    field that is absent; a number is a sign, a mantissa and a binary
    exponent, a zero, an infinity or NaN. *)
#[warnings="-register-all"] Inductive jsany : Type :=
| AUndefined
| ANull
| ABoolean (b : bool)
| ANumber (x : spec_float)
| AString (s : string)
| AArray (elements : list jsany)
| AObject (members : list (string * jsany)).

(** The truth value of a value: [undefined], [null], [false], the two
    zeros, NaN and the empty string are falsy, anything else is truthy. *)
Definition ToBoolean (v : jsany) : bool :=
  match v with
  | AUndefined | ANull => false
  | ABoolean b => b
  | ANumber (S754_zero _) | ANumber S754_nan => false
  | ANumber _ => true
  | AString s => negb (String.eqb s "")
  | AArray _ | AObject _ => true
  end.

(** [v || ""] *)
Definition orEmptyString (v : jsany) : jsany :=
  if ToBoolean v then v else AString "".

(** An item of [news.json] with any value in its fields. *)
Record Item : Type := mkItem {
  title : jsany;
  link : jsany;
  pubDate : jsany;
  source : jsany;
  summary : jsany
}.

(** [v.trim()].  A string has the method.  A boolean, a number, an array
    and an object read from JSON have no callable [trim]: the call is a
    TypeError, as is reading the property of [undefined] or [null]. *)
Definition trimError : JsError :=
  mkError "TypeError"
    ("(it.source || " ++ String Display.dquote (String Display.dquote "")
       ++ ").trim is not a function").

Definition callTrim (v : jsany) : JsError + string :=
  match v with
  | AString s => inr (trim s)
  | _ => inl trimError
  end.

Section Any.

(** [new URL(url).hostname], or what the constructor throws. *)
Variable URL_hostname : string -> JsError + string.

(** The conversion to a string of a value that is not one (number
    formatting, the join of an array, the conversion of an object to a
    primitive), or what it throws. *)
Variable ToString : jsany -> JsError + string.

(** The conversion to a string that a template literal and the URL
    constructor apply to their argument. *)
Definition toStr (v : jsany) : JsError + string :=
  match v with
  | AString s => inr s
  | _ => ToString v
  end.

(** [hostnameOf]: the conversion of the argument happens inside the
    constructor, hence inside the [try]. *)
Definition hostnameOf (url : jsany) : string :=
  match toStr url with
  | inr s => AnalyseNews.hostnameOf URL_hostname s
  | inl _ => ""
  end.

(** [inferPlaces], with what it throws. *)
Definition inferPlaces (it : Item) : JsError + list place :=
  match toStr (orEmptyString (title it)) with
  | inl e => inl e
  | inr t =>
      match toStr (orEmptyString (summary it)) with
      | inl e => inl e
      | inr s =>
          let text := t ++ " " ++ s in
          let a := addFromText text [] in
          let host := hostnameOf (orEmptyString (link it)) in
          let a := addLookup DOMAIN_TO_PLACE host a in
          match callTrim (orEmptyString (source it)) with
          | inl e => inl e
          | inr src =>
              let a := addLookup SOURCE_TO_PLACE src a in
              inr (if nonEmpty src then addFromText src a else a)
          end
      end
  end.

(** A field whose value, or the empty string in place of a falsy value,
    converts to a string. *)
Definition Converts (v : jsany) : Prop :=
  exists s, toStr (orEmptyString v) = inr s.

End Any.

(** A field that holds a string or a falsy value. *)
Definition TextOrFalsy (v : jsany) : Prop :=
  ToBoolean v = false \/ exists s, v = AString s.

(** The specification's wording: no item record makes [inferPlaces]
    raise an error. *)
Definition statedTotal (URL_hostname : string -> JsError + string)
  (ToString : jsany -> JsError + string) : Prop :=
  forall it : Item, exists ps, inferPlaces URL_hostname ToString it = inr ps.

(** A field and an item as the ingestion stage writes them, among all
    records. *)
Definition ofVal (v : jsval) : jsany :=
  match v with
  | undefined => AUndefined
  | null => ANull
  | str s => AString s
  end.

Definition ofItem (it : Data.NewsItem) : Item :=
  mkItem (ofVal (Data.title it)) (ofVal (Data.link it))
         (ofVal (Data.pubDate it)) (ofVal (Data.source it))
         (ofVal (Data.summary it)).

End AnyRecord.

(** ** Concrete hosts for the examples *)

Module Host.
Import Js Data FetchNews.

Definition digitVal (c : ascii) : option Z :=
  if isDigit c then Some (Z.of_N (code c) - 48)%Z else None.

(** Read exactly [n] decimal digits. *)
Fixpoint readDigits (n : nat) (acc : Z) (s : string) : option (Z * string) :=
  match n with
  | O => Some (acc, s)
  | S n' =>
      match s with
      | EmptyString => None
      | String c r =>
          match digitVal c with
          | Some d => readDigits n' (10 * acc + d)%Z r
          | None => None
          end
      end
  end.

Definition expect (c : ascii) (s : string) : option string :=
  match s with
  | String d r => if Ascii.eqb c d then Some r else None
  | EmptyString => None
  end.

Definition isLeap (y : Z) : bool :=
  ((y mod 4 =? 0) && (negb (y mod 100 =? 0) || (y mod 400 =? 0)))%Z.

Definition daysInMonth (y m : Z) : Z :=
  if (m =? 2)%Z then (if isLeap y then 29 else 28)%Z
  else if ((m =? 4) || (m =? 6) || (m =? 9) || (m =? 11))%Z then 30%Z
  else 31%Z.

(** Days from 1970-01-01 to the given day of the proleptic Gregorian
    calendar. *)
Definition daysFromCivil (y m d : Z) : Z :=
  let y' := (if m <=? 2 then y - 1 else y)%Z in
  let era := (y' / 400)%Z in
  let yoe := (y' - era * 400)%Z in
  let mp := ((m + 9) mod 12)%Z in
  let doy := ((153 * mp + 2) / 5 + d - 1)%Z in
  let doe := (yoe * 365 + yoe / 4 - yoe / 100 + doy)%Z in
  (era * 146097 + doe - 719468)%Z.

(** [Date.parse] on the strings [Date.prototype.toISOString] produces for
    the years 0000 to 9999, [YYYY-MM-DDTHH:mm:ss.sssZ]; this is the form of
    the [isoDate] of a feed entry.  Any other string is rejected here. *)
Definition isoParse (s : string) : option Z :=
  match readDigits 4 0 s with
  | Some (y, s) =>
  match expect "-" s with Some s =>
  match readDigits 2 0 s with Some (mo, s) =>
  match expect "-" s with Some s =>
  match readDigits 2 0 s with Some (d, s) =>
  match expect "T" s with Some s =>
  match readDigits 2 0 s with Some (h, s) =>
  match expect ":" s with Some s =>
  match readDigits 2 0 s with Some (mi, s) =>
  match expect ":" s with Some s =>
  match readDigits 2 0 s with Some (sec, s) =>
  match expect "." s with Some s =>
  match readDigits 3 0 s with Some (ms, s) =>
    if String.eqb s "Z"
       && ((1 <=? mo) && (mo <=? 12) && (1 <=? d) && (d <=? daysInMonth y mo)
           && (h <=? 23) && (mi <=? 59) && (sec <=? 59))%Z
    then Some ((((daysFromCivil y mo d * 24 + h) * 60 + mi) * 60 + sec) * 1000 + ms)%Z
    else None
  | None => None end | None => None end | None => None end | None => None end
  | None => None end | None => None end | None => None end | None => None end
  | None => None end | None => None end | None => None end | None => None end
  | None => None
  end.

Definition isHostChar (c : ascii) : bool :=
  isAsciiLower c || isAsciiUpper c || isDigit c || Ascii.eqb c "-" || Ascii.eqb c ".".

Fixpoint takeHost (s : string) : string :=
  match s with
  | EmptyString => EmptyString
  | String c r => if isHostChar c then String c (takeHost r) else EmptyString
  end.

Fixpoint dropHost (s : string) : string :=
  match s with
  | EmptyString => EmptyString
  | String c r => if isHostChar c then dropHost r else s
  end.

(** [new URL(url).hostname] on the plain absolute URLs
    [http(s)://host], [http(s)://host/...], [http(s)://host?...] and
    [http(s)://host#...] with a host of letters, digits, hyphens and
    dots: the host in lower case.  A string without a scheme, the empty
    one among them, makes the constructor throw.  Any other string is
    rejected here. *)
Definition plainHostname (url : string) : JsError + string :=
  let after (o : option string) :=
    match o with
    | Some r =>
        let h := takeHost r in
        let rest := dropHost r in
        if negb (String.eqb h "")
           && match hd_char rest with
              | None => true
              | Some c => Ascii.eqb c "/" || Ascii.eqb c "?" || Ascii.eqb c "#"
              end
        then Some (toLowerCase h) else None
    | None => None
    end in
  match after (stripPrefix "https://" url) with
  | Some h => inr h
  | None =>
      match after (stripPrefix "http://" url) with
      | Some h => inr h
      | None => inl (mkError "TypeError" "Invalid URL")
      end
  end.

(** A network given by a table: a listed URL answers as the table says,
    any other fails; the world is the list of the URLs requested so far,
    latest first. *)
Definition Requests : Type := list string.

Fixpoint answerOf (tbl : list (string * (JsError + Feed))) (url : string)
  : JsError + Feed :=
  match tbl with
  | [] => inl (mkError "Error" ("getaddrinfo ENOTFOUND " ++ url))
  | (u, r) :: rest => if String.eqb u url then r else answerOf rest url
  end.

Definition tableNet (tbl : list (string * (JsError + Feed))) (url : string)
  (w : Requests) : (JsError + Feed) * Requests :=
  (answerOf tbl url, url :: w).

Definition noDelay (ms : Z) (w : Requests) : Requests := w.

(** Two headlines of the specification. *)
Definition councilHeadline : string :=
  "Council announces new transfer window for housing".


(** Items for the examples. *)
Definition budgetVote (link date : jsval) : NewsItem :=
  mkItem (str "Budget vote") link date (str "Example Feed") (str "").

Definition undatedItem : NewsItem :=
  budgetVote (str "https://example.org/a") null.

Definition ancientItem : NewsItem :=
  budgetVote (str "https://example.org/b") (str "0001-01-01T00:00:00.000Z").

(** An item of another title, without [pubDate]. *)
Definition railItem : NewsItem :=
  mkItem (str "Rail fares to rise") (str "https://example.org/e") null
         (str "Example Feed") (str "").

(** A duplicate whose [pubDate] no host parses. *)
Definition garbledVote : NewsItem :=
  budgetVote (str "https://example.org/f") (str "not a date").

(** Three items of three titles, the middle one with such a date. *)
Definition story (headline : string) (date : jsval) : NewsItem :=
  mkItem (str headline) (str "https://example.org/story") date
         (str "Example Feed") (str "").

Definition threeStories : list NewsItem :=
  [ story "Housing bill passes" (str "2024-01-01T09:00:00.000Z");
    story "Schools budget cut" (str "not a date");
    story "NHS waiting lists grow" (str "2024-01-02T09:00:00.000Z") ].

Definition mondayItem : NewsItem :=
  budgetVote (str "https://example.org/c") (str "2024-01-01T09:00:00.000Z").

Definition tuesdayItem : NewsItem :=
  budgetVote (str "https://example.org/d") (str "2024-01-02T09:00:00.000Z").

(** A source with three candidates: the first throws, the second
    answers with one entry, the third would answer too. *)
Definition rawEntry (title date : string) : RawEntry :=
  mkRaw (str title) (str "https://example.org/story") (str date) undefined
        (str "  Councillors   debate the plan ") undefined.

Definition threeMirrors : Source :=
  mkSource "Example Feed"
    ["https://a.example/rss"; "https://b.example/rss"; "https://c.example/rss"].

Definition mirrorNet : list (string * (JsError + Feed)) :=
  [ ("https://a.example/rss", inl (mkError "Error" "Status code 404"));
    ("https://b.example/rss",
     inr (mkFeed (str "Example B") [rawEntry "Budget vote" "2024-01-02T09:00:00.000Z"]));
    ("https://c.example/rss",
     inr (mkFeed (str "Example C") [rawEntry "Election called" "2024-01-03T09:00:00.000Z"])) ].

(** A source whose two candidates both fail: one throws, one is empty. *)
Definition deadSource : Source :=
  mkSource "Dead Feed" ["https://dead.example/rss"; "https://empty.example/rss"].

Definition deadNet : list (string * (JsError + Feed)) :=
  (("https://empty.example/rss", inr (mkFeed (str "Empty") [])) :: mirrorNet)%list.

(** Two items for the analysis examples. *)
Definition boltonHousing : NewsItem :=
  mkItem (str "Bolton housing crisis deepens")
         (str "https://www.theboltonnews.co.uk/news/1")
         (str "2024-01-02T09:00:00.000Z") (str "The Bolton News")
         (str "Rents rise again").

Definition wiganBrief : NewsItem :=
  mkItem (str "Wigan") (str "not a link") null (str "The Bolton News") (str "").

(** Nine items naming both Bolton and Wigan, with nine links. *)
Definition twoTowns (n : string) : NewsItem :=
  mkItem (str ("Bolton and Wigan budget talks, day " ++ n))
         (str ("https://example.org/talks/" ++ n)) null
         (str "Example Feed") (str "").

Definition nineItems : list NewsItem :=
  map twoTowns ["1"; "2"; "3"; "4"; "5"; "6"; "7"; "8"; "9"].

(** The conversion to a string of [undefined], [null], the booleans, the
    strings, the empty array and the objects read from JSON: an object
    with a member [toString], which no JSON value makes callable, cannot
    be converted, any other is [[object Object]].  Numbers and arrays
    with elements are not converted here. *)
Definition plainToString (v : AnyRecord.jsany) : JsError + string :=
  match v with
  | AnyRecord.AUndefined => inr "undefined"
  | AnyRecord.ANull => inr "null"
  | AnyRecord.ABoolean true => inr "true"
  | AnyRecord.ABoolean false => inr "false"
  | AnyRecord.AString s => inr s
  | AnyRecord.AArray [] => inr ""
  | AnyRecord.AObject members =>
      if existsb (fun kv => String.eqb (fst kv) "toString") members
      then inl (mkError "TypeError" "Cannot convert object to primitive value")
      else inr "[object Object]"
  | _ => inl (mkError "TypeError" "not converted here")
  end.

(** The number 42: [5910974510923776 * 2^-47]. *)
Definition fortyTwo : spec_float := S754_finite false 5910974510923776 (-47).

(** A record whose [source] is a number. *)
Definition numberedSource : AnyRecord.Item :=
  AnyRecord.mkItem (AnyRecord.AString "Bolton housing crisis deepens")
    (AnyRecord.AString "https://www.theboltonnews.co.uk/news/1")
    (AnyRecord.AString "2024-01-02T09:00:00.000Z")
    (AnyRecord.ANumber fortyTwo)
    (AnyRecord.AString "Rents rise again").

(** The same record without its [link]. *)
Definition numberedSourceNoLink : AnyRecord.Item :=
  AnyRecord.mkItem (AnyRecord.title numberedSource) AnyRecord.AUndefined
    (AnyRecord.pubDate numberedSource) (AnyRecord.source numberedSource)
    (AnyRecord.summary numberedSource).

(** A record whose [title] is an object with a member [toString]. *)
Definition objectTitle : AnyRecord.Item :=
  AnyRecord.mkItem (AnyRecord.AObject [("toString", AnyRecord.ANull)])
    (AnyRecord.AString "not a link") AnyRecord.ANull
    (AnyRecord.AString "The Bolton News") (AnyRecord.AString "").

(** A record whose [link] is an array. *)
Definition arrayLink : AnyRecord.Item :=
  AnyRecord.mkItem (AnyRecord.AString "Wigan") (AnyRecord.AArray [])
    AnyRecord.ANull (AnyRecord.AString "The Bolton News")
    AnyRecord.AUndefined.

End Host.

(* ================================================================== *)
(** * Part II: properties *)
(* ================================================================== *)

(** ** Facts about insertion-ordered maps *)

Module JsMapFacts.
Import JsMap.
Section Facts.
Context {K V : Type}.
Variable eqb : K -> K -> bool.
Hypothesis eqb_eq : forall x y, eqb x y = true <-> x = y.

Lemma eqb_refl (k : K) : eqb k k = true.
Proof. now apply eqb_eq. Qed.

Lemma eqb_neq (x y : K) : x <> y -> eqb x y = false.
Proof.
  intros Hn. destruct (eqb x y) eqn:E; [|reflexivity].
  apply eqb_eq in E. contradiction.
Qed.

Lemma get_set_same (k : K) (v : V) (m : list (K * V)) :
  get eqb k (set eqb k v m) = Some v.
Proof.
  induction m as [|[k' v'] r IH]; simpl.
  - now rewrite eqb_refl.
  - destruct (eqb k' k) eqn:E; simpl.
    + now rewrite eqb_refl.
    + now rewrite E.
Qed.

Lemma get_set_other (k k' : K) (v : V) (m : list (K * V)) :
  k <> k' -> get eqb k' (set eqb k v m) = get eqb k' m.
Proof.
  intros Hn. induction m as [|[k0 v0] r IH]; simpl.
  - now rewrite (eqb_neq _ _ Hn).
  - destruct (eqb k0 k) eqn:E; simpl.
    + apply eqb_eq in E. subst k0. now rewrite (eqb_neq _ _ Hn).
    + now rewrite IH.
Qed.

Lemma get_in (k : K) (v : V) (m : list (K * V)) :
  get eqb k m = Some v -> In (k, v) m.
Proof.
  induction m as [|[k0 v0] r IH]; simpl; [discriminate|].
  destruct (eqb k0 k) eqn:E.
  - intros [= ->]. apply eqb_eq in E. subst. now left.
  - intros H. right. now apply IH.
Qed.

Lemma get_none (k : K) (m : list (K * V)) :
  get eqb k m = None -> ~ In k (keys m).
Proof.
  induction m as [|[k0 v0] r IH]; simpl; [tauto|].
  destruct (eqb k0 k) eqn:E; [discriminate|].
  intros H [Hk|Hk].
  - subst. rewrite eqb_refl in E. discriminate.
  - now apply IH.
Qed.

Lemma in_keys_get (k : K) (m : list (K * V)) :
  In k (keys m) -> exists v, get eqb k m = Some v.
Proof.
  destruct (get eqb k m) eqn:E; [eauto|].
  intros H. now apply get_none in E.
Qed.

Lemma in_get (k : K) (v : V) (m : list (K * V)) :
  NoDup (keys m) -> In (k, v) m -> get eqb k m = Some v.
Proof.
  induction m as [|[k0 v0] r IH]; simpl; [tauto|].
  intros Hnd [H|H].
  - injection H as -> ->. now rewrite eqb_refl.
  - inversion Hnd as [|? ? Hnotin Hnd']; subst.
    destruct (eqb k0 k) eqn:E.
    + apply eqb_eq in E. subst k0. exfalso. apply Hnotin.
      change k with (fst (k, v)). now apply in_map.
    + now apply IH.
Qed.

Lemma set_absent (k : K) (v : V) (m : list (K * V)) :
  get eqb k m = None -> set eqb k v m = (m ++ [(k, v)])%list.
Proof.
  induction m as [|[k0 v0] r IH]; simpl; [reflexivity|].
  destruct (eqb k0 k) eqn:E; [discriminate|].
  intros H. now rewrite IH.
Qed.

Lemma keys_set_present (k : K) (v x : V) (m : list (K * V)) :
  get eqb k m = Some x -> keys (set eqb k v m) = keys m.
Proof.
  induction m as [|[k0 v0] r IH]; simpl; [discriminate|].
  destruct (eqb k0 k) eqn:E; simpl.
  - intros _. apply eqb_eq in E. now subst.
  - intros H. now rewrite IH.
Qed.

Lemma in_set (k k' : K) (v v' : V) (m : list (K * V)) :
  In (k', v') (set eqb k v m) -> (k' = k /\ v' = v) \/ In (k', v') m.
Proof.
  induction m as [|[k0 v0] r IH]; simpl.
  - intros [H|[]]. injection H as <- <-. now left.
  - destruct (eqb k0 k) eqn:E; simpl.
    + intros [H|H]; [injection H as <- <-; now left | now right; right].
    + intros [H|H]; [now right; left|].
      destruct (IH H) as [?|?]; [now left | now right; right].
Qed.

Lemma NoDup_keys_set (k : K) (v : V) (m : list (K * V)) :
  NoDup (keys m) -> NoDup (keys (set eqb k v m)).
Proof.
  intros Hnd. destruct (get eqb k m) eqn:E.
  - now rewrite (keys_set_present _ _ _ _ E).
  - rewrite (set_absent _ _ _ E). unfold keys. rewrite map_app. simpl.
    apply NoDup_rev in Hnd. rewrite <- (rev_involutive (_ ++ _)).
    apply NoDup_rev. rewrite rev_app_distr. simpl. constructor; [|assumption].
    rewrite <- in_rev. now apply get_none.
Qed.

End Facts.
End JsMapFacts.

(** ** Facts about the patterns *)

Module RegExpFacts.
Import Js RegExp.

Lemma string_eqb_eq (x y : string) : String.eqb x y = true <-> x = y.
Proof. apply String.eqb_eq. Qed.

Lemma lastOr_app (a b : string) :
  forall d, lastOr d (a ++ b) = lastOr (lastOr d a) b.
Proof. induction a as [|c a IH]; intros d; simpl; [reflexivity | apply IH]. Qed.

Lemma append_assoc (a b c : string) : (a ++ b) ++ c = a ++ b ++ c.
Proof. induction a as [|x a IH]; simpl; [reflexivity | now rewrite IH]. Qed.

Lemma append_empty_r (a : string) : a ++ "" = a.
Proof. induction a as [|x a IH]; simpl; [reflexivity | now rewrite IH]. Qed.

(** Matching a literal phrase followed by the atoms [q]. *)
Lemma matchHere_literal (p : string) (q : list atom) :
  forall (prev : option ascii) (s : string),
    matchHere true (literal p ++ q) prev s = true <->
    exists mid rest,
      s = mid ++ rest /\ sameIgnoringCase p mid
      /\ matchHere true q (lastOr prev mid) rest = true.
Proof.
  unfold sameIgnoringCase.
  induction p as [|a p IH]; intros prev s.
  - simpl. split.
    + intros H. now exists "", s.
    + intros (mid & rest & -> & Hci & H). destruct mid; [exact H | discriminate].
  - change (literal (String a p) ++ q)%list with (Chr a :: (literal p ++ q))%list.
    cbn [matchHere]. destruct s as [|d s].
    + split; [discriminate|].
      intros (mid & rest & Hs & Hci & _). destruct mid; discriminate.
    + rewrite andb_true_iff, IH. unfold chrMatches. rewrite Ascii.eqb_eq. split.
      * intros (Hc & mid & rest & -> & Hci & H).
        exists (String d mid), rest. simpl. rewrite Hc, Hci. now repeat split.
      * intros (mid & rest & Hs & Hci & H). destruct mid as [|d' mid]; [discriminate|].
        simpl in Hs, Hci. injection Hs as <- ->. injection Hci as Hc Hci.
        split; [assumption|]. now exists mid, rest.
Qed.

(** Searching from a position on tries every later position. *)
Lemma searchFrom_spec (ic : bool) (p : list atom) (s : string) :
  forall prev : option ascii,
    searchFrom ic p prev s = true <->
    exists pre rest, s = pre ++ rest /\ matchHere ic p (lastOr prev pre) rest = true.
Proof.
  induction s as [|d s IH]; intros prev.
  - cbn [searchFrom]. rewrite orb_false_r. split.
    + intros H. now exists "", "".
    + intros (pre & rest & Hs & H). destruct pre; [|discriminate].
      simpl in Hs. subst rest. exact H.
  - cbn [searchFrom]. rewrite orb_true_iff, IH. split.
    + intros [H|(pre & rest & -> & H)].
      * now exists "", (String d s).
      * now exists (String d pre), rest.
    + intros (pre & rest & Hs & H). destruct pre as [|d' pre].
      * simpl in Hs. subst rest. now left.
      * simpl in Hs. injection Hs as <- ->. right. now exists pre, rest.
Qed.

(** A pattern made of a phrase alone tests whether the phrase occurs. *)
Lemma test_anywhere (p s : string) :
  test (anywhere p) s = true <-> Occurs p s.
Proof.
  unfold test, anywhere, Occurs. cbn [ignoreCase atoms].
  rewrite searchFrom_spec. split.
  - intros (pre & rest & -> & H).
    rewrite <- (app_nil_r (literal p)) in H. apply matchHere_literal in H.
    destruct H as (mid & post & -> & Hci & _). now exists pre, mid, post.
  - intros (pre & mid & post & -> & Hci). exists pre, (mid ++ post).
    split; [reflexivity|]. rewrite <- (app_nil_r (literal p)).
    apply matchHere_literal. now exists mid, post.
Qed.

(** A pattern with [\b] on both sides tests whether the phrase occurs
    between two word boundaries. *)
Lemma test_wholeWord (p s : string) :
  test (wholeWord p) s = true <-> OccursAsWord p s.
Proof.
  unfold test, wholeWord, OccursAsWord, wordEdge, lastChar.
  cbn [ignoreCase atoms]. rewrite searchFrom_spec. split.
  - intros (pre & rest & -> & H). cbn [matchHere] in H.
    apply andb_true_iff in H. destruct H as [Hl H].
    apply matchHere_literal in H. destruct H as (mid & post & -> & Hci & H).
    cbn [matchHere] in H. rewrite andb_true_r in H.
    exists pre, mid, post. rewrite lastOr_app. now repeat split.
  - intros (pre & mid & post & -> & Hci & Hl & Hr).
    exists pre, (mid ++ post). split; [reflexivity|].
    cbn [matchHere]. rewrite Hl. simpl andb. apply matchHere_literal.
    exists mid, post. split; [reflexivity|]. split; [assumption|].
    cbn [matchHere]. rewrite andb_true_r. now rewrite lastOr_app in Hr.
Qed.

End RegExpFacts.

Module ClassifierSpec.
Import Js RegExp Classifier RegExpFacts Host.

Lemma existsb_test (rxs : list regex) (t : string) :
  existsb (fun rx => test rx t) rxs = true <->
  exists rx, In rx rxs /\ test rx t = true.
Proof. apply existsb_exists. Qed.

Lemma existsb_test_none (rxs : list regex) (t : string) :
  (forall rx, In rx rxs -> test rx t = false) ->
  existsb (fun rx => test rx t) rxs = false.
Proof.
  intros H. destruct (existsb _ rxs) eqn:E; [|reflexivity].
  apply existsb_test in E. destruct E as (rx & Hin & Ht).
  rewrite (H rx Hin) in Ht. discriminate.
Qed.

(** The phrases of both lists are free of regular-expression
    metacharacters: each pattern is the literal phrase. *)
Lemma phrases_are_literal :
  forallb (fun p => negb (existsb isMeta (list_ascii_of_string p)))
          (INCLUDE_phrases ++ EXCLUDE_phrases) = true.
Proof. vm_compute. reflexivity. Qed.





(** C2, as stated, fails: the headline is not classified as political. *)
Lemma C2_counterexample :
  isPolitical (str councilHeadline) (str "") <> true.
Proof. vm_compute. discriminate. Qed.

(** C2, amended.  For the title "Council announces new transfer window
    for housing" with an empty summary, [isPolitical] returns false: the
    [INCLUDE] patterns "council" and "housing" match as whole words (and
    no other), but the [EXCLUDE] pattern "transfer" matches too, and
    exclusion takes precedence. *)
Theorem C2_transfer_headline_excluded :
  isPolitical (str councilHeadline) (str "") = false
  /\ isPolitical (str councilHeadline) undefined = false
  /\ filter (fun p => test (wholeWord p) (haystack (str councilHeadline) (str "")))
            INCLUDE_phrases = ["council"; "housing"]
  /\ filter (fun p => test (anywhere p) (haystack (str councilHeadline) (str "")))
            EXCLUDE_phrases = ["transfer"]
  /\ OccursAsWord "council" (haystack (str councilHeadline) (str ""))
  /\ OccursAsWord "housing" (haystack (str councilHeadline) (str ""))
  /\ Occurs "transfer" (haystack (str councilHeadline) (str "")).
Proof.
  repeat split; try (vm_compute; reflexivity).
  - apply test_wholeWord. vm_compute. reflexivity.
  - apply test_wholeWord. vm_compute. reflexivity.
  - apply test_anywhere. vm_compute. reflexivity.
Qed.

End ClassifierSpec.

(** ** Facts about the stable sort *)

Module JsArrayFacts.
Import JsArray.

Lemma In_firstn {A : Type} (n : nat) (x : A) (l : list A) :
  In x (firstn n l) -> In x l.
Proof.
  revert n. induction l as [|y r IH]; intros [|n]; simpl; try tauto.
  intros [H|H]; [now left | right; eauto].
Qed.

Lemma firstn_sorted {A : Type} (R : A -> A -> Prop) (n : nat) (l : list A) :
  StronglySorted R l -> StronglySorted R (firstn n l).
Proof.
  intros Hs. revert n. induction Hs as [|x r Hs IH Hall]; intros [|n]; simpl;
    try constructor.
  - apply IH.
  - apply Forall_forall. intros y Hy. rewrite Forall_forall in Hall.
    apply Hall. now apply In_firstn in Hy.
Qed.

Section SortFacts.
Context {A : Type}.
Variable cmp : A -> A -> Z.
Variable key : A -> Z.

Local Abbreviation desc := (descBy key).

Lemma insert_perm (x : A) (l : list A) : Permutation (insert cmp x l) (x :: l).
Proof.
  induction l as [|y r IH]; simpl; [reflexivity|].
  destruct (cmp x y <=? 0)%Z; [reflexivity|].
  rewrite IH. apply perm_swap.
Qed.

Lemma sort_perm (l : list A) : Permutation (sort cmp l) l.
Proof.
  induction l as [|x r IH]; simpl; [reflexivity|].
  rewrite insert_perm. now constructor.
Qed.

Lemma insert_sorted (x : A) (l : list A) :
  (forall y, In y l -> cmp x y = (key y - key x)%Z) ->
  StronglySorted desc l -> StronglySorted desc (insert cmp x l).
Proof.
  intros Hc Hs. induction Hs as [|y r Hs IH Hall]; simpl.
  - repeat constructor.
  - assert (Hy : cmp x y = (key y - key x)%Z) by (apply Hc; now left).
    destruct (cmp x y <=? 0)%Z eqn:E.
    + apply Z.leb_le in E. constructor; [now constructor|].
      constructor; [unfold descBy; lia|].
      eapply Forall_impl; [|exact Hall]. unfold descBy. intros z Hz. lia.
    + apply Z.leb_gt in E. constructor.
      * apply IH. intros z Hz. apply Hc. now right.
      * apply Forall_forall. intros z Hz.
        apply (Permutation_in _ (insert_perm x r)) in Hz.
        destruct Hz as [<-|Hz]; [unfold descBy; lia|].
        rewrite Forall_forall in Hall. now apply Hall.
Qed.

Lemma sort_sorted (l : list A) :
  (forall x y, In x l -> In y l -> cmp x y = (key y - key x)%Z) ->
  StronglySorted desc (sort cmp l).
Proof.
  induction l as [|x r IH]; simpl; intros Hc; [constructor|].
  apply insert_sorted.
  - intros y Hy. apply (Permutation_in _ (sort_perm r)) in Hy.
    apply Hc; [now left | now right].
  - apply IH. intros a b Ha Hb. apply Hc; now right.
Qed.

End SortFacts.
End JsArrayFacts.

(** ** fetch-news: de-duplication and ranking *)

Module DedupSpec.
Import Js Data FetchNews JsMapFacts JsArrayFacts RegExpFacts.

Lemma smap_app (f : ascii -> ascii) (a b : string) :
  smap f (a ++ b) = smap f a ++ smap f b.
Proof. induction a as [|c a IH]; simpl; [reflexivity | now rewrite IH]. Qed.

Section Dedup.
Variable Date_parse : string -> option Z.

Local Abbreviation newDate := (FetchNews.newDate Date_parse).
Local Abbreviation isNewer := (FetchNews.isNewer Date_parse).
Local Abbreviation dedupStep := (FetchNews.dedupStep Date_parse).
Local Abbreviation dedup := (FetchNews.dedup Date_parse).
Local Abbreviation survivors := (FetchNews.survivors Date_parse).
Local Abbreviation byNewest := (FetchNews.byNewest Date_parse).
Local Abbreviation rank := (FetchNews.rank Date_parse).
Local Abbreviation timeOf := (FetchNews.timeOf Date_parse).
Local Abbreviation validDate := (FetchNews.validDate Date_parse).
Local Abbreviation Deduped := (FetchNews.Deduped Date_parse).

Lemma dedupKey_parts (it : NewsItem) :
  dedupKey it =
  toLowerCase (toTemplate (source it)) ++ "__" ++ toLowerCase (toTemplate (title it)).
Proof. unfold dedupKey, toLowerCase. now rewrite !smap_app. Qed.

Lemma newDate_missing (p : jsval) : truthy p = false -> newDate p = Some 0%Z.
Proof. unfold FetchNews.newDate. now intros ->. Qed.

Lemma isNewer_irrefl (it : NewsItem) : isNewer it it = false.
Proof.
  unfold FetchNews.isNewer, dateGt. destruct (newDate (pubDate it)); [|reflexivity].
  apply Z.ltb_irrefl.
Qed.

Lemma isNewer_carry (x it prev : NewsItem) :
  isNewer it prev = true -> isNewer x prev = false -> isNewer x it = false.
Proof.
  unfold FetchNews.isNewer, dateGt.
  destruct (newDate (pubDate it)) as [ti|], (newDate (pubDate prev)) as [tp|],
           (newDate (pubDate x)) as [tx|]; try discriminate; try reflexivity.
  rewrite !Z.ltb_lt, !Z.ltb_ge. lia.
Qed.

Lemma Deduped_nil : Deduped [] JsMap.empty.
Proof.
  split; [constructor|]. split; [intros k v []|intros it []].
Qed.

Lemma Deduped_step (seen : list NewsItem) (m : list (string * NewsItem))
  (it : NewsItem) :
  Deduped seen m -> Deduped (seen ++ [it]) (dedupStep m it).
Proof.
  intros (Hnd & Hent & Hall). unfold FetchNews.Deduped, FetchNews.dedupStep.
  destruct (JsMap.get String.eqb (dedupKey it) m) as [prev|] eqn:Eget.
  - destruct (isNewer it prev) eqn:Enew.
    + (* the newer item takes the place of the previous one *)
      split; [now apply (NoDup_keys_set String.eqb string_eqb_eq)|]. split.
      * intros k v Hin. apply in_set in Hin. destruct Hin as [[-> ->]|Hin].
        -- split; [reflexivity|]. apply in_or_app. right. now left.
        -- destruct (Hent _ _ Hin). split; [assumption|].
           apply in_or_app. now left.
      * intros x Hx. apply in_app_or in Hx.
        destruct (string_dec (dedupKey it) (dedupKey x)) as [Heq|Hne].
        -- exists it. rewrite <- Heq.
           rewrite (get_set_same String.eqb string_eqb_eq). split; [reflexivity|].
           destruct Hx as [Hx|[<-|[]]]; [|apply isNewer_irrefl].
           destruct (Hall _ Hx) as (v & Hv & Hnv).
           rewrite <- Heq, Eget in Hv. injection Hv as <-.
           eapply isNewer_carry; eassumption.
        -- rewrite (get_set_other String.eqb string_eqb_eq) by assumption.
           destruct Hx as [Hx|[<-|[]]]; [now apply Hall | congruence].
    + (* the previous one stays *)
      split; [assumption|]. split.
      * intros k v Hin. destruct (Hent _ _ Hin). split; [assumption|].
        apply in_or_app. now left.
      * intros x Hx. apply in_app_or in Hx.
        destruct Hx as [Hx|[<-|[]]]; [now apply Hall|]. now exists prev.
  - (* a new key *)
    split; [now apply (NoDup_keys_set String.eqb string_eqb_eq)|]. split.
    + intros k v Hin. apply in_set in Hin. destruct Hin as [[-> ->]|Hin].
      * split; [reflexivity|]. apply in_or_app. right. now left.
      * destruct (Hent _ _ Hin). split; [assumption|].
        apply in_or_app. now left.
    + intros x Hx. apply in_app_or in Hx.
      destruct (string_dec (dedupKey it) (dedupKey x)) as [Heq|Hne].
      * exists it. rewrite <- Heq.
        rewrite (get_set_same String.eqb string_eqb_eq). split; [reflexivity|].
        destruct Hx as [Hx|[<-|[]]]; [|apply isNewer_irrefl].
        destruct (Hall _ Hx) as (v & Hv & _). rewrite <- Heq, Eget in Hv.
        discriminate.
      * rewrite (get_set_other String.eqb string_eqb_eq) by assumption.
        destruct Hx as [Hx|[<-|[]]]; [now apply Hall | congruence].
Qed.

Lemma Deduped_fold (all seen : list NewsItem) (m : list (string * NewsItem)) :
  Deduped seen m -> Deduped (seen ++ all) (fold_left dedupStep all m).
Proof.
  revert seen m. induction all as [|it all IH]; intros seen m H; simpl.
  - now rewrite app_nil_r.
  - replace (seen ++ it :: all)%list with ((seen ++ [it]) ++ all)%list
      by (rewrite <- app_assoc; reflexivity).
    apply IH. now apply Deduped_step.
Qed.

Lemma Deduped_dedup (all : list NewsItem) : Deduped all (dedup all).
Proof. apply (Deduped_fold all [] JsMap.empty Deduped_nil). Qed.

Lemma survivors_keys (all : list NewsItem) :
  map dedupKey (survivors all) = JsMap.keys (dedup all).
Proof.
  destruct (Deduped_dedup all) as (_ & Hent & _).
  unfold FetchNews.survivors, JsMap.values, JsMap.keys.
  induction (dedup all) as [|[k v] r IH]; simpl; [reflexivity|].
  rewrite IH.
  - f_equal. apply (Hent k v). now left.
  - intros k' v' Hin. apply Hent. now right.
Qed.

Lemma survivors_in (all : list NewsItem) (v : NewsItem) :
  In v (survivors all) -> In v all.
Proof.
  destruct (Deduped_dedup all) as (_ & Hent & _).
  unfold FetchNews.survivors, JsMap.values. rewrite in_map_iff.
  intros ([k v'] & <- & Hin). now apply (Hent k v').
Qed.

(** One survivor per key, taken from the list, and no item of the list
    with its key is strictly later than it. *)
Lemma dedup_one_per_key (all : list NewsItem) :
  NoDup (map dedupKey (survivors all))
  /\ forall it, In it all ->
       exists v, In v (survivors all) /\ In v all
                 /\ dedupKey v = dedupKey it /\ isNewer it v = false.
Proof.
  split.
  - rewrite survivors_keys. apply (Deduped_dedup all).
  - intros it Hit. destruct (Deduped_dedup all) as (Hnd & Hent & Hall).
    destruct (Hall it Hit) as (v & Hget & Hnew).
    apply (get_in String.eqb string_eqb_eq) in Hget.
    exists v. destruct (Hent _ _ Hget) as [Hk Hin].
    repeat split; try assumption.
    unfold FetchNews.survivors, JsMap.values.
    change v with (snd (dedupKey it, v)). now apply in_map.
Qed.

Lemma survivors_pair (a b : NewsItem) :
  dedupKey a = dedupKey b ->
  survivors [a; b] = [if isNewer b a then b else a].
Proof.
  intros Hk. unfold FetchNews.survivors, FetchNews.dedup. simpl.
  unfold FetchNews.dedupStep. simpl. rewrite Hk, String.eqb_refl.
  now destruct (isNewer b a).
Qed.

Lemma isNewer_times (a b : NewsItem) (ta tb : Z) :
  newDate (pubDate a) = Some ta -> newDate (pubDate b) = Some tb ->
  isNewer b a = (ta <? tb)%Z.
Proof. unfold FetchNews.isNewer, dateGt. now intros -> ->. Qed.

(** C3, amended.  Two items with the same key (the lower-cased source,
    ["__"], the lower-cased title) leave exactly one survivor, one of the
    two.  When both dates are valid it is the one with the strictly later
    date, in either order of arrival, and the first to arrive when the
    dates are equal; a missing [pubDate] counts as time 0, the Unix epoch,
    which is later than any date before 1970.  In any list each key has
    exactly one survivor, and no item of the list with that key is
    strictly later than it. *)
Theorem C3_dedup_keeps_later :
  forall a b : NewsItem,
    dedupKey a = dedupKey b ->
    dedupKey a =
      toLowerCase (toTemplate (source a)) ++ "__" ++ toLowerCase (toTemplate (title a))
    /\ (exists x, survivors [a; b] = [x] /\ (x = a \/ x = b))
    /\ (truthy (pubDate a) = false -> newDate (pubDate a) = Some 0%Z)
    /\ (forall ta tb,
          newDate (pubDate a) = Some ta -> newDate (pubDate b) = Some tb ->
          ((tb < ta)%Z -> survivors [a; b] = [a] /\ survivors [b; a] = [a])
          /\ ((ta < tb)%Z -> survivors [a; b] = [b] /\ survivors [b; a] = [b])
          /\ (ta = tb -> survivors [a; b] = [a] /\ survivors [b; a] = [b]))
    /\ (forall all,
          NoDup (map dedupKey (survivors all))
          /\ forall it, In it all ->
               exists v, In v (survivors all) /\ In v all
                         /\ dedupKey v = dedupKey it /\ isNewer it v = false).
Proof.
  intros a b Hk. split; [apply dedupKey_parts|]. split; [|split; [|split]].
  - rewrite (survivors_pair a b Hk).
    destruct (isNewer b a); eexists; split; eauto.
  - apply newDate_missing.
  - intros ta tb Ha Hb.
    rewrite (survivors_pair a b Hk), (survivors_pair b a (eq_sym Hk)).
    rewrite (isNewer_times a b ta tb Ha Hb), (isNewer_times b a tb ta Hb Ha).
    split; [|split]; intros Hlt.
    + assert (E1 : (ta <? tb)%Z = false) by (apply Z.ltb_ge; lia).
      assert (E2 : (tb <? ta)%Z = true) by (apply Z.ltb_lt; lia).
      now rewrite E1, E2.
    + assert (E1 : (ta <? tb)%Z = true) by (apply Z.ltb_lt; lia).
      assert (E2 : (tb <? ta)%Z = false) by (apply Z.ltb_ge; lia).
      now rewrite E1, E2.
    + subst. now rewrite Z.ltb_irrefl.
  - apply dedup_one_per_key.
Qed.

Lemma timeOf_valid (it : NewsItem) :
  validDate it -> newDate (pubDate it) = Some (timeOf it).
Proof.
  unfold FetchNews.validDate, FetchNews.timeOf.
  destruct (newDate (pubDate it)); [reflexivity | congruence].
Qed.

Lemma byNewest_valid (x y : NewsItem) :
  validDate x -> validDate y -> byNewest x y = (timeOf y - timeOf x)%Z.
Proof.
  intros Hx Hy. unfold FetchNews.byNewest.
  now rewrite (timeOf_valid x Hx), (timeOf_valid y Hy).
Qed.

(** C4, amended.  When every [pubDate] is missing or a valid date, the
    list that is written is the first 200 at most of the survivors in
    non-increasing order of time, an item without [pubDate] being ranked
    at time 0, the Unix epoch: after every item dated later than 1970 and
    before every item dated earlier. *)
Theorem C4_ranked_newest_first :
  forall all : list NewsItem,
    (forall it, In it all -> validDate it) ->
    let sorted := JsArray.sort byNewest (survivors all) in
    let out := rank (dedup all) in
    out = firstn 200 sorted
    /\ List.length out <= 200
    /\ Permutation sorted (survivors all)
    /\ StronglySorted (fun x y => (timeOf y <= timeOf x)%Z) sorted
    /\ StronglySorted (fun x y => (timeOf y <= timeOf x)%Z) out
    /\ (forall it, truthy (pubDate it) = false -> timeOf it = 0%Z).
Proof.
  intros all Hvalid sorted out.
  assert (Hs : StronglySorted (fun x y => (timeOf y <= timeOf x)%Z) sorted).
  { apply (sort_sorted byNewest timeOf). intros x y Hx Hy.
    apply byNewest_valid; apply Hvalid; now apply survivors_in. }
  split; [reflexivity|]. split; [apply firstn_le_length|].
  split; [apply sort_perm|]. split; [exact Hs|]. split.
  - unfold out, FetchNews.rank, JsArray.slice0, MAX_ITEMS.
    apply firstn_sorted. exact Hs.
  - intros it Hm. unfold FetchNews.timeOf. now rewrite newDate_missing.
Qed.

End Dedup.

Import Host.

(** C3, as stated, fails: against an item dated in year 1, the item
    without [pubDate] survives, in either order of arrival. *)
Lemma C3_counterexample :
  dedupKey undatedItem = dedupKey ancientItem
  /\ statedLater isoParse undatedItem ancientItem
  /\ survivors isoParse [undatedItem; ancientItem] = [undatedItem]
  /\ survivors isoParse [ancientItem; undatedItem] = [undatedItem]
  /\ ~ (forall a b, dedupKey a = dedupKey b -> statedLater isoParse a b ->
          survivors isoParse [a; b] = [b]).
Proof.
  assert (Hs : statedLater isoParse undatedItem ancientItem)
    by (vm_compute; split; [reflexivity | exact I]).
  repeat split; try assumption; try reflexivity.
  intros H. specialize (H undatedItem ancientItem eq_refl Hs).
  vm_compute in H. discriminate.
Qed.

(** An item whose date is invalid is never replaced, and never
    replaces: every comparison with it is false. *)
Example invalid_date_stays_first :
  survivors isoParse [garbledVote; tuesdayItem] = [garbledVote]
  /\ survivors isoParse [tuesdayItem; garbledVote] = [tuesdayItem].
Proof. vm_compute. split; reflexivity. Qed.

(** With an invalid date the comparator answers NaN, which counts as 0,
    and is no order: the list stays as it is, the older item ahead of
    the newer one. *)
Example invalid_date_breaks_ranking :
  rank isoParse (dedup isoParse threeStories) = threeStories.
Proof. vm_compute. reflexivity. Qed.

Lemma C3_dedup_keeps_later_witness :
  dedupKey mondayItem = dedupKey tuesdayItem
  /\ survivors isoParse [mondayItem; tuesdayItem] = [tuesdayItem]
  /\ survivors isoParse [tuesdayItem; mondayItem] = [tuesdayItem].
Proof.
  split; [reflexivity|].
  apply (proj1 (proj2 (proj1 (proj2 (proj2 (proj2
           (C3_dedup_keeps_later isoParse mondayItem tuesdayItem eq_refl))))
           1704099600000%Z 1704186000000%Z eq_refl eq_refl))).
  reflexivity.
Defined.

(** C4, as stated, fails: an item without [pubDate] is ranked ahead of an
    item dated in year 1. *)
Lemma C4_counterexample :
  rank isoParse (dedup isoParse [ancientItem; railItem]) = [railItem; ancientItem]
  /\ ~ (forall all, missingSortLast (rank isoParse (dedup isoParse all))).
Proof.
  split; [vm_compute; reflexivity|].
  intros H.
  specialize (H [ancientItem; railItem] [] railItem [ancientItem] ancientItem).
  assert (E : truthy (pubDate ancientItem) = false).
  { apply H; [vm_compute; reflexivity | now left | reflexivity]. }
  vm_compute in E. discriminate.
Qed.

Lemma C4_ranked_newest_first_witness :
  rank isoParse (dedup isoParse [railItem; mondayItem])
  = firstn 200 (JsArray.sort (byNewest isoParse)
                  (survivors isoParse [railItem; mondayItem]))
  /\ rank isoParse (dedup isoParse [railItem; mondayItem]) = [mondayItem; railItem].
Proof.
  split; [|vm_compute; reflexivity].
  apply (C4_ranked_newest_first isoParse [railItem; mondayItem]).
  intros it [<-|[<-|[]]]; vm_compute; discriminate.
Defined.

End DedupSpec.

(** ** fetch-news: candidate fallback and failing sources *)

Module FetcherSpec.
Import Js Data Classifier FetchNews.

Section Fetcher.
Variable Date_parse : string -> option Z.
Variable World : Type.
Variable delay : Z -> World -> World.
Variable parseURL : string -> World -> (JsError + Feed) * World.

Local Abbreviation tryCandidates := (FetchNews.tryCandidates World delay parseURL).
Local Abbreviation parseWithFallback := (FetchNews.parseWithFallback World delay parseURL).
Local Abbreviation fetchSource := (FetchNews.fetchSource World delay parseURL).
Local Abbreviation collect := (FetchNews.collect World delay parseURL).
Local Abbreviation run := (FetchNews.run Date_parse World delay parseURL).
Local Abbreviation AllFail := (FetchNews.AllFail World delay parseURL).
Local Abbreviation rank := (FetchNews.rank Date_parse).
Local Abbreviation dedup := (FetchNews.dedup Date_parse).

Lemma tryCandidates_skip_failed (pre rest : list string)
  (e e' : option JsError) (w w' : World) :
  AllFail pre e w e' w' ->
  tryCandidates (pre ++ rest) e w = tryCandidates rest e' w'.
Proof.
  intros H. induction H as [e w | url pre e e' err w w1 w' Hp _ IH
                            | url pre e e' feed w w1 w' Hp Hnil _ IH]; simpl.
  - reflexivity.
  - now rewrite Hp.
  - now rewrite Hp, Hnil.
Qed.

Lemma tryCandidates_accepts (url : string) (post : list string)
  (e : option JsError) (w w' : World) (feed : Feed) :
  parseURL url (delay 100 w) = (inr feed, w') ->
  feed_items feed <> [] ->
  tryCandidates (url :: post) e w = (inr (feed, url), w').
Proof.
  intros Hp Hne. simpl. rewrite Hp.
  destruct (feed_items feed); [contradiction | reflexivity].
Qed.

Lemma tryCandidates_all_failed (cands : list string)
  (e e' : option JsError) (w w' : World) :
  AllFail cands e w e' w' ->
  tryCandidates cands e w = (inl (thrownAfter e'), w').
Proof.
  intros H. rewrite <- (app_nil_r cands).
  now rewrite (tryCandidates_skip_failed _ [] _ _ _ _ H).
Qed.

(** Each run of the loop either accepts the first working candidate or
    has seen every candidate fail. *)
Lemma tryCandidates_inv (cands : list string) :
  forall (e : option JsError) (w : World),
    (exists pre url post e' w1 feed w2,
        cands = (pre ++ url :: post)%list
        /\ AllFail pre e w e' w1
        /\ parseURL url (delay 100 w1) = (inr feed, w2)
        /\ feed_items feed <> []
        /\ tryCandidates cands e w = (inr (feed, url), w2))
    \/ (exists e' w', AllFail cands e w e' w'
        /\ tryCandidates cands e w = (inl (thrownAfter e'), w')).
Proof.
  induction cands as [|url rest IH]; intros e w.
  - right. exists e, w. split; [constructor | reflexivity].
  - destruct (parseURL url (delay 100 w)) as [[err|feed] w1] eqn:Hp.
    + destruct (IH (Some err) w1) as
        [(pre & u & post & e' & w2 & feed & w3 & -> & Hf & Hu & Hne & Ht)
        |(e' & w' & Hf & Ht)].
      * left. exists (url :: pre), u, post, e', w2, feed, w3.
        repeat split; try assumption.
        -- eapply AllFail_throws; eassumption.
        -- simpl. now rewrite Hp.
      * right. exists e', w'. split.
        -- eapply AllFail_throws; eassumption.
        -- simpl. now rewrite Hp.
    + destruct (feed_items feed) as [|r rs] eqn:Hitems.
      * destruct (IH e w1) as
          [(pre & u & post & e' & w2 & feed' & w3 & -> & Hf & Hu & Hne & Ht)
          |(e' & w' & Hf & Ht)].
        -- left. exists (url :: pre), u, post, e', w2, feed', w3.
           repeat split; try assumption.
           ++ eapply AllFail_no_entries; eassumption.
           ++ simpl. now rewrite Hp, Hitems.
        -- right. exists e', w'. split.
           ++ eapply AllFail_no_entries; eassumption.
           ++ simpl. now rewrite Hp, Hitems.
      * left. exists [], url, rest, e, w, feed, w1.
        repeat split; try assumption.
        -- constructor.
        -- rewrite Hitems. discriminate.
        -- simpl. now rewrite Hp, Hitems.
Qed.

(** C5.  Candidates are tried in the listed order.  When the candidates
    before [url] have all failed (thrown, or answered without entries) and
    [url] answers with a feed of at least one entry, that feed is accepted
    for the source: the candidates after it are not requested (result and
    world are those of the run without them), and the items of the source
    are the political entries of that one feed; every accepted feed is
    accepted this way. *)
Theorem C5_first_working_candidate :
  forall (src : Source) (pre post : list string) (url : string)
         (w w1 w2 : World) (e1 : option JsError) (feed : Feed),
    candidates src = (pre ++ url :: post)%list ->
    AllFail pre None w e1 w1 ->
    parseURL url (delay 100 w1) = (inr feed, w2) ->
    feed_items feed <> [] ->
    parseWithFallback (candidates src) w = (inr (feed, url), w2)
    /\ parseWithFallback (pre ++ [url]) w = (inr (feed, url), w2)
    /\ fetchSource src w =
         (politicalItems (jsor (feed_title feed) (str (name src))) (feed_items feed),
          [], w2)
    /\ (forall cands w0 feed' url' w',
          parseWithFallback cands w0 = (inr (feed', url'), w') ->
          exists pre' post' e' w1',
            cands = (pre' ++ url' :: post')%list
            /\ AllFail pre' None w0 e' w1'
            /\ parseURL url' (delay 100 w1') = (inr feed', w')
            /\ feed_items feed' <> []).
Proof.
  intros src pre post url w w1 w2 e1 feed Hc Hf Hu Hne.
  assert (H1 : parseWithFallback (candidates src) w = (inr (feed, url), w2)).
  { unfold FetchNews.parseWithFallback. rewrite Hc.
    rewrite (tryCandidates_skip_failed _ _ _ _ _ _ Hf).
    now apply tryCandidates_accepts. }
  split; [exact H1|]. split; [|split].
  - unfold FetchNews.parseWithFallback.
    rewrite (tryCandidates_skip_failed _ _ _ _ _ _ Hf).
    now apply tryCandidates_accepts.
  - unfold FetchNews.fetchSource. now rewrite H1.
  - intros cands w0 feed' url' w' Hr. unfold FetchNews.parseWithFallback in Hr.
    destruct (tryCandidates_inv cands None w0) as
      [(pre' & u & post' & e' & w1' & f & w2' & Hcs & Hfs & Hus & Hnes & Ht)
      |(e' & w'' & _ & Ht)].
    + rewrite Ht in Hr. injection Hr as <- <- <-.
      exists pre', post', e', w1'. now repeat split.
    + rewrite Ht in Hr. discriminate.
Qed.

Lemma collect_app (xs ys : list Source) (w : World) :
  collect (xs ++ ys) w =
  let '(got1, warned1, w1) := collect xs w in
  let '(got2, warned2, w2) := collect ys w1 in
  ((got1 ++ got2)%list, (warned1 ++ warned2)%list, w2).
Proof.
  revert w. induction xs as [|s xs IH]; intros w; simpl.
  - now destruct (collect ys w) as [[g l] w'].
  - destruct (fetchSource s w) as [[g0 l0] w0]. rewrite IH.
    destruct (collect xs w0) as [[g1 l1] w1].
    destruct (collect ys w1) as [[g2 l2] w2].
    now rewrite !app_assoc.
Qed.

(** C6.  When every candidate of a source fails, the source contributes
    no item and one warning line, and the run goes on: the sources after
    it are processed from the world the failed attempts left, and the
    artifact is written from the items of the other sources. *)
Theorem C6_failed_source_is_skipped :
  forall (before after : list Source) (src : Source) (w w1 w2 w3 : World)
         (got1 got2 : list NewsItem) (warned1 warned2 : list Event)
         (e : option JsError),
    collect before w = (got1, warned1, w1) ->
    AllFail (candidates src) None w1 e w2 ->
    collect after w2 = (got2, warned2, w3) ->
    fetchSource src w1 = ([], [feedFailed src (thrownAfter e)], w2)
    /\ collect (before ++ src :: after) w =
         ((got1 ++ got2)%list,
          (warned1 ++ feedFailed src (thrownAfter e) :: warned2)%list, w3)
    /\ run (before ++ src :: after) w =
         ((warned1 ++ feedFailed src (thrownAfter e) :: warned2
           ++ [WriteFile newsPath (rank (dedup (got1 ++ got2)));
               LogWrote (List.length (rank (dedup (got1 ++ got2))))])%list, w3).
Proof.
  intros before after src w w1 w2 w3 got1 got2 warned1 warned2 e Hb Hf Ha.
  assert (Hs : fetchSource src w1 = ([], [feedFailed src (thrownAfter e)], w2)).
  { unfold FetchNews.fetchSource, FetchNews.parseWithFallback.
    now rewrite (tryCandidates_all_failed _ _ _ _ _ Hf). }
  assert (Hc : collect (before ++ src :: after) w =
               ((got1 ++ got2)%list,
                (warned1 ++ feedFailed src (thrownAfter e) :: warned2)%list, w3)).
  { rewrite collect_app, Hb. simpl. now rewrite Hs, Ha. }
  split; [exact Hs|]. split; [exact Hc|].
  unfold FetchNews.run. rewrite Hc. now rewrite <- app_assoc.
Qed.

End Fetcher.
End FetcherSpec.

Module FetcherExamples.
Import Js Data Classifier FetchNews Host FetcherSpec.

(** The first mirror throws, the second is accepted, the third is never
    requested. *)
Lemma C5_first_working_candidate_witness :
  FetchNews.fetchSource Requests noDelay (tableNet mirrorNet) threeMirrors []
  = ([mkItem (str "Budget vote") (str "https://example.org/story")
             (str "2024-01-02T09:00:00.000Z") (str "Example B")
             (str "Councillors debate the plan")],
     [], ["https://b.example/rss"; "https://a.example/rss"]).
Proof.
  refine (proj1 (proj2 (proj2
    (C5_first_working_candidate Requests noDelay (tableNet mirrorNet)
       threeMirrors ["https://a.example/rss"] ["https://c.example/rss"]
       "https://b.example/rss" [] ["https://a.example/rss"]
       ["https://b.example/rss"; "https://a.example/rss"]
       (Some (mkError "Error" "Status code 404"))
       (mkFeed (str "Example B") [rawEntry "Budget vote" "2024-01-02T09:00:00.000Z"])
       eq_refl _ eq_refl _)))).
  - eapply AllFail_throws; [reflexivity | constructor].
  - discriminate.
Defined.

(** A source with a dead and an empty candidate between two working
    ones: one warning, and the artifact is written all the same. *)
Lemma C6_failed_source_is_skipped_witness :
  FetchNews.run isoParse Requests noDelay (tableNet deadNet)
    [threeMirrors; deadSource; threeMirrors] []
  = ([Warn "Feed failed for Dead Feed: getaddrinfo ENOTFOUND https://dead.example/rss";
      WriteFile "public/data/news.json"
        [mkItem (str "Budget vote") (str "https://example.org/story")
                (str "2024-01-02T09:00:00.000Z") (str "Example B")
                (str "Councillors debate the plan")];
      LogWrote 1],
     ["https://b.example/rss"; "https://a.example/rss";
      "https://empty.example/rss"; "https://dead.example/rss";
      "https://b.example/rss"; "https://a.example/rss"]).
Proof.
  refine (proj2 (proj2
    (C6_failed_source_is_skipped isoParse Requests noDelay (tableNet deadNet)
       [threeMirrors] [threeMirrors] deadSource
       [] ["https://b.example/rss"; "https://a.example/rss"]
       ["https://empty.example/rss"; "https://dead.example/rss";
        "https://b.example/rss"; "https://a.example/rss"]
       _ _ _ [] _
       (Some (mkError "Error" "getaddrinfo ENOTFOUND https://dead.example/rss"))
       eq_refl _ eq_refl))).
  eapply AllFail_throws; [reflexivity|].
  eapply AllFail_no_entries; [reflexivity | reflexivity | constructor].
Defined.

End FetcherExamples.

(** ** analyse-news: phrases, keywords and place inference *)

Module PhraseSpec.
Import Js Data AnalyseNews JsMapFacts RegExpFacts.

Lemma get_bump (k w : string) (v : nat) (m : Counts) :
  JsMap.get String.eqb k (bump m (w, v)) =
  if String.eqb w k then Some (countOf m w + v) else JsMap.get String.eqb k m.
Proof.
  unfold bump, countOf. destruct (String.eqb w k) eqn:E.
  - apply String.eqb_eq in E. subst. apply (get_set_same String.eqb string_eqb_eq).
  - apply String.eqb_neq in E. now apply (get_set_other String.eqb string_eqb_eq).
Qed.

Lemma get_tally_from (k : string) (ws : list string) :
  forall m : Counts,
    JsMap.get String.eqb k (fold_left (fun m w => bump m (w, 1)) ws m) =
    match count_occ string_dec ws k with
    | 0 => JsMap.get String.eqb k m
    | S n => Some (countOf m k + S n)
    end.
Proof.
  induction ws as [|w ws IH]; intros m; [reflexivity|].
  cbn [fold_left count_occ]. rewrite IH.
  destruct (string_dec w k) as [->|Hne].
  - unfold countOf at 1. rewrite !get_bump, String.eqb_refl.
    destruct (count_occ string_dec ws k); f_equal; lia.
  - apply String.eqb_neq in Hne. unfold countOf at 1.
    rewrite !get_bump, Hne. reflexivity.
Qed.

(** A table built by [tally] holds, for each key, the number of times
    the key stands in the list, and no entry for a key that does not. *)
Lemma get_tally (k : string) (ws : list string) :
  JsMap.get String.eqb k (tally ws) =
  match count_occ string_dec ws k with
  | 0 => None
  | S n => Some (S n)
  end.
Proof. unfold tally. rewrite get_tally_from. reflexivity. Qed.





Lemma stripPrefix_spec (p s r : string) :
  stripPrefix p s = Some r <-> s = p ++ r.
Proof.
  revert s. induction p as [|a p IH]; intros s; simpl.
  - split; [now intros [= ->] | now intros ->].
  - destruct s as [|b s]; [split; discriminate|].
    destruct (Ascii.eqb a b) eqn:E.
    + apply Ascii.eqb_eq in E. subst b. rewrite IH.
      split; [now intros -> | now intros [= ->]].
    + apply Ascii.eqb_neq in E. split; [discriminate|].
      intros [= H _]. congruence.
Qed.

Lemma includes_unfold (s w : string) :
  includes s w =
  match stripPrefix w s with
  | Some _ => true
  | None =>
      match s with
      | EmptyString => false
      | String _ s' => includes s' w
      end
  end.
Proof. destruct s; reflexivity. Qed.

(** [includes] is the substring test. *)
Lemma includes_spec (s w : string) :
  includes s w = true <-> exists pre post, s = pre ++ w ++ post.
Proof.
  split.
  - induction s as [|c s IH]; rewrite includes_unfold.
    + destruct (stripPrefix w "") as [r|] eqn:E; [|discriminate].
      apply stripPrefix_spec in E. intros _. now exists "", r.
    + destruct (stripPrefix w (String c s)) as [r|] eqn:E.
      * apply stripPrefix_spec in E. intros _. now exists "", r.
      * intros H. destruct (IH H) as (pre & post & ->).
        now exists (String c pre), post.
  - intros (pre & post & ->). induction pre as [|c pre IH].
    + rewrite includes_unfold. simpl.
      destruct (stripPrefix w (w ++ post)) as [r|] eqn:E; [reflexivity|].
      assert (H : stripPrefix w (w ++ post) = Some post)
        by now apply stripPrefix_spec.
      congruence.
    + rewrite includes_unfold.
      destruct (stripPrefix w (String c pre ++ w ++ post)); [reflexivity|].
      exact IH.
Qed.

Lemma includes_left (a b : string) : includes (a ++ " " ++ b) a = true.
Proof. apply includes_spec. now exists "", (" " ++ b). Qed.

Lemma includes_right (a b : string) : includes (a ++ " " ++ b) b = true.
Proof.
  apply includes_spec. exists (a ++ " "), "".
  induction a as [|c a IH]; simpl.
  - f_equal. induction b as [|d b IHb]; simpl; [reflexivity | now f_equal].
  - now f_equal.
Qed.

Section Keywords.
Variable URL_hostname : string -> JsError + string.

Local Abbreviation areas := (AnalyseNews.areas URL_hostname).
Local Abbreviation buildBuckets := (AnalyseNews.buildBuckets URL_hostname).

Lemma areas_from_bucket (items : list NewsItem) (area : Area) :
  In area (areas items) ->
  exists p b, In (p, b) (buildBuckets items) /\ area = areaOf (p, b).
Proof.
  unfold AnalyseNews.areas. intros H.
  apply (Permutation_in _ (JsArrayFacts.sort_perm _ _)) in H.
  apply in_map_iff in H. destruct H as ([p b] & <- & Hin). now exists p, b.
Qed.

(** C9.  In every area that is written, the keywords are the top-10
    unigrams of the bucket left after dropping each one that is a
    substring of one of the area's issues (its top-10 bigrams): no
    keyword is a substring of an issue, and neither word of an issue
    made of two words joined by a space is a keyword. *)
Theorem C9_no_keyword_inside_an_issue :
  forall (items : list NewsItem) (area : Area),
    In area (areas items) ->
    (exists p b,
        In (p, b) (buildBuckets items)
        /\ area_place area = p
        /\ issues area = map fst (topN (b_bi b) 10)
        /\ keywords area =
           filter (fun w => negb (existsb (fun i => includes i w) (issues area)))
                  (map fst (topN (b_uni b) 10)))
    /\ (forall w i, In w (keywords area) -> In i (issues area) ->
          ~ exists pre post, i = pre ++ w ++ post)
    /\ (forall a b, In (a ++ " " ++ b) (issues area) ->
          ~ In a (keywords area) /\ ~ In b (keywords area)).
Proof.
  intros items area Hin.
  destruct (areas_from_bucket items area Hin) as (p & b & Hb & ->).
  assert (Hk : forall w i,
             In w (keywords (areaOf (p, b))) -> In i (issues (areaOf (p, b))) ->
             includes i w = false).
  { intros w i Hw Hi. simpl in Hw, Hi. apply filter_In in Hw.
    destruct Hw as [_ Hw]. apply negb_true_iff in Hw.
    destruct (includes i w) eqn:E; [|reflexivity].
    assert (Hex : existsb (fun i => includes i w) (map fst (topN (b_bi b) 10)) = true)
      by (apply existsb_exists; now exists i).
    congruence. }
  split; [|split].
  - exists p, b. now repeat split.
  - intros w i Hw Hi Hsub. apply includes_spec in Hsub.
    rewrite (Hk w i Hw Hi) in Hsub. discriminate.
  - intros a c Hi. split; intros Hw.
    + pose proof (Hk _ _ Hw Hi) as H. rewrite includes_left in H. discriminate.
    + pose proof (Hk _ _ Hw Hi) as H. rewrite includes_right in H. discriminate.
Qed.

End Keywords.

Import Host.

Lemma C9_no_keyword_inside_an_issue_witness :
  map (fun a => (area_place a, issues a, keywords a))
      (AnalyseNews.areas plainHostname [boltonHousing; wiganBrief])
  = [(Named "Bolton",
      ["bolton housing"; "housing crisis"; "crisis deepens"; "deepens rents";
       "rents rise"; "rise again"],
      ["wigan"]);
     (Named "Wigan", [], ["wigan"])]
  /\ ~ In "housing"
       (keywords (mkArea (Named "Bolton") 2
          ["bolton housing"; "housing crisis"; "crisis deepens"; "deepens rents";
           "rents rise"; "rise again"]
          ["wigan"] [exampleOf boltonHousing; exampleOf wiganBrief])).
Proof.
  split; [vm_compute; reflexivity|].
  refine (proj2 (proj2 (proj2
    (C9_no_keyword_inside_an_issue plainHostname [boltonHousing; wiganBrief] _ _))
    "bolton" "housing" _)).
  - vm_compute. left. reflexivity.
  - vm_compute. left. reflexivity.
Defined.

End PhraseSpec.

Module PlaceSpec.
Import Js Data RegExp AnalyseNews JsMapFacts RegExpFacts.

Lemma jsval_eqb_eq (x y : jsval) : jsval_eqb x y = true <-> x = y.
Proof.
  destruct x, y; simpl; split; try discriminate; try reflexivity.
  - intros H. apply String.eqb_eq in H. now subst.
  - intros [= ->]. apply String.eqb_refl.
Qed.

Lemma place_eqb_eq (x y : place) : place_eqb x y = true <-> x = y.
Proof.
  destruct x, y; simpl; split; try discriminate.
  - intros H. apply String.eqb_eq in H. now subst.
  - intros [= ->]. apply String.eqb_refl.
  - intros H. apply String.eqb_eq in H. now subst.
  - intros [= ->]. apply String.eqb_refl.
Qed.






Lemma addLookup_empty (tbl : list (string * string)) (a : list place) :
  addLookup tbl "" a = a.
Proof. reflexivity. Qed.

(** The place names are free of regular-expression metacharacters. *)
Lemma places_are_literal :
  forallb (fun p => negb (existsb isMeta (list_ascii_of_string p))) PLACES = true.
Proof. vm_compute. reflexivity. Qed.


Section Places.
Variable URL_hostname : string -> JsError + string.

Local Abbreviation hostnameOf := (AnalyseNews.hostnameOf URL_hostname).
Local Abbreviation inferPlaces := (AnalyseNews.inferPlaces URL_hostname).
Local Abbreviation addToBucket := (AnalyseNews.addToBucket).
Local Abbreviation addItem := (AnalyseNews.addItem URL_hostname).
Local Abbreviation buildBuckets := (AnalyseNews.buildBuckets URL_hostname).
Local Abbreviation areas := (AnalyseNews.areas URL_hostname).
Local Abbreviation itemsOfPlace := (AnalyseNews.itemsOfPlace URL_hostname).


(** On an item as the ingestion stage writes it: [hostnameOf] gives the
    empty string wherever the URL constructor throws, and [inferPlaces]
    then returns the places of the text and of the source alone. *)
Lemma persisted_item_unparseable_link :
  forall (url : string) (e : JsError),
    URL_hostname url = inl e ->
    hostnameOf url = ""
    /\ forall it : NewsItem,
         orEmpty (link it) = url ->
         inferPlaces it =
           (let a := addFromText (itemText it) [] in
            let src := trim (orEmpty (source it)) in
            let a := addLookup SOURCE_TO_PLACE src a in
            if nonEmpty src then addFromText src a else a).
Proof.
  intros url e Hthrow.
  assert (Hh : hostnameOf url = "")
    by (unfold AnalyseNews.hostnameOf; now rewrite Hthrow).
  split; [exact Hh|].
  intros it Hlink. unfold AnalyseNews.inferPlaces. rewrite Hlink, Hh.
  unfold inferPlacesWith. now rewrite addLookup_empty.
Qed.

Lemma has_set_same {K V : Type} (eqb : K -> K -> bool)
  (Heq : forall x y, eqb x y = true <-> x = y) (k : K) (v : V) (m : list (K * V)) :
  JsMap.has eqb k (JsMap.set eqb k v m) = true.
Proof. unfold JsMap.has. now rewrite (get_set_same eqb Heq). Qed.

Lemma addExample_idem (m : list (jsval * Example)) (it : NewsItem) :
  addExample (addExample m it) it = addExample m it.
Proof.
  unfold addExample at 2 3.
  destruct (JsMap.has jsval_eqb (itemKey it) m) eqn:E.
  - unfold addExample. now rewrite E.
  - unfold addExample. now rewrite (has_set_same jsval_eqb jsval_eqb_eq).
Qed.

Lemma itemsAt_addToBucket (it : NewsItem) (uni bi : Counts) (bs : Buckets)
  (p q : place) :
  itemsAt p (addToBucket it uni bi bs q) =
  if place_eqb q p then addExample (itemsAt p bs) it else itemsAt p bs.
Proof.
  unfold itemsAt, AnalyseNews.addToBucket.
  destruct (place_eqb q p) eqn:E.
  - apply place_eqb_eq in E. subst q.
    rewrite (get_set_same place_eqb place_eqb_eq).
    now destruct (JsMap.get place_eqb p bs).
  - assert (Hne : q <> p) by (intros ->; rewrite (proj2 (place_eqb_eq p p) eq_refl) in E; discriminate).
    now rewrite (get_set_other place_eqb place_eqb_eq _ _ _ _ Hne).
Qed.

Lemma place_eqb_sym (p q : place) : place_eqb p q = place_eqb q p.
Proof.
  destruct (place_eqb p q) eqn:E1, (place_eqb q p) eqn:E2; try reflexivity.
  - apply place_eqb_eq in E1. subst.
    rewrite (proj2 (place_eqb_eq q q) eq_refl) in E2. discriminate.
  - apply place_eqb_eq in E2. subst.
    rewrite (proj2 (place_eqb_eq p p) eq_refl) in E1. discriminate.
Qed.

Lemma itemsAt_places (it : NewsItem) (uni bi : Counts) (places : list place)
  (p : place) :
  forall bs : Buckets,
    itemsAt p (fold_left (addToBucket it uni bi) places bs) =
    if existsb (place_eqb p) places
    then addExample (itemsAt p bs) it else itemsAt p bs.
Proof.
  induction places as [|q places IH]; intros bs; [reflexivity|].
  cbn [fold_left existsb]. rewrite IH, itemsAt_addToBucket, (place_eqb_sym p q).
  destruct (place_eqb q p), (existsb (place_eqb p) places); simpl;
    try reflexivity.
  apply addExample_idem.
Qed.

Lemma itemsAt_addItem (bs : Buckets) (it : NewsItem) (p : place) :
  itemsAt p (addItem bs it) =
  if existsb (place_eqb p) (inferPlaces it)
  then addExample (itemsAt p bs) it else itemsAt p bs.
Proof.
  unfold AnalyseNews.addItem.
  destruct (inferPlaces it) as [|q places] eqn:E; [reflexivity|].
  destruct (phrases (title it) (summary it)) as [uni bi].
  apply itemsAt_places.
Qed.

Lemma itemsAt_fold (items : list NewsItem) (p : place) :
  forall bs : Buckets,
    itemsAt p (fold_left addItem items bs) =
    fold_left addExample (itemsOfPlace p items) (itemsAt p bs).
Proof.
  induction items as [|it items IH]; intros bs; [reflexivity|].
  cbn [fold_left]. rewrite IH, itemsAt_addItem.
  unfold AnalyseNews.itemsOfPlace. cbn [filter].
  now destruct (existsb (place_eqb p) (inferPlaces it)).
Qed.

(** The examples of a place are the items mapped to it, filed by key. *)
Lemma itemsAt_buildBuckets (items : list NewsItem) (p : place) :
  itemsAt p (buildBuckets items) = firstByKey (itemsOfPlace p items).
Proof. apply (itemsAt_fold items p JsMap.empty). Qed.








(** Every entry is filed under the key of its example. *)
Lemma firstByKey_keys (l : list NewsItem) :
  forall m : list (jsval * Example),
    (forall k ex, In (k, ex) m -> exampleKey ex = k) ->
    forall k ex, In (k, ex) (fold_left addExample l m) -> exampleKey ex = k.
Proof.
  induction l as [|it l IH]; intros m Hm; [exact Hm|].
  cbn [fold_left]. apply IH. intros k ex Hin. unfold addExample in Hin.
  destruct (JsMap.has jsval_eqb (itemKey it) m); [now apply Hm|].
  apply in_set in Hin. destruct Hin as [[-> ->]|Hin]; [reflexivity | now apply Hm].
Qed.

Lemma get_addExample_keeps (m : list (jsval * Example)) (it : NewsItem)
  (k : jsval) (ex : Example) :
  JsMap.get jsval_eqb k m = Some ex ->
  JsMap.get jsval_eqb k (addExample m it) = Some ex.
Proof.
  intros H. unfold addExample.
  destruct (JsMap.has jsval_eqb (itemKey it) m) eqn:E; [assumption|].
  destruct (jsval_eqb (itemKey it) k) eqn:Ek.
  - apply jsval_eqb_eq in Ek. subst k. unfold JsMap.has in E.
    rewrite H in E. discriminate.
  - rewrite (get_set_other jsval_eqb jsval_eqb_eq); [assumption|].
    intros Hk. rewrite Hk, (proj2 (jsval_eqb_eq k k) eq_refl) in Ek. discriminate.
Qed.

Lemma get_fold_addExample_keeps (l : list NewsItem) (k : jsval) (ex : Example) :
  forall m : list (jsval * Example),
    JsMap.get jsval_eqb k m = Some ex ->
    JsMap.get jsval_eqb k (fold_left addExample l m) = Some ex.
Proof.
  induction l as [|it l IH]; intros m H; [assumption|].
  cbn [fold_left]. apply IH. now apply get_addExample_keeps.
Qed.

(** An item of the list has an entry under its key. *)
Lemma firstByKey_has (l : list NewsItem) (it : NewsItem) :
  forall m : list (jsval * Example),
    In it l ->
    exists ex, JsMap.get jsval_eqb (itemKey it) (fold_left addExample l m) = Some ex.
Proof.
  induction l as [|x l IH]; intros m; [intros []|].
  cbn [fold_left]. intros [->|Hin]; [|now apply IH].
  unfold addExample at 2.
  destruct (JsMap.has jsval_eqb (itemKey it) m) eqn:E.
  - unfold JsMap.has in E.
    destruct (JsMap.get jsval_eqb (itemKey it) m) as [ex|] eqn:Eg; [|discriminate].
    exists ex. now apply get_fold_addExample_keeps.
  - exists (exampleOf it). apply get_fold_addExample_keeps.
    apply (get_set_same jsval_eqb jsval_eqb_eq).
Qed.




End Places.

Import Host.



(** A link that is no URL: the places are those of the text ("Wigan")
    and of the source ("The Bolton News"). *)
Example persisted_item_unparseable_link_example :
  AnalyseNews.hostnameOf plainHostname "not a link" = ""
  /\ AnalyseNews.inferPlaces plainHostname wiganBrief
     = [Named "Wigan"; Named "Bolton"].
Proof.
  assert (H := persisted_item_unparseable_link plainHostname
                 "not a link" (mkError "TypeError" "Invalid URL") eq_refl).
  destruct H as (Hh & Hi). split; [exact Hh|].
  rewrite (Hi wiganBrief eq_refl). vm_compute. reflexivity.
Qed.

End PlaceSpec.

(** ** analyse-news: which records make [inferPlaces] raise *)

Module AnyRecordSpec.
Import Js RegExp AnalyseNews AnyRecord PlaceSpec.

Lemma orEmptyString_ofVal (v : jsval) :
  orEmptyString (ofVal v) = AString (orEmpty v).
Proof.
  destruct v as [| |s]; try reflexivity.
  unfold orEmptyString. simpl. destruct (String.eqb s "") eqn:E; [|reflexivity].
  apply String.eqb_eq in E. now subst.
Qed.

Lemma callTrim_source (v : jsany) :
  TextOrFalsy v <-> exists src, callTrim (orEmptyString v) = inr src.
Proof.
  unfold TextOrFalsy, orEmptyString. split.
  - intros [Hf|[s ->]].
    + rewrite Hf. now exists (trim "").
    + simpl. destruct (negb (String.eqb s "")); simpl; eauto.
  - intros [src H]. destruct (ToBoolean v) eqn:E; [|now left].
    right. destruct v; try discriminate. eauto.
Qed.

Section Spec.
Variable URL_hostname : string -> JsError + string.
Variable ToString : jsany -> JsError + string.

Local Abbreviation toStr := (AnyRecord.toStr ToString).
Local Abbreviation hostnameOfAny := (AnyRecord.hostnameOf URL_hostname ToString).
Local Abbreviation inferPlacesAny := (AnyRecord.inferPlaces URL_hostname ToString).
Local Abbreviation Converts := (AnyRecord.Converts ToString).

(** On an item as the ingestion stage writes it, this [inferPlaces] is
    the one of the analysis. *)
Lemma inferPlaces_ofItem (it : Data.NewsItem) :
  inferPlacesAny (ofItem it) = inr (AnalyseNews.inferPlaces URL_hostname it).
Proof.
  unfold AnyRecord.inferPlaces, ofItem. cbn [title summary link source].
  rewrite !orEmptyString_ofVal. reflexivity.
Qed.

(** C10.  [hostnameOf] gives the empty string for every link that does
    not convert to a string or that the URL constructor rejects, and it
    never throws; [inferPlaces] returns exactly on the records whose
    title and summary convert to a string and whose source is a string
    or falsy, whatever the link; and with an empty host name its places
    are those of the text and of the source alone. *)
Theorem C10_only_title_summary_source_can_raise :
  (forall v : jsany,
      (forall s, toStr v = inr s -> exists e, URL_hostname s = inl e) ->
      hostnameOfAny v = "")
  /\ (forall it : Item,
        Converts (title it) /\ Converts (summary it) /\ TextOrFalsy (source it)
        <-> exists ps, inferPlacesAny it = inr ps)
  /\ (forall (it : Item) (t s src : string),
        toStr (orEmptyString (title it)) = inr t ->
        toStr (orEmptyString (summary it)) = inr s ->
        callTrim (orEmptyString (source it)) = inr src ->
        hostnameOfAny (orEmptyString (link it)) = "" ->
        inferPlacesAny it =
          inr (let a := addFromText (t ++ " " ++ s) [] in
               let a := addLookup SOURCE_TO_PLACE src a in
               if nonEmpty src then addFromText src a else a)).
Proof.
  split; [|split].
  - intros v Hv. unfold AnyRecord.hostnameOf.
    destruct (toStr v) as [e|s] eqn:E; [reflexivity|].
    destruct (Hv s eq_refl) as [e He].
    unfold AnalyseNews.hostnameOf. now rewrite He.
  - intros it. unfold AnyRecord.inferPlaces, AnyRecord.Converts.
    rewrite callTrim_source. split.
    + intros ((t & Ht) & (s & Hs) & (src & Hsrc)).
      rewrite Ht, Hs, Hsrc. eauto.
    + intros (ps & H).
      destruct (toStr (orEmptyString (title it))) as [e|t]; [discriminate|].
      destruct (toStr (orEmptyString (summary it))) as [e|s]; [discriminate|].
      destruct (callTrim (orEmptyString (source it))) as [e|src]; [discriminate|].
      repeat split; eauto.
  - intros it t s src Ht Hs Hsrc Hh. unfold AnyRecord.inferPlaces.
    rewrite Ht, Hs, Hsrc, Hh. now rewrite addLookup_empty.
Qed.

End Spec.

Import Host.

(** A link that is an array: it converts to the empty string, which is
    no URL, the host name is empty, and the places are those of the text
    ("Wigan") and of the source ("The Bolton News"). *)
Lemma C10_only_title_summary_source_can_raise_witness :
  AnyRecord.hostnameOf plainHostname plainToString (AArray []) = ""
  /\ AnyRecord.inferPlaces plainHostname plainToString arrayLink
     = inr [Named "Wigan"; Named "Bolton"].
Proof.
  destruct (C10_only_title_summary_source_can_raise plainHostname
              plainToString) as (Hh & _ & Hi).
  assert (Hhost : AnyRecord.hostnameOf plainHostname plainToString (AArray [])
                  = "").
  { apply Hh. intros s Hs. injection Hs as <-.
    exists (mkError "TypeError" "Invalid URL"). reflexivity. }
  split; [exact Hhost|].
  rewrite (Hi arrayLink "Wigan" "" "The Bolton News" eq_refl eq_refl eq_refl
             Hhost).
  vm_compute. reflexivity.
Defined.

(** C10, as stated, fails: a record whose [source] is the number 42
    makes [inferPlaces] throw a TypeError, with a well-formed link as
    without a link; so does a record whose [title] is an object that
    cannot be converted to a string. *)
Lemma C10_counterexample :
  ToBoolean (source numberedSource) = true
  /\ plainHostname "https://www.theboltonnews.co.uk/news/1"
     = inr "www.theboltonnews.co.uk"
  /\ AnyRecord.inferPlaces plainHostname plainToString numberedSource
     = inl trimError
  /\ AnyRecord.inferPlaces plainHostname plainToString numberedSourceNoLink
     = inl trimError
  /\ AnyRecord.inferPlaces plainHostname plainToString objectTitle
     = inl (mkError "TypeError" "Cannot convert object to primitive value")
  /\ ~ statedTotal plainHostname plainToString.
Proof.
  split; [reflexivity|]. split; [vm_compute; reflexivity|].
  split; [vm_compute; reflexivity|]. split; [vm_compute; reflexivity|].
  split; [vm_compute; reflexivity|].
  intros H. destruct (H numberedSource) as [ps Hps]. vm_compute in Hps.
  discriminate.
Qed.

End AnyRecordSpec.

(* ================================================================== *)
(** * Part III: further properties of the two scripts *)
(* ================================================================== *)

(** ** fetch-news: what [normalize] makes of a summary *)

Module NormalizeProps.
Import Js Data FetchNews.

Lemma singleSpaced_weaken (s : string) :
  singleSpaced true s = true -> singleSpaced false s = true.
Proof.
  destruct s as [|c r]; simpl; [reflexivity|].
  destruct (isWhiteSpace c); [|auto].
  rewrite andb_false_r. discriminate.
Qed.

Lemma collapseFrom_singleSpaced (s : string) :
  forall b, singleSpaced b (collapseFrom b s) = true.
Proof.
  induction s as [|c r IH]; intros b; simpl; [reflexivity|].
  destruct (isWhiteSpace c) eqn:E.
  - destruct b; [apply IH|]. simpl. now rewrite IH.
  - simpl. rewrite E. apply IH.
Qed.

Lemma trimStart_singleSpaced (s : string) :
  forall b, singleSpaced b s = true -> singleSpaced true (trimStart s) = true.
Proof.
  induction s as [|c r IH]; intros b; simpl; [reflexivity|].
  destruct (isWhiteSpace c) eqn:E.
  - rewrite !andb_true_iff. intros [_ H]. now apply (IH true).
  - intros H. simpl. now rewrite E.
Qed.

Lemma trimEnd_singleSpaced (s : string) :
  forall b, singleSpaced b s = true -> singleSpaced b (trimEnd s) = true.
Proof.
  induction s as [|c r IH]; intros b; [reflexivity|].
  cbn [trimEnd singleSpaced].
  destruct (isWhiteSpace c) eqn:E.
  - rewrite !andb_true_iff. intros [[Hc Hb] H].
    specialize (IH true H). destruct (trimEnd r) as [|d r'] eqn:Er; [reflexivity|].
    cbn [singleSpaced]. rewrite E, Hc, Hb. exact IH.
  - intros H. specialize (IH false H).
    destruct (trimEnd r) as [|d r'] eqn:Er; cbn [singleSpaced]; rewrite E;
      [reflexivity | exact IH].
Qed.

Lemma trimEnd_no_space_at_end (s : string) : endsWithSpace (trimEnd s) = false.
Proof.
  induction s as [|c r IH]; [reflexivity|]. cbn [trimEnd].
  destruct (trimEnd r) as [|d r'] eqn:Er.
  - destruct (isWhiteSpace c) eqn:E; [reflexivity|]. simpl. exact E.
  - exact IH.
Qed.

Lemma tidy_trim_collapse (s : string) :
  tidy (trim (collapseWhiteSpace s)) = true.
Proof.
  unfold tidy, trim, collapseWhiteSpace.
  rewrite trimEnd_no_space_at_end, andb_true_r.
  apply trimEnd_singleSpaced.
  apply (trimStart_singleSpaced _ false), collapseFrom_singleSpaced.
Qed.

Lemma collapseFrom_fixed (s : string) :
  forall b, singleSpaced b s = true -> collapseFrom b s = s.
Proof.
  induction s as [|c r IH]; intros b; simpl; [reflexivity|].
  destruct (isWhiteSpace c) eqn:E.
  - rewrite !andb_true_iff. intros [[Hc Hb] H].
    apply negb_true_iff in Hb. subst b. apply Ascii.eqb_eq in Hc. subst c.
    now rewrite (IH true H).
  - intros H. now rewrite (IH false H).
Qed.

Lemma trimStart_fixed (s : string) :
  singleSpaced true s = true -> trimStart s = s.
Proof.
  destruct s as [|c r]; simpl; [reflexivity|].
  destruct (isWhiteSpace c); [|reflexivity].
  rewrite andb_false_r. discriminate.
Qed.

Lemma trimEnd_fixed (s : string) :
  endsWithSpace s = false -> trimEnd s = s.
Proof.
  induction s as [|c r IH]; [reflexivity|]. cbn [trimEnd endsWithSpace].
  destruct r as [|d r'].
  - simpl. now intros ->.
  - intros H. rewrite (IH H). reflexivity.
Qed.

Lemma tidy_fixed (s : string) :
  tidy s = true -> trim (collapseWhiteSpace s) = s.
Proof.
  unfold tidy, trim, collapseWhiteSpace. rewrite andb_true_iff, negb_true_iff.
  intros [H1 H2].
  rewrite (collapseFrom_fixed s false (singleSpaced_weaken s H1)).
  rewrite (trimStart_fixed s H1). now apply trimEnd_fixed.
Qed.

(** X1.  The summary of a normalized item is a string whose only white
    space is single spaces between other characters (none at the ends, no
    run, no tab or line break), and normalizing it again changes
    nothing. *)
Theorem X1_normalize_summary_is_tidy :
  forall (item : RawEntry) (sourceTitle : jsval),
  exists s : string,
    summary (normalize item sourceTitle) = str s
    /\ tidy s = true
    /\ trim (collapseWhiteSpace s) = s.
Proof.
  intros item sourceTitle. eexists. split; [reflexivity|].
  split; [apply tidy_trim_collapse|]. apply tidy_fixed, tidy_trim_collapse.
Qed.

End NormalizeProps.

(** ** fetch-news: more on de-duplication and ranking *)

Module DedupProps.
Import Js Data FetchNews JsMapFacts JsArrayFacts RegExpFacts DedupSpec Host.

(** A stable sort leaves the items of equal key in their order. *)
Lemma insert_same_key {A : Type} (cmp : A -> A -> Z) (key : A -> Z)
  (c : Z) (x : A) (l : list A) :
  (forall y, In y l -> cmp x y = (key y - key x)%Z) ->
  filter (fun a => (key a =? c)%Z) (JsArray.insert cmp x l)
  = filter (fun a => (key a =? c)%Z) (x :: l).
Proof.
  induction l as [|y r IH]; intros Hc; [reflexivity|].
  cbn [JsArray.insert].
  assert (Hy : cmp x y = (key y - key x)%Z) by (apply Hc; now left).
  destruct (cmp x y <=? 0)%Z eqn:E; [reflexivity|].
  apply Z.leb_gt in E.
  cbn [filter]. rewrite IH by (intros z Hz; apply Hc; now right).
  cbn [filter].
  destruct (key x =? c)%Z eqn:Ex, (key y =? c)%Z eqn:Ey; try reflexivity.
  apply Z.eqb_eq in Ex, Ey. lia.
Qed.

Lemma sort_same_key {A : Type} (cmp : A -> A -> Z) (key : A -> Z)
  (c : Z) (l : list A) :
  (forall x y, In x l -> In y l -> cmp x y = (key y - key x)%Z) ->
  filter (fun a => (key a =? c)%Z) (JsArray.sort cmp l)
  = filter (fun a => (key a =? c)%Z) l.
Proof.
  induction l as [|x r IH]; intros Hc; [reflexivity|].
  cbn [JsArray.sort]. rewrite insert_same_key.
  - cbn [filter]. rewrite IH by (intros a b Ha Hb; apply Hc; now right).
    reflexivity.
  - intros y Hy. apply (Permutation_in _ (sort_perm cmp r)) in Hy.
    apply Hc; [now left | now right].
Qed.

Lemma StronglySorted_app_inv {A : Type} (R : A -> A -> Prop) (a b : list A) :
  StronglySorted R (a ++ b) -> forall x y, In x a -> In y b -> R x y.
Proof.
  induction a as [|z a IH]; intros Hs x y Hx Hy; [destruct Hx|].
  simpl in Hs. apply StronglySorted_inv in Hs. destruct Hs as [Hs Hall].
  destruct Hx as [->|Hx]; [|now apply IH].
  rewrite Forall_forall in Hall. apply Hall. apply in_or_app. now right.
Qed.

Section Props.
Variable Date_parse : string -> option Z.

Local Abbreviation isNewer := (FetchNews.isNewer Date_parse).
Local Abbreviation dedupStep := (FetchNews.dedupStep Date_parse).
Local Abbreviation dedup := (FetchNews.dedup Date_parse).
Local Abbreviation survivors := (FetchNews.survivors Date_parse).
Local Abbreviation byNewest := (FetchNews.byNewest Date_parse).
Local Abbreviation rank := (FetchNews.rank Date_parse).
Local Abbreviation timeOf := (FetchNews.timeOf Date_parse).
Local Abbreviation validDate := (FetchNews.validDate Date_parse).

Lemma existsb_keys_get (k : string) (m : list (string * NewsItem)) :
  existsb (String.eqb k) (JsMap.keys m)
  = match JsMap.get String.eqb k m with Some _ => true | None => false end.
Proof.
  induction m as [|[k' v] r IH]; [reflexivity|]. simpl.
  rewrite (String.eqb_sym k k'). destruct (String.eqb k' k); [reflexivity|].
  exact IH.
Qed.

Lemma keys_dedupStep (m : list (string * NewsItem)) (it : NewsItem) :
  JsMap.keys (dedupStep m it)
  = if existsb (String.eqb (dedupKey it)) (JsMap.keys m) then JsMap.keys m
    else (JsMap.keys m ++ [dedupKey it])%list.
Proof.
  rewrite existsb_keys_get. unfold FetchNews.dedupStep.
  destruct (JsMap.get String.eqb (dedupKey it) m) as [prev|] eqn:E.
  - destruct (isNewer it prev); [|reflexivity].
    apply (keys_set_present String.eqb string_eqb_eq _ _ _ _ E).
  - rewrite (set_absent String.eqb _ _ _ E). unfold JsMap.keys.
    now rewrite map_app.
Qed.

Lemma keys_dedup_fold (all : list NewsItem) :
  forall m : list (string * NewsItem),
    JsMap.keys (fold_left dedupStep all m)
    = fold_left (fun acc k => if existsb (String.eqb k) acc then acc
                              else (acc ++ [k])%list)
                (map dedupKey all) (JsMap.keys m).
Proof.
  induction all as [|it all IH]; intros m; [reflexivity|].
  cbn [fold_left map]. now rewrite IH, keys_dedupStep.
Qed.

(** X2.  The survivors of de-duplication stand in the order in which
    their keys are first seen in the input, whichever item of a key is
    kept. *)
Theorem X2_survivors_in_first_seen_order :
  forall all : list NewsItem,
    map dedupKey (survivors all) = firstSeen (map dedupKey all).
Proof.
  intros all. rewrite (survivors_keys Date_parse).
  apply (keys_dedup_fold all JsMap.empty).
Qed.

Lemma dedup_fold_distinct (l : list NewsItem) :
  forall m : list (string * NewsItem),
    (forall it, In it l -> JsMap.get String.eqb (dedupKey it) m = None) ->
    NoDup (map dedupKey l) ->
    fold_left dedupStep l m = (m ++ map (fun it => (dedupKey it, it)) l)%list.
Proof.
  induction l as [|it l IH]; intros m Hnone Hnd; simpl.
  - now rewrite app_nil_r.
  - inversion Hnd as [|? ? Hnotin Hnd']; subst.
    unfold FetchNews.dedupStep at 2. rewrite (Hnone it (or_introl eq_refl)).
    rewrite IH.
    + rewrite (set_absent String.eqb _ _ _ (Hnone it (or_introl eq_refl))).
      now rewrite <- app_assoc.
    + intros x Hx.
      rewrite (get_set_other String.eqb string_eqb_eq).
      * apply Hnone. now right.
      * intros Heq. apply Hnotin. rewrite Heq. now apply in_map.
    + assumption.
Qed.

Lemma survivors_of_distinct (l : list NewsItem) :
  NoDup (map dedupKey l) -> survivors l = l.
Proof.
  intros Hnd. unfold FetchNews.survivors, FetchNews.dedup.
  rewrite (dedup_fold_distinct l JsMap.empty); [|intros; reflexivity|assumption].
  unfold JsMap.empty, JsMap.values. simpl. rewrite map_map. simpl.
  apply map_id.
Qed.

(** X3.  De-duplication is idempotent, and leaves a list without two
    items of the same key as it is. *)
Theorem X3_dedup_idempotent :
  forall all : list NewsItem,
    survivors (survivors all) = survivors all
    /\ (NoDup (map dedupKey all) -> survivors all = all).
Proof.
  intros all. split; [|apply survivors_of_distinct].
  apply survivors_of_distinct. rewrite (survivors_keys Date_parse).
  apply (Deduped_dedup Date_parse all).
Qed.

Lemma sorted_survivors (all : list NewsItem) :
  (forall it, In it all -> validDate it) ->
  StronglySorted (JsArray.descBy timeOf) (JsArray.sort byNewest (survivors all)).
Proof.
  intros Hvalid. apply (sort_sorted byNewest timeOf). intros x y Hx Hy.
  apply byNewest_valid; apply Hvalid; now apply (survivors_in Date_parse).
Qed.

(** X4.  With valid dates, the cut at 200 drops only the oldest: every
    item left out is no later than every item kept; the list has 200
    items or all the survivors, whichever is less, and with at most 200
    survivors none is lost. *)
Theorem X4_cut_drops_the_oldest :
  forall all : list NewsItem,
    (forall it, In it all -> validDate it) ->
    List.length (rank (dedup all)) = Nat.min 200 (List.length (survivors all))
    /\ (forall x y,
          In x (rank (dedup all)) ->
          In y (skipn 200 (JsArray.sort byNewest (survivors all))) ->
          (timeOf y <= timeOf x)%Z)
    /\ (List.length (survivors all) <= 200 ->
        Permutation (rank (dedup all)) (survivors all)).
Proof.
  intros all Hvalid.
  unfold FetchNews.rank, JsArray.slice0, MAX_ITEMS.
  fold (survivors all).
  pose proof (sort_perm byNewest (survivors all)) as Hperm.
  split; [|split].
  - rewrite length_firstn. now rewrite (Permutation_length Hperm).
  - intros x y Hx Hy.
    pose proof (sorted_survivors all Hvalid) as Hs.
    rewrite <- (firstn_skipn 200) in Hs.
    apply (StronglySorted_app_inv _ _ _ Hs x y Hx Hy).
  - intros Hle. rewrite firstn_all2; [assumption|].
    now rewrite (Permutation_length Hperm).
Qed.

(** X5.  With valid dates the ranking is stable: the items of one and
    the same time stand in the ranked list in the order of the survivors,
    that is, of the first appearance of their keys. *)
Theorem X5_ranking_is_stable :
  forall all : list NewsItem,
    (forall it, In it all -> validDate it) ->
    forall t : Z,
      filter (fun it => (timeOf it =? t)%Z) (JsArray.sort byNewest (survivors all))
      = filter (fun it => (timeOf it =? t)%Z) (survivors all).
Proof.
  intros all Hvalid t. apply sort_same_key. intros x y Hx Hy.
  apply byNewest_valid; apply Hvalid; now apply (survivors_in Date_parse).
Qed.

End Props.

(** Two undated items (of two titles) keep their order behind a dated
    one. *)
Lemma X4_cut_drops_the_oldest_witness :
  List.length (rank isoParse (dedup isoParse [railItem; mondayItem])) = 2
  /\ Permutation (rank isoParse (dedup isoParse [railItem; mondayItem]))
       (survivors isoParse [railItem; mondayItem]).
Proof.
  assert (H := X4_cut_drops_the_oldest isoParse [railItem; mondayItem]).
  destruct H as (Hlen & _ & Hperm).
  - intros it [<-|[<-|[]]]; vm_compute; discriminate.
  - split; [exact Hlen|]. apply Hperm. vm_compute. lia.
Defined.

Lemma X5_ranking_is_stable_witness :
  filter (fun it => (FetchNews.timeOf isoParse it =? 0)%Z)
         (JsArray.sort (byNewest isoParse)
            (survivors isoParse
               [railItem; mondayItem; story "Housing bill passes" null]))
  = [railItem; story "Housing bill passes" null].
Proof.
  rewrite (X5_ranking_is_stable isoParse
             [railItem; mondayItem; story "Housing bill passes" null]).
  - vm_compute. reflexivity.
  - intros it [<-|[<-|[<-|[]]]]; vm_compute; discriminate.
Defined.

End DedupProps.

(** ** fetch-news: what a run reports and what it writes *)

Module FetcherProps.
Import Js Data Classifier FetchNews JsArrayFacts FetcherSpec DedupSpec.

Section Props.
Variable Date_parse : string -> option Z.
Variable World : Type.
Variable delay : Z -> World -> World.
Variable parseURL : string -> World -> (JsError + Feed) * World.

Local Abbreviation tryCandidates := (FetchNews.tryCandidates World delay parseURL).
Local Abbreviation parseWithFallback := (FetchNews.parseWithFallback World delay parseURL).
Local Abbreviation fetchSource := (FetchNews.fetchSource World delay parseURL).
Local Abbreviation collect := (FetchNews.collect World delay parseURL).
Local Abbreviation run := (FetchNews.run Date_parse World delay parseURL).
Local Abbreviation AllFail := (FetchNews.AllFail World delay parseURL).
Local Abbreviation AllEmpty := (FetchNews.AllEmpty World delay parseURL).
Local Abbreviation rank := (FetchNews.rank Date_parse).
Local Abbreviation dedup := (FetchNews.dedup Date_parse).

(** Among failed candidates, the error kept is that of the last one that
    threw. *)
Lemma AllFail_last_thrown (cands : list string) (e0 e : option JsError)
  (w w' : World) :
  AllFail cands e0 w e w' ->
  (e = e0 /\ AllEmpty cands w w')
  \/ (exists pre url post err e1 w1 w2,
         cands = (pre ++ url :: post)%list
         /\ AllFail pre e0 w e1 w1
         /\ parseURL url (delay 100 w1) = (inl err, w2)
         /\ AllEmpty post w2 w'
         /\ e = Some err).
Proof.
  intros H. induction H as [e w | url rest e e' err w w1 w' Hp Hrest IH
                            | url rest e e' feed w w1 w' Hp Hnil Hrest IH].
  - left. split; [reflexivity | constructor].
  - right. destruct IH as [[-> Hempty]
        |(pre & u & post & err' & e1 & w2 & w3 & -> & Hf & Hu & He & ->)].
    + exists [], url, rest, err, e, w, w1. repeat split; try assumption.
      constructor.
    + exists (url :: pre), u, post, err', e1, w2, w3.
      repeat split; try assumption. eapply AllFail_throws; eassumption.
  - destruct IH as [[-> Hempty]
        |(pre & u & post & err' & e1 & w2 & w3 & -> & Hf & Hu & He & ->)].
    + left. split; [reflexivity|]. eapply AllEmpty_next; eassumption.
    + right. exists (url :: pre), u, post, err', e1, w2, w3.
      repeat split; try assumption. eapply AllFail_no_entries; eassumption.
Qed.

(** X6.  When [parseWithFallback] throws, either no candidate threw
    (each answered without entries, or there was none) and the error is
    "All candidates failed", or the error is the one thrown by the last
    candidate that threw, the candidates after it having answered without
    entries. *)
Theorem X6_reports_last_thrown_error :
  forall (cands : list string) (w w' : World) (err : JsError),
    parseWithFallback cands w = (inl err, w') ->
    (AllEmpty cands w w' /\ err = mkError "Error" "All candidates failed")
    \/ (exists pre url post e1 w1 w2,
           cands = (pre ++ url :: post)%list
           /\ AllFail pre None w e1 w1
           /\ parseURL url (delay 100 w1) = (inl err, w2)
           /\ AllEmpty post w2 w').
Proof.
  intros cands w w' err Hr. unfold FetchNews.parseWithFallback in Hr.
  destruct (tryCandidates_inv World delay parseURL cands None w) as
    [(pre & u & post & e' & w1 & f & w2 & _ & _ & _ & _ & Ht)
    |(e' & w'' & Hf & Ht)].
  - rewrite Ht in Hr. discriminate.
  - rewrite Ht in Hr. injection Hr as <- <-.
    destruct (AllFail_last_thrown _ _ _ _ _ Hf) as [[-> Hempty]
        |(pre & u & post & err' & e1 & w2 & w3 & -> & Hf' & Hu & He & ->)].
    + left. now split.
    + right. exists pre, u, post, e1, w2, w3. now repeat split.
Qed.

Lemma fetchSource_shape (src : Source) (w : World) :
  forall got warned w',
    fetchSource src w = (got, warned, w') ->
    (forall it, In it got ->
       isPolitical (title it) (summary it) = true
       /\ exists raw ft, it = normalize raw (jsor ft (str (name src))))
    /\ forallb isWarn warned = true
    /\ List.length warned <= 1.
Proof.
  intros got warned w'. unfold FetchNews.fetchSource.
  destruct (parseWithFallback (candidates src) w) as [[e|[feed url]] w1].
  - intros [= <- <- <-]. split; [intros it []|]. split; [reflexivity | simpl; lia].
  - intros [= <- <- <-]. split; [|split; [reflexivity | simpl; lia]].
    intros it Hit. unfold politicalItems in Hit. apply filter_In in Hit.
    destruct Hit as [Hin Hpol]. split; [assumption|].
    apply in_map_iff in Hin. destruct Hin as (raw & <- & _).
    now exists raw, (feed_title feed).
Qed.

Lemma collect_shape (srcs : list Source) :
  forall w got warned w',
    collect srcs w = (got, warned, w') ->
    (forall it, In it got ->
       isPolitical (title it) (summary it) = true
       /\ exists src raw ft,
            In src srcs /\ it = normalize raw (jsor ft (str (name src))))
    /\ forallb isWarn warned = true
    /\ List.length warned <= List.length srcs.
Proof.
  induction srcs as [|s srcs IH]; intros w got warned w'; simpl.
  - intros [= <- <- <-]. split; [intros it []|]. split; [reflexivity | simpl; lia].
  - destruct (fetchSource s w) as [[g0 l0] w0] eqn:Hs.
    destruct (collect srcs w0) as [[g1 l1] w1] eqn:Hc.
    intros [= <- <- <-].
    destruct (fetchSource_shape s w _ _ _ Hs) as (Hg0 & Hl0 & Hn0).
    destruct (IH _ _ _ _ Hc) as (Hg1 & Hl1 & Hn1).
    split; [|split].
    + intros it Hit. apply in_app_or in Hit. destruct Hit as [Hit|Hit].
      * destruct (Hg0 it Hit) as (Hpol & raw & ft & ->).
        split; [assumption|]. exists s, raw, ft. split; [now left | reflexivity].
      * destruct (Hg1 it Hit) as (Hpol & src & raw & ft & Hin & ->).
        split; [assumption|]. exists src, raw, ft. split; [now right | reflexivity].
    + now rewrite forallb_app, Hl0, Hl1.
    + rewrite length_app. lia.
Qed.


(** X7.  A run over any list of sources ends with one write of the
    artifact followed by the log of its size; before it come only
    warnings, at most one per source; and the artifact has at most 200
    items. *)
Theorem X7_one_write_after_the_warnings :
  forall (srcs : list Source) (w : World),
  exists warned items w',
    run srcs w = ((warned ++ [WriteFile newsPath items;
                              LogWrote (List.length items)])%list, w')
    /\ forallb isWarn warned = true
    /\ List.length warned <= List.length srcs
    /\ List.length items <= 200.
Proof.
  intros srcs w. unfold FetchNews.run.
  destruct (collect srcs w) as [[all warned] w'] eqn:Hc.
  destruct (collect_shape srcs w _ _ _ Hc) as (_ & Hw & Hn).
  exists warned, (rank (dedup all)), w'.
  split; [reflexivity|]. split; [assumption|]. split; [assumption|].
  apply firstn_le_length.
Qed.





End Props.

Import Host.

(** The dead candidate throws, the empty one answers without entries:
    the error of the dead one is reported. *)
Lemma X6_reports_last_thrown_error_witness :
  FetchNews.parseWithFallback Requests noDelay (tableNet deadNet)
    (candidates deadSource) []
  = (inl (mkError "Error" "getaddrinfo ENOTFOUND https://dead.example/rss"),
     ["https://empty.example/rss"; "https://dead.example/rss"])
  /\ ((FetchNews.AllEmpty Requests noDelay (tableNet deadNet)
         (candidates deadSource) []
         ["https://empty.example/rss"; "https://dead.example/rss"]
       /\ mkError "Error" "getaddrinfo ENOTFOUND https://dead.example/rss"
          = mkError "Error" "All candidates failed")
      \/ (exists pre url post e1 w1 w2,
             candidates deadSource = (pre ++ url :: post)%list
             /\ FetchNews.AllFail Requests noDelay (tableNet deadNet) pre None [] e1 w1
             /\ tableNet deadNet url (noDelay 100 w1)
                = (inl (mkError "Error" "getaddrinfo ENOTFOUND https://dead.example/rss"), w2)
             /\ FetchNews.AllEmpty Requests noDelay (tableNet deadNet) post w2
                  ["https://empty.example/rss"; "https://dead.example/rss"])).
Proof.
  split; [reflexivity|].
  exact (X6_reports_last_thrown_error Requests noDelay (tableNet deadNet)
           (candidates deadSource) [] _ _ eq_refl).
Defined.


End FetcherProps.

(** ** analyse-news: the shape of the tokens *)

Module TokenProps.
Import Js Data AnalyseNews.

Lemma sforall_smap (f : ascii -> ascii) (P : ascii -> bool) (s : string) :
  (forall c, P (f c) = true) -> sforall P (smap f s) = true.
Proof.
  intros H. induction s as [|c r IH]; simpl; [reflexivity|].
  now rewrite H, IH.
Qed.

Lemma keepPlain_chars (s : string) :
  sforall (fun c => tokenChar c || isWhiteSpace c) (keepPlain s) = true.
Proof.
  unfold keepPlain. apply sforall_smap. intros c. unfold tokenChar.
  destruct (isAsciiLower c) eqn:E1; [simpl; now rewrite E1|].
  destruct (isDigit c) eqn:E2; [simpl; now rewrite E1, E2|].
  destruct (isWhiteSpace c) eqn:E3;
    [simpl; rewrite E1, E2, E3; now rewrite orb_true_r|].
  destruct (Ascii.eqb c "-") eqn:E4; simpl; [now rewrite E1, E2, E4|].
  reflexivity.
Qed.

(** The pieces of a split have the characters of the text that are not
    white space. *)
Lemma splitWhiteSpace_pieces (P : ascii -> bool) (s : string) :
  sforall (fun c => P c || isWhiteSpace c) s = true ->
  Forall (fun t => sforall (fun c => P c && negb (isWhiteSpace c)) t = true)
         (splitWhiteSpace s).
Proof.
  induction s as [|c r IH]; intros H.
  - repeat constructor.
  - cbn [sforall] in H. apply andb_true_iff in H. destruct H as [Hc Hr].
    specialize (IH Hr). cbn [splitWhiteSpace].
    destruct (isWhiteSpace c) eqn:E.
    + destruct (hd_char r) as [d|]; [destruct (isWhiteSpace d)|];
        try assumption; now constructor.
    + rewrite orb_false_r in Hc.
      destruct (splitWhiteSpace r) as [|t ts].
      * repeat constructor. simpl. now rewrite Hc, E.
      * inversion IH as [|? ? Ht Hts]; subst. constructor; [|assumption].
        simpl. now rewrite Hc, E, Ht.
Qed.

Lemma sforall_impl (P Q : ascii -> bool) (s : string) :
  (forall c, P c = true -> Q c = true) ->
  sforall P s = true -> sforall Q s = true.
Proof.
  intros H. induction s as [|c r IH]; simpl; [reflexivity|].
  rewrite !andb_true_iff. intros [Hc Hr]. split; [now apply H | now apply IH].
Qed.

Lemma tokens_shape (s : string) (w : string) :
  In w (tokens s) ->
  w <> "" /\ sforall tokenChar w = true /\ sforall (fun c => negb (isWhiteSpace c)) w = true.
Proof.
  unfold tokens. intros H. apply filter_In in H. destruct H as [Hin Hne].
  split.
  - intros ->. discriminate.
  - pose proof (splitWhiteSpace_pieces tokenChar _
                  (keepPlain_chars (stripUrls (toLowerCase s)))) as Hall.
    rewrite Forall_forall in Hall. specialize (Hall w Hin).
    split; (eapply sforall_impl; [|exact Hall]); intros c Hc;
      apply andb_true_iff in Hc; tauto.
Qed.

(** X9.  Every token that enters the frequency tables is made of
    lower-case letters, digits and hyphens only (no white space, no
    capital, no punctuation), has at least three characters, is not a
    stop-word and is not a number. *)
Theorem X9_content_tokens_are_plain_words :
  forall (title summary : jsval) (w : string),
    In w (contentTokens title summary) ->
    sforall tokenChar w = true
    /\ sforall (fun c => negb (isWhiteSpace c)) w = true
    /\ 3 <= String.length w
    /\ ~ In w STOP
    /\ sforall isDigit w = false.
Proof.
  intros title summary w H. unfold contentTokens in H.
  apply filter_In in H. destruct H as [Hin Hc].
  destruct (tokens_shape _ _ Hin) as (Hne & Hplain & Hws).
  unfold isContent in Hc. apply andb_true_iff in Hc. destruct Hc as [Hc Hd].
  apply andb_true_iff in Hc. destruct Hc as [Hlen Hstop].
  split; [assumption|]. split; [assumption|]. split; [|split].
  - apply Nat.ltb_lt in Hlen. lia.
  - intros Hin'. apply negb_true_iff in Hstop.
    assert (E : existsb (String.eqb w) STOP = true).
    { apply existsb_exists. exists w. split; [assumption | apply String.eqb_refl]. }
    congruence.
  - apply negb_true_iff in Hd. unfold allDigits in Hd.
    apply andb_false_iff in Hd. destruct Hd as [Hd|Hd]; [|assumption].
    unfold nonEmpty in Hd. apply negb_false_iff, String.eqb_eq in Hd.
    contradiction.
Qed.

Lemma X9_content_tokens_are_plain_words_witness :
  contentTokens (str "Council Tax: RISE of 5% hits over-60s!") (str "see https://x.example/a")
  = ["tax"; "rise"; "hits"; "over-60s"; "see"]
  /\ 3 <= String.length "over-60s" /\ ~ In "over-60s" STOP.
Proof.
  split; [vm_compute; reflexivity|].
  refine ((fun H => conj (proj1 (proj2 (proj2 H))) (proj1 (proj2 (proj2 (proj2 H)))))
            (X9_content_tokens_are_plain_words
               (str "Council Tax: RISE of 5% hits over-60s!")
               (str "see https://x.example/a") "over-60s" _)).
  vm_compute. tauto.
Defined.

End TokenProps.

(** ** analyse-news: the places of an item *)

Module PlaceProps.
Import Js Data RegExp AnalyseNews JsMapFacts RegExpFacts PlaceSpec.


Lemma NoDup_setAdd (a : list place) (y : place) :
  NoDup a -> NoDup (setAdd a y).
Proof.
  intros Hnd. unfold setAdd. destruct (existsb (place_eqb y) a) eqn:E;
    [assumption|].
  apply NoDup_rev in Hnd. rewrite <- (rev_involutive (a ++ [y])).
  apply NoDup_rev. rewrite rev_app_distr. simpl. constructor; [|assumption].
  rewrite <- in_rev. intros Hin.
  assert (Ex : existsb (place_eqb y) a = true).
  { apply existsb_exists. exists y. split; [assumption|]. now apply place_eqb_eq. }
  congruence.
Qed.


Lemma NoDup_fold_setAdd (l a : list place) :
  NoDup a -> NoDup (fold_left setAdd l a).
Proof.
  revert a. induction l as [|y l IH]; intros a H; simpl; [assumption|].
  apply IH. now apply NoDup_setAdd.
Qed.



Lemma NoDup_addLookup (tbl : list (string * string)) (key : string)
  (a : list place) :
  NoDup a -> NoDup (addLookup tbl key a).
Proof.
  intros H. unfold addLookup.
  destruct (nonEmpty key && placeTruthy (objGet tbl key)); [|assumption].
  destruct (objGet tbl key); [now apply NoDup_setAdd | assumption].
Qed.

Section Props.
Variable URL_hostname : string -> JsError + string.

Local Abbreviation hostnameOf := (AnalyseNews.hostnameOf URL_hostname).
Local Abbreviation inferPlaces := (AnalyseNews.inferPlaces URL_hostname).
Local Abbreviation addItem := (AnalyseNews.addItem URL_hostname).
Local Abbreviation buildBuckets := (AnalyseNews.buildBuckets URL_hostname).
Local Abbreviation areas := (AnalyseNews.areas URL_hostname).

Lemma NoDup_inferPlaces (it : NewsItem) : NoDup (inferPlaces it).
Proof.
  unfold AnalyseNews.inferPlaces, inferPlacesWith.
  assert (H : NoDup (addLookup SOURCE_TO_PLACE (trim (orEmpty (source it)))
                       (addLookup DOMAIN_TO_PLACE (hostnameOf (orEmpty (link it)))
                          (addFromText (itemText it) [])))).
  { apply NoDup_addLookup, NoDup_addLookup. unfold addFromText.
    apply NoDup_fold_setAdd. constructor. }
  destruct (nonEmpty (trim (orEmpty (source it)))); [|exact H].
  unfold addFromText at 1. now apply NoDup_fold_setAdd.
Qed.


(** X11.  An item for which no place is found leaves the aggregate as it
    is: the areas written are those of the list without it. *)
Theorem X11_item_without_place_changes_nothing :
  forall (before after : list NewsItem) (it : NewsItem),
    inferPlaces it = [] ->
    buildBuckets (before ++ it :: after) = buildBuckets (before ++ after)
    /\ areas (before ++ it :: after) = areas (before ++ after).
Proof.
  intros before after it Hnone.
  assert (Hb : buildBuckets (before ++ it :: after) = buildBuckets (before ++ after)).
  { unfold AnalyseNews.buildBuckets. rewrite !fold_left_app. cbn [fold_left].
    unfold AnalyseNews.addItem at 2. now rewrite Hnone. }
  split; [exact Hb|]. unfold AnalyseNews.areas. now rewrite Hb.
Qed.

End Props.

Import Host.

Lemma X11_item_without_place_changes_nothing_witness :
  AnalyseNews.areas plainHostname [boltonHousing; undatedItem; wiganBrief]
  = AnalyseNews.areas plainHostname [boltonHousing; wiganBrief].
Proof.
  apply (X11_item_without_place_changes_nothing plainHostname
           [boltonHousing] [wiganBrief] undatedItem).
  vm_compute. reflexivity.
Defined.

End PlaceProps.

(** ** analyse-news: the areas and their buckets *)

Module BucketProps.
Import Js Data RegExp AnalyseNews JsMapFacts JsArrayFacts RegExpFacts.
Import PlaceSpec PhraseSpec DedupProps PlaceProps.

Lemma has_iff_key {K V : Type} (eqb : K -> K -> bool)
  (Heq : forall x y, eqb x y = true <-> x = y) (k : K) (m : list (K * V)) :
  JsMap.has eqb k m = true <-> In k (JsMap.keys m).
Proof.
  unfold JsMap.has. split.
  - destruct (JsMap.get eqb k m) as [v|] eqn:E; [|discriminate]. intros _.
    apply (get_in eqb Heq) in E. change k with (fst (k, v)). now apply in_map.
  - intros H. destruct (in_keys_get eqb Heq k m H) as (v & ->). reflexivity.
Qed.

Lemma NoDup_firstn {A : Type} (n : nat) (l : list A) :
  NoDup l -> NoDup (firstn n l).
Proof.
  intros H. revert n. induction H as [|x l Hx Hl IH]; intros [|n]; simpl;
    try constructor.
  - intros Hin. apply Hx. now apply In_firstn in Hin.
  - apply IH.
Qed.

Lemma filter_length_bound {A : Type} (f : A -> bool) (l : list A) :
  List.length (filter f l) <= List.length l.
Proof.
  induction l as [|x l IH]; simpl; [lia|]. destruct (f x); simpl; lia.
Qed.

Section Props.
Variable URL_hostname : string -> JsError + string.

Local Abbreviation inferPlaces := (AnalyseNews.inferPlaces URL_hostname).
Local Abbreviation addToBucket := (AnalyseNews.addToBucket).
Local Abbreviation addItem := (AnalyseNews.addItem URL_hostname).
Local Abbreviation buildBuckets := (AnalyseNews.buildBuckets URL_hostname).
Local Abbreviation areas := (AnalyseNews.areas URL_hostname).
Local Abbreviation itemsOfPlace := (AnalyseNews.itemsOfPlace URL_hostname).

Lemma has_addToBucket_eq (it : NewsItem) (uni bi : Counts) (bs : Buckets)
  (p q : place) :
  JsMap.has place_eqb p (addToBucket it uni bi bs q)
  = place_eqb p q || JsMap.has place_eqb p bs.
Proof.
  unfold JsMap.has, AnalyseNews.addToBucket. rewrite (place_eqb_sym p q).
  destruct (place_eqb q p) eqn:E.
  - apply place_eqb_eq in E. subst q.
    now rewrite (get_set_same place_eqb place_eqb_eq).
  - assert (Hne : q <> p)
      by (intros ->; rewrite (proj2 (place_eqb_eq p p) eq_refl) in E; discriminate).
    now rewrite (get_set_other place_eqb place_eqb_eq _ _ _ _ Hne).
Qed.

Lemma has_places_eq (it : NewsItem) (uni bi : Counts) (places : list place)
  (p : place) :
  forall bs : Buckets,
    JsMap.has place_eqb p (fold_left (addToBucket it uni bi) places bs)
    = existsb (place_eqb p) places || JsMap.has place_eqb p bs.
Proof.
  induction places as [|q places IH]; intros bs; [reflexivity|].
  cbn [fold_left existsb]. rewrite IH, has_addToBucket_eq.
  destruct (place_eqb p q), (existsb (place_eqb p) places); reflexivity.
Qed.

Lemma has_addItem_eq (bs : Buckets) (it : NewsItem) (p : place) :
  JsMap.has place_eqb p (addItem bs it)
  = existsb (place_eqb p) (inferPlaces it) || JsMap.has place_eqb p bs.
Proof.
  unfold AnalyseNews.addItem.
  destruct (inferPlaces it) as [|q places] eqn:E; [reflexivity|].
  destruct (phrases (title it) (summary it)) as [uni bi].
  apply has_places_eq.
Qed.

Lemma has_fold_eq (items : list NewsItem) (p : place) :
  forall bs : Buckets,
    JsMap.has place_eqb p (fold_left addItem items bs)
    = existsb (fun it => existsb (place_eqb p) (inferPlaces it)) items
      || JsMap.has place_eqb p bs.
Proof.
  induction items as [|it items IH]; intros bs; [reflexivity|].
  cbn [fold_left existsb]. rewrite IH, has_addItem_eq.
  destruct (existsb (place_eqb p) (inferPlaces it)),
           (existsb (fun it0 => existsb (place_eqb p) (inferPlaces it0)) items);
    reflexivity.
Qed.

(** A place has a bucket exactly when it is a place of some item. *)
Lemma bucket_iff_item (items : list NewsItem) (p : place) :
  In p (JsMap.keys (buildBuckets items)) <->
  exists it, In it items /\ In p (inferPlaces it).
Proof.
  rewrite <- (has_iff_key place_eqb place_eqb_eq).
  unfold AnalyseNews.buildBuckets. rewrite has_fold_eq, orb_false_r.
  rewrite existsb_exists. split.
  - intros (it & Hin & Hp). exists it. split; [assumption|].
    apply existsb_exists in Hp. destruct Hp as (q & Hq & Heq).
    apply place_eqb_eq in Heq. now subst.
  - intros (it & Hin & Hp). exists it. split; [assumption|].
    apply existsb_exists. exists p. split; [assumption|]. now apply place_eqb_eq.
Qed.

Lemma NoDup_keys_places (it : NewsItem) (uni bi : Counts) (places : list place) :
  forall bs : Buckets,
    NoDup (JsMap.keys bs) ->
    NoDup (JsMap.keys (fold_left (addToBucket it uni bi) places bs)).
Proof.
  induction places as [|q places IH]; intros bs H; [assumption|].
  cbn [fold_left]. apply IH. unfold AnalyseNews.addToBucket.
  now apply (NoDup_keys_set place_eqb place_eqb_eq).
Qed.

Lemma NoDup_keys_buckets (items : list NewsItem) :
  NoDup (JsMap.keys (buildBuckets items)).
Proof.
  unfold AnalyseNews.buildBuckets.
  assert (H : NoDup (JsMap.keys (@JsMap.empty place Bucket))) by constructor.
  revert H. generalize (@JsMap.empty place Bucket).
  induction items as [|it items IH]; intros bs H; [assumption|].
  cbn [fold_left]. apply IH. unfold AnalyseNews.addItem.
  destruct (inferPlaces it) as [|q places]; [assumption|].
  destruct (phrases (title it) (summary it)) as [uni bi].
  now apply NoDup_keys_places.
Qed.

Lemma areas_places (items : list NewsItem) :
  Permutation (map area_place (areas items)) (JsMap.keys (buildBuckets items)).
Proof.
  unfold AnalyseNews.areas.
  rewrite (Permutation_map area_place (sort_perm bySampleCount _)).
  rewrite map_map. unfold JsMap.keys.
  erewrite map_ext; [reflexivity|]. now intros [p b].
Qed.

Lemma bySampleCount_volume (a b : Area) :
  bySampleCount a b = (volume b - volume a)%Z.
Proof. reflexivity. Qed.

(** X12.  The areas written are one per place, for exactly the places
    found for some item of the input; they stand in non-increasing order
    of [sampleCount], and areas of equal [sampleCount] in the order in
    which their buckets were created. *)
Theorem X12_one_area_per_place_by_volume :
  forall items : list NewsItem,
    NoDup (map area_place (areas items))
    /\ (forall p, In p (map area_place (areas items)) <->
                  exists it, In it items /\ In p (inferPlaces it))
    /\ StronglySorted (fun a b => sampleCount b <= sampleCount a) (areas items)
    /\ (forall n, filter (fun a => (volume a =? n)%Z) (areas items)
                  = filter (fun a => (volume a =? n)%Z)
                           (map areaOf (buildBuckets items))).
Proof.
  intros items. split; [|split; [|split]].
  - apply (Permutation_NoDup (Permutation_sym (areas_places items))).
    apply NoDup_keys_buckets.
  - intros p. rewrite <- bucket_iff_item. split; intros H.
    + now apply (Permutation_in _ (areas_places items)).
    + now apply (Permutation_in _ (Permutation_sym (areas_places items))).
  - assert (Hs : StronglySorted (JsArray.descBy volume) (areas items)).
    { apply (sort_sorted bySampleCount volume). intros; apply bySampleCount_volume. }
    clear -Hs. induction Hs as [|a l Hs IH Hall]; constructor; [assumption|].
    eapply Forall_impl; [|exact Hall]. unfold JsArray.descBy, volume.
    intros b Hb. lia.
  - intros n. apply sort_same_key. intros; apply bySampleCount_volume.
Qed.

(** *** What a bucket holds *)

Lemma bucket_items (items : list NewsItem) (p : place) (b : Bucket) :
  In (p, b) (buildBuckets items) ->
  JsMap.get place_eqb p (buildBuckets items) = Some b
  /\ b_items b = firstByKey (itemsOfPlace p items)
  /\ exists it, In it items /\ In p (inferPlaces it)
                /\ In it (itemsOfPlace p items).
Proof.
  intros Hin.
  assert (Hget : JsMap.get place_eqb p (buildBuckets items) = Some b)
    by (apply (in_get place_eqb place_eqb_eq); [apply NoDup_keys_buckets | assumption]).
  split; [assumption|]. split.
  - pose proof (itemsAt_buildBuckets URL_hostname items p) as H.
    unfold itemsAt in H. now rewrite Hget in H.
  - assert (Hk : In p (JsMap.keys (buildBuckets items)))
      by (change p with (fst (p, b)); now apply in_map).
    apply bucket_iff_item in Hk. destruct Hk as (it & Hit & Hp).
    exists it. split; [assumption|]. split; [assumption|].
    unfold AnalyseNews.itemsOfPlace. apply filter_In. split; [assumption|].
    apply existsb_exists. exists p. split; [assumption|]. now apply place_eqb_eq.
Qed.

Lemma NoDup_keys_addExample (m : list (jsval * Example)) (it : NewsItem) :
  NoDup (JsMap.keys m) -> NoDup (JsMap.keys (addExample m it)).
Proof.
  intros H. unfold addExample.
  destruct (JsMap.has jsval_eqb (itemKey it) m); [assumption|].
  now apply (NoDup_keys_set jsval_eqb jsval_eqb_eq).
Qed.

Lemma NoDup_keys_firstByKey (l : list NewsItem) :
  NoDup (JsMap.keys (firstByKey l)).
Proof.
  unfold firstByKey.
  assert (H : NoDup (JsMap.keys (@JsMap.empty jsval Example))) by constructor.
  revert H. generalize (@JsMap.empty jsval Example).
  induction l as [|it l IH]; intros m H; [assumption|].
  cbn [fold_left]. apply IH. now apply NoDup_keys_addExample.
Qed.

Lemma firstByKey_example_keys (l : list NewsItem) :
  map exampleKey (JsMap.values (firstByKey l)) = JsMap.keys (firstByKey l).
Proof.
  assert (H : forall k ex, In (k, ex) (firstByKey l) -> exampleKey ex = k).
  { apply (firstByKey_keys l JsMap.empty). intros k ex []. }
  unfold JsMap.values, JsMap.keys. rewrite map_map.
  induction (firstByKey l) as [|[k ex] r IH]; [reflexivity|]. simpl.
  rewrite (H k ex (or_introl eq_refl)), IH; [reflexivity|].
  intros k' ex' Hin. apply H. now right.
Qed.

Lemma length_fold_addExample (l : list NewsItem) :
  forall m : list (jsval * Example),
    List.length (fold_left addExample l m) <= List.length m + List.length l.
Proof.
  induction l as [|it l IH]; intros m; simpl; [lia|].
  specialize (IH (addExample m it)).
  assert (H : List.length (addExample m it) <= S (List.length m)).
  { unfold addExample. destruct (JsMap.has jsval_eqb (itemKey it) m) eqn:E; [lia|].
    unfold JsMap.has in E.
    destruct (JsMap.get jsval_eqb (itemKey it) m) eqn:Eg; [discriminate|].
    rewrite (set_absent jsval_eqb _ _ _ Eg), length_app. simpl. lia. }
  lia.
Qed.

Lemma NoDup_keys_bump (m : Counts) (kv : string * nat) :
  NoDup (JsMap.keys m) -> NoDup (JsMap.keys (bump m kv)).
Proof.
  destruct kv as [k v]. unfold bump.
  apply (NoDup_keys_set String.eqb string_eqb_eq).
Qed.

Lemma NoDup_keys_fold_bump (tbl : Counts) :
  forall m : Counts,
    NoDup (JsMap.keys m) -> NoDup (JsMap.keys (fold_left bump tbl m)).
Proof.
  induction tbl as [|kv tbl IH]; intros m H; [assumption|].
  cbn [fold_left]. apply IH. now apply NoDup_keys_bump.
Qed.

Lemma NoDup_keys_tally (ws : list string) : NoDup (JsMap.keys (tally ws)).
Proof.
  unfold tally.
  assert (H : NoDup (JsMap.keys (@JsMap.empty string nat))) by constructor.
  revert H. generalize (@JsMap.empty string nat).
  induction ws as [|w ws IH]; intros m H; [assumption|].
  cbn [fold_left]. apply IH. now apply (NoDup_keys_bump m (w, 1)).
Qed.

Lemma WellKeyed_addToBucket (it : NewsItem) (uni bi : Counts) (bs : Buckets)
  (q : place) :
  WellKeyed bs -> WellKeyed (addToBucket it uni bi bs q).
Proof.
  intros H p b Hin. unfold AnalyseNews.addToBucket in Hin.
  apply in_set in Hin. destruct Hin as [[-> ->]|Hin]; [|now apply (H p b)].
  assert (H0 : NoDup (JsMap.keys (b_uni (match JsMap.get place_eqb q bs with
                                         | Some b => b | None => emptyBucket end)))
               /\ NoDup (JsMap.keys (b_bi (match JsMap.get place_eqb q bs with
                                           | Some b => b | None => emptyBucket end)))).
  { destruct (JsMap.get place_eqb q bs) as [b0|] eqn:E.
    - apply (get_in place_eqb place_eqb_eq) in E. now apply (H q b0).
    - split; constructor. }
  destruct H0 as [Hu Hb]. cbn [b_uni b_bi].
  split; now apply NoDup_keys_fold_bump.
Qed.

Lemma WellKeyed_buckets (items : list NewsItem) : WellKeyed (buildBuckets items).
Proof.
  unfold AnalyseNews.buildBuckets.
  assert (H : WellKeyed (@JsMap.empty place Bucket)) by (intros p b []).
  revert H. generalize (@JsMap.empty place Bucket).
  induction items as [|it items IH]; intros bs H; [assumption|].
  cbn [fold_left]. apply IH. unfold AnalyseNews.addItem.
  destruct (inferPlaces it) as [|q places]; [assumption|].
  destruct (phrases (title it) (summary it)) as [uni bi].
  generalize (q :: places). intros l. revert bs H.
  induction l as [|r l IHl]; intros bs H; [assumption|].
  cbn [fold_left]. apply IHl. now apply WellKeyed_addToBucket.
Qed.

Lemma topN_keys_NoDup (m : Counts) (n : nat) :
  NoDup (JsMap.keys m) -> NoDup (map fst (topN m n)).
Proof.
  intros H. unfold topN, JsArray.slice0. rewrite <- firstn_map.
  apply NoDup_firstn.
  apply (Permutation_NoDup
           (Permutation_sym (Permutation_map fst (sort_perm byCount m)))).
  exact H.
Qed.

Lemma topN_length (m : Counts) (n : nat) : List.length (topN m n) <= n.
Proof. apply firstn_le_length. Qed.

(** X13.  In every area written: [sampleCount] is at least 1;
    [examples] has 8 entries or [sampleCount], whichever is less, no two
    of them under the same link (or title, without a link); there are at
    most 10 issues and at most 10 keywords, none listed twice. *)
Theorem X13_area_bounds :
  forall (items : list NewsItem) (area : Area),
    In area (areas items) ->
    1 <= sampleCount area
    /\ List.length (examples area) = Nat.min 8 (sampleCount area)
    /\ NoDup (map exampleKey (examples area))
    /\ List.length (issues area) <= 10
    /\ List.length (keywords area) <= 10
    /\ NoDup (issues area)
    /\ NoDup (keywords area).
Proof.
  intros items area Hin.
  destruct (areas_from_bucket URL_hostname items area Hin) as (p & b & Hb & ->).
  destruct (bucket_items items p b Hb) as (_ & Hitems & it & _ & _ & Hmem).
  destruct (WellKeyed_buckets items p b Hb) as [Hu Hbi].
  unfold areaOf. cbn [sampleCount examples issues keywords].
  rewrite Hitems. unfold JsArray.slice0, JsMap.size.
  split; [|split; [|split; [|split; [|split; [|split]]]]].
  - destruct (firstByKey_has _ it JsMap.empty Hmem) as (ex & Hex).
    fold (firstByKey (itemsOfPlace p items)) in Hex.
    apply (get_in jsval_eqb jsval_eqb_eq) in Hex.
    destruct (firstByKey (itemsOfPlace p items)); [destruct Hex | simpl; lia].
  - rewrite length_firstn. unfold JsMap.values. now rewrite length_map.
  - rewrite <- firstn_map. apply NoDup_firstn.
    rewrite firstByKey_example_keys. apply NoDup_keys_firstByKey.
  - rewrite length_map. apply topN_length.
  - eapply Nat.le_trans; [apply filter_length_bound|].
    rewrite length_map. apply topN_length.
  - now apply topN_keys_NoDup.
  - apply NoDup_filter. now apply topN_keys_NoDup.
Qed.

End Props.

Import Host.

Lemma X13_area_bounds_witness :
  1 <= sampleCount (hd (mkArea (Named "") 0 [] [] [])
                       (AnalyseNews.areas plainHostname nineItems))
  /\ List.length (examples (hd (mkArea (Named "") 0 [] [] [])
                              (AnalyseNews.areas plainHostname nineItems)))
     = Nat.min 8 9.
Proof.
  assert (Hin : In (hd (mkArea (Named "") 0 [] [] [])
                       (AnalyseNews.areas plainHostname nineItems))
                   (AnalyseNews.areas plainHostname nineItems))
    by (vm_compute; left; reflexivity).
  pose proof (X13_area_bounds plainHostname nineItems _ Hin) as H.
  split; [exact (proj1 H)|].
  exact (eq_trans (proj1 (proj2 H)) ltac:(vm_compute; reflexivity)).
Defined.

End BucketProps.

(** ** analyse-news: the frequency tables of a bucket *)

Module CountProps.
Import Js Data RegExp AnalyseNews JsMapFacts JsArrayFacts RegExpFacts.
Import PlaceSpec PhraseSpec DedupProps PlaceProps BucketProps.

Lemma countOf_bump (m : Counts) (w k : string) (v : nat) :
  countOf (bump m (w, v)) k
  = if String.eqb w k then countOf m k + v else countOf m k.
Proof.
  unfold countOf at 1. rewrite get_bump.
  destruct (String.eqb w k) eqn:E; [|reflexivity].
  apply String.eqb_eq in E. now subst.
Qed.

Lemma countOf_fold_bump (tbl : Counts) (k : string) :
  forall m : Counts,
    countOf (fold_left bump tbl m) k = countOf m k + gain tbl k.
Proof.
  unfold gain. induction tbl as [|[w v] tbl IH]; intros m; [simpl; lia|].
  cbn [fold_left]. rewrite IH, countOf_bump. cbn [filter fst].
  destruct (String.eqb w k); simpl; lia.
Qed.

Lemma gain_of_distinct (m : Counts) (k : string) :
  NoDup (JsMap.keys m) -> gain m k = countOf m k.
Proof.
  unfold gain, countOf. induction m as [|[w v] r IH]; intros Hnd; [reflexivity|].
  inversion Hnd as [|? ? Hnotin Hnd']; subst. simpl.
  destruct (String.eqb w k) eqn:E.
  - apply String.eqb_eq in E. subst w. simpl.
    assert (Hnone : JsMap.get String.eqb k r = None).
    { destruct (JsMap.get String.eqb k r) as [n|] eqn:Eg; [|reflexivity].
      apply (get_in String.eqb string_eqb_eq) in Eg. exfalso. apply Hnotin.
      change k with (fst (k, n)). now apply in_map. }
    rewrite (IH Hnd') , Hnone. lia.
  - now apply IH.
Qed.

Lemma gain_tally (ws : list string) (k : string) :
  gain (tally ws) k = occurrences k ws.
Proof.
  rewrite (gain_of_distinct _ _ (NoDup_keys_tally ws)).
  unfold countOf, occurrences. rewrite get_tally.
  now destruct (count_occ string_dec ws k).
Qed.

Lemma keys_bump (m : Counts) (w k : string) (v : nat) :
  In k (JsMap.keys (bump m (w, v))) -> k = w \/ In k (JsMap.keys m).
Proof.
  unfold bump, JsMap.keys. rewrite in_map_iff. intros ([k' n] & <- & Hin).
  apply in_set in Hin. destruct Hin as [[-> _]|Hin]; [now left|].
  right. change k' with (fst (k', n)). now apply in_map.
Qed.

Lemma keys_fold_bump (tbl : Counts) (k : string) :
  forall m : Counts,
    In k (JsMap.keys (fold_left bump tbl m)) ->
    In k (JsMap.keys m) \/ In k (JsMap.keys tbl).
Proof.
  induction tbl as [|[w v] tbl IH]; intros m; simpl; [tauto|].
  intros H. destruct (IH _ H) as [H1|H1]; [|tauto].
  apply keys_bump in H1. destruct H1 as [->|H1]; tauto.
Qed.

Lemma keys_tally (ws : list string) (k : string) :
  In k (JsMap.keys (tally ws)) -> In k ws.
Proof.
  intros H. destruct (in_keys_get String.eqb string_eqb_eq k _ H) as (n & Hn).
  rewrite get_tally in Hn.
  destruct (count_occ string_dec ws k) eqn:E; [discriminate|].
  apply (count_occ_In string_dec). lia.
Qed.

Lemma adjacentPairs_In (t : list string) (i : string) :
  In i (adjacentPairs t) ->
  exists pre a b post, t = (pre ++ a :: b :: post)%list /\ i = a ++ " " ++ b.
Proof.
  induction t as [|a t IH]; [intros []|].
  destruct t as [|b r]; [intros []|].
  change (adjacentPairs (a :: b :: r)) with ((a ++ " " ++ b) :: adjacentPairs (b :: r)).
  intros [<-|Hin].
  - now exists [], a, b, r.
  - destruct (IH Hin) as (pre & x & y & post & Ht & Hi).
    exists (a :: pre), x, y, post. split; [|assumption].
    simpl. now rewrite Ht.
Qed.

Section Props.
Variable URL_hostname : string -> JsError + string.

Local Abbreviation inferPlaces := (AnalyseNews.inferPlaces URL_hostname).
Local Abbreviation addToBucket := (AnalyseNews.addToBucket).
Local Abbreviation addItem := (AnalyseNews.addItem URL_hostname).
Local Abbreviation buildBuckets := (AnalyseNews.buildBuckets URL_hostname).
Local Abbreviation areas := (AnalyseNews.areas URL_hostname).
Local Abbreviation itemsOfPlace := (AnalyseNews.itemsOfPlace URL_hostname).

Section Table.
(** One of the two tables of a bucket, and the table of an item that is
    merged into it. *)
Variable proj : Bucket -> Counts.
Variable pick : Counts -> Counts -> Counts.
Hypothesis proj_update :
  forall (it : NewsItem) (uni bi : Counts) (b : Bucket),
    proj (mkBucket (addExample (b_items b) it)
                   (fold_left bump uni (b_uni b)) (fold_left bump bi (b_bi b)))
    = fold_left bump (pick uni bi) (proj b).
Hypothesis proj_empty : proj emptyBucket = [].

Lemma tableAt_addToBucket (it : NewsItem) (uni bi : Counts) (bs : Buckets)
  (p q : place) :
  tableAt proj p (addToBucket it uni bi bs q)
  = if place_eqb q p then fold_left bump (pick uni bi) (tableAt proj p bs)
    else tableAt proj p bs.
Proof.
  unfold tableAt, AnalyseNews.addToBucket.
  destruct (place_eqb q p) eqn:E.
  - apply place_eqb_eq in E. subst q.
    rewrite (get_set_same place_eqb place_eqb_eq), proj_update.
    destruct (JsMap.get place_eqb p bs); [reflexivity | now rewrite proj_empty].
  - assert (Hne : q <> p)
      by (intros ->; rewrite (proj2 (place_eqb_eq p p) eq_refl) in E; discriminate).
    now rewrite (get_set_other place_eqb place_eqb_eq _ _ _ _ Hne).
Qed.

Lemma count_places (it : NewsItem) (uni bi : Counts) (p : place) (k : string)
  (places : list place) :
  NoDup places ->
  forall bs : Buckets,
    countOf (tableAt proj p (fold_left (addToBucket it uni bi) places bs)) k
    = countOf (tableAt proj p bs) k
      + (if existsb (place_eqb p) places then gain (pick uni bi) k else 0).
Proof.
  intros Hnd. induction Hnd as [|q places Hq Hnd IH]; intros bs; simpl; [lia|].
  rewrite IH, tableAt_addToBucket, (place_eqb_sym p q).
  destruct (place_eqb q p) eqn:E.
  - apply place_eqb_eq in E. subst q.
    assert (Hno : existsb (place_eqb p) places = false).
    { destruct (existsb (place_eqb p) places) eqn:Ex; [|reflexivity].
      apply existsb_exists in Ex. destruct Ex as (z & Hz & Heq).
      apply place_eqb_eq in Heq. subst z. contradiction. }
    rewrite Hno, countOf_fold_bump. simpl. lia.
  - simpl. reflexivity.
Qed.

Lemma count_addItem (bs : Buckets) (it : NewsItem) (p : place) (k : string) :
  countOf (tableAt proj p (addItem bs it)) k
  = countOf (tableAt proj p bs) k
    + (if existsb (place_eqb p) (inferPlaces it)
       then gain (pick (fst (phrases (title it) (summary it)))
                       (snd (phrases (title it) (summary it)))) k
       else 0).
Proof.
  unfold AnalyseNews.addItem.
  pose proof (NoDup_inferPlaces URL_hostname it) as Hnd.
  destruct (inferPlaces it) as [|q places] eqn:E; [simpl; lia|].
  destruct (phrases (title it) (summary it)) as [uni bi]. cbn [fst snd].
  now apply count_places.
Qed.

Lemma count_build (items : list NewsItem) (p : place) (k : string) :
  forall bs : Buckets,
    countOf (tableAt proj p (fold_left addItem items bs)) k
    = countOf (tableAt proj p bs) k
      + list_sum (map (fun it => gain (pick (fst (phrases (title it) (summary it)))
                                            (snd (phrases (title it) (summary it)))) k)
                      (itemsOfPlace p items)).
Proof.
  induction items as [|it items IH]; intros bs; simpl; [lia|].
  rewrite IH, count_addItem. unfold AnalyseNews.itemsOfPlace. cbn [filter].
  destruct (existsb (place_eqb p) (inferPlaces it)); simpl; lia.
Qed.

Lemma keys_places (it : NewsItem) (uni bi : Counts) (p : place) (k : string)
  (places : list place) :
  forall bs : Buckets,
    In k (JsMap.keys (tableAt proj p (fold_left (addToBucket it uni bi) places bs))) ->
    In k (JsMap.keys (tableAt proj p bs))
    \/ (In p places /\ In k (JsMap.keys (pick uni bi))).
Proof.
  induction places as [|q places IH]; intros bs; simpl; [tauto|].
  intros H. destruct (IH _ H) as [H1|[H1 H2]]; [|tauto].
  rewrite tableAt_addToBucket in H1. destruct (place_eqb q p) eqn:E; [|tauto].
  apply place_eqb_eq in E. subst q.
  apply keys_fold_bump in H1. tauto.
Qed.

Lemma keys_build (items : list NewsItem) (p : place) (k : string) :
  forall bs : Buckets,
    In k (JsMap.keys (tableAt proj p (fold_left addItem items bs))) ->
    In k (JsMap.keys (tableAt proj p bs))
    \/ exists it, In it items /\ In p (inferPlaces it)
                  /\ In k (JsMap.keys (pick (fst (phrases (title it) (summary it)))
                                            (snd (phrases (title it) (summary it))))).
Proof.
  induction items as [|it items IH]; intros bs; [simpl; tauto|].
  cbn [fold_left].
  intros H. destruct (IH _ H) as [H1|(x & Hx & Hp & Hk)].
  - unfold AnalyseNews.addItem in H1.
    destruct (inferPlaces it) as [|q places] eqn:E; [tauto|].
    destruct (phrases (title it) (summary it)) as [uni bi] eqn:Eph.
    apply keys_places in H1. destruct H1 as [H1|[Hp Hk]]; [tauto|].
    right. exists it. rewrite E, Eph. cbn [fst snd].
    split; [now left|]. now split.
  - right. exists x. split; [now right|]. now split.
Qed.

End Table.

Lemma table_of_bucket (proj : Bucket -> Counts) (items : list NewsItem)
  (p : place) (b : Bucket) :
  In (p, b) (buildBuckets items) ->
  proj b = tableAt proj p (buildBuckets items).
Proof.
  intros Hin. destruct (bucket_items URL_hostname items p b Hin) as (Hget & _).
  unfold tableAt. now rewrite Hget.
Qed.

(** X14.  In the bucket of a place, the count of a word is the number of
    times it stands in the filtered tokens of the items mapped to the
    place, and the count of a bigram the number of times it stands among
    their adjacent pairs, every item counting, also one whose link is in
    the bucket already; [sampleCount] counts the distinct links only, so
    it is at most the number of those items. *)
Theorem X14_counts_add_up_over_items :
  forall (items : list NewsItem) (p : place) (b : Bucket) (k : string),
    In (p, b) (buildBuckets items) ->
    countOf (b_uni b) k
    = list_sum (map (fun it => occurrences k (contentTokens (title it) (summary it)))
                    (itemsOfPlace p items))
    /\ countOf (b_bi b) k
       = list_sum (map (fun it => occurrences k
                                    (adjacentPairs (contentTokens (title it) (summary it))))
                       (itemsOfPlace p items))
    /\ sampleCount (areaOf (p, b)) <= List.length (itemsOfPlace p items).
Proof.
  intros items p b k Hin. split; [|split].
  - rewrite (table_of_bucket b_uni items p b Hin).
    unfold AnalyseNews.buildBuckets.
    rewrite (count_build b_uni (fun u _ => u)); [|reflexivity|reflexivity].
    simpl. f_equal. apply map_ext. intros it. apply gain_tally.
  - rewrite (table_of_bucket b_bi items p b Hin).
    unfold AnalyseNews.buildBuckets.
    rewrite (count_build b_bi (fun _ c => c)); [|reflexivity|reflexivity].
    simpl. f_equal. apply map_ext. intros it. apply gain_tally.
  - destruct (bucket_items URL_hostname items p b Hin) as (_ & Hitems & _).
    unfold areaOf. cbn [sampleCount]. rewrite Hitems. unfold JsMap.size, firstByKey.
    apply (length_fold_addExample (itemsOfPlace p items) JsMap.empty).
Qed.

Lemma topN_incl (m : Counts) (n : nat) (kv : string * nat) :
  In kv (topN m n) -> In kv m.
Proof.
  unfold topN, JsArray.slice0. intros H. apply In_firstn in H.
  now apply (Permutation_in _ (sort_perm byCount m)) in H.
Qed.

(** X15.  Every issue of an area is made of two tokens that stand next
    to each other in the filtered tokens of an item mapped to the place,
    and every keyword is one of the filtered tokens of such an item. *)
Theorem X15_issues_and_keywords_come_from_items :
  forall (items : list NewsItem) (area : Area),
    In area (areas items) ->
    (forall i, In i (issues area) ->
       exists it pre a b post,
         In it items /\ In (area_place area) (inferPlaces it)
         /\ contentTokens (title it) (summary it) = (pre ++ a :: b :: post)%list
         /\ i = a ++ " " ++ b)
    /\ (forall w, In w (keywords area) ->
          exists it,
            In it items /\ In (area_place area) (inferPlaces it)
            /\ In w (contentTokens (title it) (summary it))).
Proof.
  intros items area Hin.
  destruct (areas_from_bucket URL_hostname items area Hin) as (p & b & Hb & ->).
  unfold areaOf. cbn [issues keywords area_place]. split.
  - intros i Hi. apply in_map_iff in Hi. destruct Hi as ([i' n] & <- & Hi).
    apply topN_incl in Hi. cbn [fst].
    assert (Hk : In i' (JsMap.keys (b_bi b)))
      by (change i' with (fst (i', n)); now apply in_map).
    rewrite (table_of_bucket b_bi items p b Hb) in Hk.
    unfold AnalyseNews.buildBuckets in Hk.
    apply (keys_build b_bi (fun _ c => c)) in Hk; [|reflexivity|reflexivity].
    destruct Hk as [[]|(it & Hit & Hp & Hk)]. simpl in Hk.
    apply keys_tally, adjacentPairs_In in Hk.
    destruct Hk as (pre & a & c & post & Ht & ->).
    now exists it, pre, a, c, post.
  - intros w Hw. apply filter_In in Hw. destruct Hw as [Hw _].
    apply in_map_iff in Hw. destruct Hw as ([w' n] & <- & Hw).
    apply topN_incl in Hw. cbn [fst].
    assert (Hk : In w' (JsMap.keys (b_uni b)))
      by (change w' with (fst (w', n)); now apply in_map).
    rewrite (table_of_bucket b_uni items p b Hb) in Hk.
    unfold AnalyseNews.buildBuckets in Hk.
    apply (keys_build b_uni (fun u _ => u)) in Hk; [|reflexivity|reflexivity].
    destruct Hk as [[]|(it & Hit & Hp & Hk)]. simpl in Hk.
    apply keys_tally in Hk. now exists it.
Qed.

End Props.

Lemma byCount_count (a b : string * nat) :
  byCount a b = (Z.of_nat (snd b) - Z.of_nat (snd a))%Z.
Proof. reflexivity. Qed.

(** X16.  [topN m n] is the first [n] entries of the table in
    non-increasing order of count, entries of equal count in the order of
    the table (that of first insertion): no entry left out has a larger
    count than an entry kept, and with [n] entries or fewer in the table
    none is left out. *)
Theorem X16_topN_most_frequent_first :
  forall (m : Counts) (n : nat),
    List.length (topN m n) = Nat.min n (List.length m)
    /\ StronglySorted (fun a b => snd b <= snd a) (topN m n)
    /\ (forall c, filter (fun kv => Nat.eqb (snd kv) c) (JsArray.sort byCount m)
                  = filter (fun kv => Nat.eqb (snd kv) c) m)
    /\ (forall x y, In x (topN m n) -> In y (skipn n (JsArray.sort byCount m)) ->
                    snd y <= snd x)
    /\ (forall kv, In kv (topN m n) -> In kv m)
    /\ (List.length m <= n -> Permutation (topN m n) m).
Proof.
  intros m n. unfold topN, JsArray.slice0.
  pose proof (sort_perm byCount m) as Hperm.
  assert (Hs : StronglySorted (JsArray.descBy (fun kv => Z.of_nat (snd kv)))
                 (JsArray.sort byCount m)).
  { apply (sort_sorted byCount (fun kv => Z.of_nat (snd kv))).
    intros; apply byCount_count. }
  assert (Hle : forall l, StronglySorted (JsArray.descBy (fun kv : string * nat => Z.of_nat (snd kv))) l ->
                          StronglySorted (fun a b : string * nat => snd b <= snd a) l).
  { intros l H. induction H as [|a l H IH Hall]; constructor; [assumption|].
    eapply Forall_impl; [|exact Hall]. unfold JsArray.descBy. intros b Hb. lia. }
  split; [|split; [|split; [|split; [|split]]]].
  - rewrite length_firstn. now rewrite (Permutation_length Hperm).
  - apply firstn_sorted. now apply Hle.
  - intros c.
    pose proof (sort_same_key byCount (fun kv => Z.of_nat (snd kv)) (Z.of_nat c) m
                  (fun x y _ _ => byCount_count x y)) as H.
    assert (Hext : forall l : list (string * nat),
               filter (fun kv => Nat.eqb (snd kv) c) l
               = filter (fun kv => (Z.of_nat (snd kv) =? Z.of_nat c)%Z) l).
    { intros l. apply filter_ext. intros kv.
      destruct (Nat.eqb_spec (snd kv) c),
               (Z.eqb_spec (Z.of_nat (snd kv)) (Z.of_nat c));
        try reflexivity; lia. }
    rewrite !Hext. exact H.
  - intros x y Hx Hy. rewrite <- (firstn_skipn n) in Hs.
    pose proof (StronglySorted_app_inv _ _ _ Hs x y Hx Hy) as H.
    unfold JsArray.descBy in H. lia.
  - intros kv H. apply In_firstn in H. now apply (Permutation_in _ Hperm) in H.
  - intros H. rewrite firstn_all2; [assumption|].
    now rewrite (Permutation_length Hperm).
Qed.

Import Host.

(** Two items with one link: the word "bolton" is counted twice, the
    link once. *)
Lemma X14_counts_add_up_over_items_witness :
  countOf (b_uni (snd (hd (Named "", emptyBucket)
                          (AnalyseNews.buildBuckets plainHostname
                             [boltonHousing; boltonHousing]))))
          "bolton" = 2
  /\ JsMap.size (b_items (snd (hd (Named "", emptyBucket)
                                  (AnalyseNews.buildBuckets plainHostname
                                     [boltonHousing; boltonHousing])))) = 1.
Proof.
  split; [|vm_compute; reflexivity].
  refine (eq_trans (proj1 (X14_counts_add_up_over_items plainHostname
            [boltonHousing; boltonHousing] (Named "Bolton") _ "bolton" _)) _).
  - vm_compute. left. reflexivity.
  - vm_compute. reflexivity.
Defined.

Lemma X15_issues_and_keywords_come_from_items_witness :
  exists it,
    In it [boltonHousing; wiganBrief]
    /\ In (Named "Bolton") (AnalyseNews.inferPlaces plainHostname it)
    /\ In "wigan" (contentTokens (title it) (summary it)).
Proof.
  refine (proj2 (X15_issues_and_keywords_come_from_items plainHostname
            [boltonHousing; wiganBrief]
            (hd (mkArea (Named "") 0 [] [] [])
                (AnalyseNews.areas plainHostname [boltonHousing; wiganBrief])) _)
            "wigan" _).
  - vm_compute. left. reflexivity.
  - vm_compute. left. reflexivity.
Defined.

End CountProps.

(** ** App.jsx: the fields of the CSV export *)

Module CsvProps.
Import Js Display RegExpFacts.

Lemma doubleQuotes_inj (a : string) :
  forall b, doubleQuotes a = doubleQuotes b -> a = b.
Proof.
  induction a as [|c a IH]; intros [|d b]; simpl.
  - reflexivity.
  - destruct (Ascii.eqb d dquote); discriminate.
  - destruct (Ascii.eqb c dquote); discriminate.
  - destruct (Ascii.eqb c dquote) eqn:Ec, (Ascii.eqb d dquote) eqn:Ed.
    + apply Ascii.eqb_eq in Ec, Ed. subst. intros [= H]. now rewrite (IH b H).
    + intros [= <- H]. rewrite Ascii.eqb_refl in Ed. discriminate.
    + intros [= -> H]. rewrite Ascii.eqb_refl in Ec. discriminate.
    + intros [= -> H]. now rewrite (IH b H).
Qed.

Lemma hasCsvSpecial_doubleQuotes (a : string) :
  hasCsvSpecial (doubleQuotes a) = hasCsvSpecial a.
Proof.
  induction a as [|c a IH]; simpl; [reflexivity|].
  destruct (Ascii.eqb c dquote) eqn:Ec.
  - apply Ascii.eqb_eq in Ec. subst c. reflexivity.
  - simpl. now rewrite IH.
Qed.

Lemma doubleQuotes_plain (a : string) :
  hasCsvSpecial a = false -> doubleQuotes a = a.
Proof.
  induction a as [|c a IH]; simpl; [reflexivity|].
  unfold isCsvSpecial. destruct (Ascii.eqb c dquote); simpl; [discriminate|].
  intros H. apply orb_false_iff in H. destruct H as [_ H]. now rewrite IH.
Qed.

Lemma countQuotes_plain (a : string) :
  hasCsvSpecial a = false -> countQuotes a = 0.
Proof.
  induction a as [|c a IH]; simpl; [reflexivity|].
  unfold isCsvSpecial. destruct (Ascii.eqb c dquote); simpl; [discriminate|].
  intros H. apply orb_false_iff in H. destruct H as [_ H]. now apply IH.
Qed.

Lemma countQuotes_app (a b : string) :
  countQuotes (a ++ b) = countQuotes a + countQuotes b.
Proof. induction a as [|c a IH]; simpl; [reflexivity | rewrite IH; lia]. Qed.

Lemma countQuotes_doubleQuotes (a : string) :
  countQuotes (doubleQuotes a) = 2 * countQuotes a.
Proof.
  induction a as [|c a IH]; simpl; [reflexivity|].
  destruct (Ascii.eqb c dquote) eqn:Ec; simpl.
  - rewrite IH. change (Ascii.eqb dquote dquote) with true. lia.
  - rewrite Ec, IH. lia.
Qed.

Lemma append_last_inj (a b : string) (c : ascii) :
  a ++ String c "" = b ++ String c "" -> a = b.
Proof.
  revert b. induction a as [|x a IH]; intros [|y b]; simpl.
  - reflexivity.
  - intros [= _ H]. destruct b; discriminate.
  - intros [= _ H]. destruct a; discriminate.
  - intros [= -> H]. now rewrite (IH b H).
Qed.

(** X17.  The [escape] of the CSV export keeps distinct texts distinct.
    A text without double quote, comma or line feed is written as it is;
    any other is written between double quotes with each of its double
    quotes doubled; so a field always has an even number of double
    quotes. *)
Theorem X17_escape_keeps_texts_apart :
  forall a b : string,
    (escape (str a) = escape (str b) -> a = b)
    /\ (hasCsvSpecial a = false -> escape (str a) = a)
    /\ (hasCsvSpecial a = true ->
        escape (str a) = String dquote (doubleQuotes a ++ String dquote ""))
    /\ Nat.even (countQuotes (escape (str a))) = true.
Proof.
  intros a b. unfold escape. rewrite !hasCsvSpecial_doubleQuotes.
  split; [|split; [|split]].
  - destruct (hasCsvSpecial a) eqn:Ea, (hasCsvSpecial b) eqn:Eb.
    + intros [= H]. apply append_last_inj in H. now apply doubleQuotes_inj.
    + rewrite (doubleQuotes_plain b Eb). intros <-. simpl in Eb. discriminate.
    + rewrite (doubleQuotes_plain a Ea). intros ->. simpl in Ea. discriminate.
    + apply doubleQuotes_inj.
  - intros H. rewrite H. now apply doubleQuotes_plain.
  - now intros ->.
  - destruct (hasCsvSpecial a) eqn:Ea.
    + cbn [countQuotes]. rewrite Ascii.eqb_refl, countQuotes_app.
      cbn [countQuotes]. rewrite Ascii.eqb_refl, countQuotes_doubleQuotes.
      replace (1 + (2 * countQuotes a + (1 + 0))) with (2 * (countQuotes a + 1)) by lia.
      apply Nat.even_spec. now exists (countQuotes a + 1).
    + rewrite (doubleQuotes_plain a Ea), (countQuotes_plain a Ea). reflexivity.
Qed.

Lemma X17_escape_keeps_texts_apart_witness :
  escape (str "Lab, Con") = String dquote ("Lab, Con" ++ String dquote "")
  /\ escape (str "Labour") = "Labour".
Proof.
  split.
  - apply (proj1 (proj2 (proj2 (X17_escape_keeps_texts_apart "Lab, Con" ""))) eq_refl).
  - apply (proj1 (proj2 (X17_escape_keeps_texts_apart "Labour" "")) eq_refl).
Defined.

End CsvProps.

(** ** App.jsx: the issues seen across the most areas *)

Module InsightProps.
Import Js AnalyseNews Display JsMapFacts JsArrayFacts RegExpFacts.
Import PhraseSpec BucketProps CountProps.

Lemma setOf_step_In (acc : list string) (x y : string) :
  In y (if existsb (String.eqb x) acc then acc else (acc ++ [x])%list)
  <-> In y acc \/ y = x.
Proof.
  destruct (existsb (String.eqb x) acc) eqn:E.
  - split; [tauto|]. intros [H | ->]; [assumption|].
    apply existsb_exists in E. destruct E as (z & Hz & Heq).
    apply String.eqb_eq in Heq. now subst.
  - rewrite in_app_iff. simpl. intuition.
Qed.

Lemma setOf_fold (l : list string) :
  forall acc : list string,
    NoDup acc ->
    NoDup (fold_left (fun acc x => if existsb (String.eqb x) acc then acc
                                   else (acc ++ [x])%list) l acc)
    /\ forall y, In y (fold_left (fun acc x => if existsb (String.eqb x) acc then acc
                                               else (acc ++ [x])%list) l acc)
                 <-> In y acc \/ In y l.
Proof.
  induction l as [|x l IH]; intros acc Hnd; cbn [fold_left].
  - split; [assumption|]. intros y. simpl. tauto.
  - assert (Hnd' : NoDup (if existsb (String.eqb x) acc then acc else (acc ++ [x])%list)).
    { destruct (existsb (String.eqb x) acc) eqn:E; [assumption|].
      apply NoDup_rev in Hnd. rewrite <- (rev_involutive (acc ++ [x])).
      apply NoDup_rev. rewrite rev_app_distr. simpl. constructor; [|assumption].
      rewrite <- in_rev. intros Hin.
      assert (Ex : existsb (String.eqb x) acc = true).
      { apply existsb_exists. exists x. split; [assumption | apply String.eqb_refl]. }
      congruence. }
    destruct (IH _ Hnd') as [H1 H2]. split; [assumption|].
    intros y. rewrite H2, setOf_step_In. simpl. intuition.
Qed.

Lemma count_occ_setOf (l : list string) (k : string) :
  count_occ string_dec (setOf l) k = if existsb (String.eqb k) l then 1 else 0.
Proof.
  destruct (setOf_fold l [] (NoDup_nil _)) as [Hnd Hin]. fold (setOf l) in Hnd, Hin.
  destruct (existsb (String.eqb k) l) eqn:E.
  - apply existsb_exists in E. destruct E as (z & Hz & Heq).
    apply String.eqb_eq in Heq. subst z.
    assert (H1 : In k (setOf l)) by (apply Hin; now right).
    apply (count_occ_In string_dec) in H1.
    pose proof (proj1 (NoDup_count_occ string_dec (setOf l)) Hnd k). lia.
  - apply (count_occ_not_In string_dec). intros H. apply Hin in H.
    destruct H as [[]|H].
    assert (Ex : existsb (String.eqb k) l = true).
    { apply existsb_exists. exists k. split; [assumption | apply String.eqb_refl]. }
    congruence.
Qed.

Lemma countOf_bump_words (ws : list string) (k : string) (m : Counts) :
  countOf (fold_left (fun m i => bump m (i, 1)) ws m) k
  = countOf m k + count_occ string_dec ws k.
Proof.
  unfold countOf at 1. rewrite get_tally_from.
  destruct (count_occ string_dec ws k); [unfold countOf; lia | reflexivity].
Qed.

Lemma countIssues_from (areas : list MoodArea) (i : string) :
  forall m : Counts,
    countOf (fold_left (fun m a => fold_left (fun m i => bump m (i, 1))
                                             (setOf (m_issues a)) m) areas m) i
    = countOf m i + List.length (areasListing i areas).
Proof.
  induction areas as [|a areas IH]; intros m; [simpl; lia|].
  cbn [fold_left]. rewrite IH, countOf_bump_words, count_occ_setOf.
  unfold areasListing. cbn [filter].
  destruct (existsb (String.eqb i) (m_issues a)); simpl; lia.
Qed.

Lemma NoDup_keys_countIssues (areas : list MoodArea) :
  NoDup (JsMap.keys (countIssues areas)).
Proof.
  unfold countIssues.
  assert (H : NoDup (JsMap.keys (@JsMap.empty string nat))) by constructor.
  revert H. generalize (@JsMap.empty string nat).
  induction areas as [|a areas IH]; intros m H; [assumption|].
  cbn [fold_left]. apply IH. generalize (setOf (m_issues a)). intros ws.
  revert m H. induction ws as [|w ws IHw]; intros m H; [assumption|].
  cbn [fold_left]. apply IHw. now apply (NoDup_keys_bump m (w, 1)).
Qed.

Lemma keys_countIssues (areas : list MoodArea) (i : string) :
  forall m : Counts,
    In i (JsMap.keys (fold_left (fun m a => fold_left (fun m i => bump m (i, 1))
                                                      (setOf (m_issues a)) m) areas m)) ->
    In i (JsMap.keys m) \/ areasListing i areas <> [].
Proof.
  induction areas as [|a areas IH]; intros m; [simpl; tauto|].
  cbn [fold_left]. intros H. apply IH in H. unfold areasListing. cbn [filter].
  destruct H as [H|H].
  - assert (Hk : In i (JsMap.keys m) \/ In i (setOf (m_issues a))).
    { revert m H. generalize (setOf (m_issues a)). intros ws.
      induction ws as [|w ws IHw]; intros m H; [now left|].
      cbn [fold_left] in H. destruct (IHw _ H) as [H1|H1]; [|right; now right].
      apply keys_bump in H1. destruct H1 as [->|H1]; [right; now left | now left]. }
    destruct Hk as [Hk|Hk]; [now left|]. right.
    destruct (setOf_fold (m_issues a) [] (NoDup_nil _)) as [_ Hin].
    apply Hin in Hk. destruct Hk as [[]|Hk].
    assert (Ex : existsb (String.eqb i) (m_issues a) = true).
    { apply existsb_exists. exists i. split; [assumption | apply String.eqb_refl]. }
    rewrite Ex. discriminate.
  - right. destruct (existsb (String.eqb i) (m_issues a)); [discriminate | exact H].
Qed.

(** X18.  In the table of top issues, the number shown with an issue is
    the number of areas that list it, an area counting once however
    often it lists the issue; it is at least 1, and at most 12 issues
    are shown. *)
Theorem X18_issue_score_counts_areas :
  forall (areas : list MoodArea) (i : string),
    countOf (countIssues areas) i = List.length (areasListing i areas)
    /\ (forall n, In (i, n) (topIssues areas) ->
                  n = List.length (areasListing i areas) /\ 1 <= n)
    /\ List.length (topIssues areas) <= 12.
Proof.
  intros areas i.
  assert (Hc : countOf (countIssues areas) i = List.length (areasListing i areas))
    by (unfold countIssues; rewrite countIssues_from; reflexivity).
  split; [exact Hc|]. split; [|apply firstn_le_length].
  intros n Hin. unfold topIssues, JsArray.slice0 in Hin. apply In_firstn in Hin.
  apply (Permutation_in _ (sort_perm byCount _)) in Hin.
  assert (Hk : In i (JsMap.keys (countIssues areas)))
    by (change i with (fst (i, n)); now apply in_map).
  apply (in_get String.eqb string_eqb_eq _ _ _ (NoDup_keys_countIssues areas)) in Hin.
  unfold countOf in Hc. rewrite Hin in Hc. split; [exact Hc|].
  unfold countIssues in Hk. apply keys_countIssues in Hk.
  destruct Hk as [[]|Hk]. rewrite Hc.
  destruct (areasListing i areas); [contradiction | simpl; lia].
Qed.

Lemma X18_issue_score_counts_areas_witness :
  topIssues [mkMoodArea (str "Bolton") 3 ["bus cuts"; "rents rise"; "bus cuts"];
             mkMoodArea (str "Wigan") 2 ["bus cuts"]]
  = [("bus cuts", 2); ("rents rise", 1)]
  /\ 2 = List.length (areasListing "bus cuts"
            [mkMoodArea (str "Bolton") 3 ["bus cuts"; "rents rise"; "bus cuts"];
             mkMoodArea (str "Wigan") 2 ["bus cuts"]]).
Proof.
  split; [vm_compute; reflexivity|].
  refine (proj1 (proj1 (proj2 (X18_issue_score_counts_areas _ "bus cuts")) 2 _)).
  vm_compute. left. reflexivity.
Defined.

End InsightProps.

(** ** Both scripts: letter case of the input does not matter *)

Module CaseProps.
Import Js RegExp Classifier AnalyseNews RegExpFacts DedupSpec.

Lemma Canonicalize_lowerChar (c : ascii) :
  Canonicalize (lowerChar c) = Canonicalize c.
Proof. destruct c as [[] [] [] [] [] [] [] []]; vm_compute; reflexivity. Qed.

Lemma isWordChar_lowerChar (c : ascii) :
  isWordChar (lowerChar c) = isWordChar c.
Proof. destruct c as [[] [] [] [] [] [] [] []]; vm_compute; reflexivity. Qed.

Lemma isWordOpt_lower (o : option ascii) :
  isWordOpt (option_map lowerChar o) = isWordOpt o.
Proof. destruct o; simpl; [apply isWordChar_lowerChar | reflexivity]. Qed.

Lemma hd_char_lower (s : string) :
  hd_char (toLowerCase s) = option_map lowerChar (hd_char s).
Proof. now destruct s. Qed.

Lemma matchHere_lower (p : list atom) :
  forall (prev : option ascii) (s : string),
    matchHere true p (option_map lowerChar prev) (toLowerCase s)
    = matchHere true p prev s.
Proof.
  induction p as [|[c|] p IH]; intros prev s; [reflexivity| |].
  - destruct s as [|d s]; [reflexivity|]. cbn [toLowerCase smap matchHere].
    unfold chrMatches. rewrite Canonicalize_lowerChar.
    f_equal. apply (IH (Some d) s).
  - cbn [matchHere]. now rewrite IH, hd_char_lower, !isWordOpt_lower.
Qed.

Lemma searchFrom_lower (p : list atom) (s : string) :
  forall prev : option ascii,
    searchFrom true p (option_map lowerChar prev) (toLowerCase s)
    = searchFrom true p prev s.
Proof.
  induction s as [|d s IH]; intros prev.
  - cbn [toLowerCase smap searchFrom].
    now rewrite <- (matchHere_lower p prev "").
  - cbn [toLowerCase smap searchFrom].
    rewrite <- (matchHere_lower p prev (String d s)).
    f_equal. apply (IH (Some d)).
Qed.

Lemma test_lower (atoms : list atom) (s : string) :
  test (mkRegex atoms true) (toLowerCase s) = test (mkRegex atoms true) s.
Proof. unfold test. apply (searchFrom_lower atoms s None). Qed.

Lemma existsb_lower (f : string -> regex) (ps : list string) (s : string) :
  (forall p, ignoreCase (f p) = true) ->
  existsb (fun rx => test rx (toLowerCase s)) (map f ps)
  = existsb (fun rx => test rx s) (map f ps).
Proof.
  intros Hf. induction ps as [|p ps IH]; [reflexivity|]. cbn [map existsb].
  rewrite IH. f_equal. specialize (Hf p). destruct (f p) as [a ic].
  simpl in Hf. subst ic. apply test_lower.
Qed.

(** X19.  Letter case of the input does not matter: a title and a
    summary are classified as their lower-case forms are, and a text
    names the places that its lower-case form names. *)
Theorem X19_case_does_not_matter :
  forall title summary text : string,
    isPolitical (str (toLowerCase title)) (str (toLowerCase summary))
    = isPolitical (str title) (str summary)
    /\ placeFromText (toLowerCase text) = placeFromText text.
Proof.
  intros title summary text. split.
  - unfold isPolitical, haystack. cbn [defaultEmpty orEmpty].
    replace (toLowerCase title ++ " " ++ toLowerCase summary)
      with (toLowerCase (title ++ " " ++ summary))
      by (unfold toLowerCase; now rewrite !smap_app).
    unfold EXCLUDE, INCLUDE. now rewrite !existsb_lower.
  - unfold placeFromText. apply filter_ext. intros p. apply test_lower.
Qed.

End CaseProps.
(** ** analyse-news: where the examples come from *)

Module ExampleProps.
Import Js Data RegExp AnalyseNews JsMapFacts JsArrayFacts RegExpFacts.
Import PlaceSpec PhraseSpec BucketProps.

Lemma fold_addExample_from (Q : Example -> Prop) (l : list NewsItem) :
  forall m : list (jsval * Example),
    (forall k ex, In (k, ex) m -> Q ex) ->
    (forall it, In it l -> Q (exampleOf it)) ->
    forall k ex, In (k, ex) (fold_left addExample l m) -> Q ex.
Proof.
  induction l as [|it l IH]; intros m Hm Hl; [exact Hm|].
  cbn [fold_left]. apply IH.
  - intros k ex Hin. unfold addExample in Hin.
    destruct (JsMap.has jsval_eqb (itemKey it) m); [now apply (Hm k)|].
    apply in_set in Hin. destruct Hin as [[_ ->]|Hin]; [|now apply (Hm k)].
    apply Hl. now left.
  - intros x Hx. apply Hl. now right.
Qed.

Section Props.
Variable URL_hostname : string -> JsError + string.

Local Abbreviation inferPlaces := (AnalyseNews.inferPlaces URL_hostname).
Local Abbreviation areas := (AnalyseNews.areas URL_hostname).
Local Abbreviation itemsOfPlace := (AnalyseNews.itemsOfPlace URL_hostname).

(** X20.  Every example of an area is taken from an item of the input
    that is mapped to the area's place: it has the title, link, source
    and [pubDate] of that item. *)
Theorem X20_examples_are_items_of_the_place :
  forall (items : list NewsItem) (area : Area) (ex : Example),
    In area (areas items) -> In ex (examples area) ->
    exists it,
      In it items /\ In (area_place area) (inferPlaces it)
      /\ ex = exampleOf it.
Proof.
  intros items area ex Hin Hex.
  destruct (areas_from_bucket URL_hostname items area Hin) as (p & b & Hb & ->).
  destruct (bucket_items URL_hostname items p b Hb) as (_ & Hitems & _).
  unfold areaOf in Hex. cbn [examples] in Hex. rewrite Hitems in Hex.
  unfold JsArray.slice0 in Hex. apply In_firstn in Hex.
  unfold JsMap.values in Hex. apply in_map_iff in Hex.
  destruct Hex as ([k ex'] & <- & Hin').
  unfold areaOf. cbn [area_place snd].
  apply (fold_addExample_from
           (fun e => exists it, In it items /\ In p (inferPlaces it) /\ e = exampleOf it)
           (itemsOfPlace p items) JsMap.empty) with (k := k).
  - intros k0 e [].
  - intros it Hit. unfold AnalyseNews.itemsOfPlace in Hit.
    apply filter_In in Hit. destruct Hit as [Hit Hp].
    apply existsb_exists in Hp. destruct Hp as (q & Hq & Heq).
    apply place_eqb_eq in Heq. subst q. now exists it.
  - exact Hin'.
Qed.

End Props.

Import Host.

Lemma X20_examples_are_items_of_the_place_witness :
  exists it,
    In it [boltonHousing; wiganBrief]
    /\ In (Named "Wigan") (AnalyseNews.inferPlaces plainHostname it)
    /\ exampleOf wiganBrief = exampleOf it.
Proof.
  refine (X20_examples_are_items_of_the_place plainHostname
            [boltonHousing; wiganBrief]
            (mkArea (Named "Wigan") 1 [] ["wigan"] [exampleOf wiganBrief])
            (exampleOf wiganBrief) _ _).
  - vm_compute. right. left. reflexivity.
  - now left.
Defined.

End ExampleProps.

(** ** The earlier analysis script: what [sampleCount] counted *)

Module EarlierProps.
Import Js Data RegExp AnalyseNews JsMapFacts JsArrayFacts RegExpFacts.
Import EarlierAnalysis.
















Import Host.


End EarlierProps.
